(** * Memory and reasoning core of the AI agent (src/main.js)

    A shallow embedding of the [Memory] and [ReasoningEngine] classes.

    Modelling conventions.
    - JavaScript numbers are exact rationals ([Q]); [Math.min]/[Math.max]
      are [Qmin]/[Qmax].  [Math.exp] is a parameter of [applyDecay].
    - JavaScript strings are [string], holding the UTF-8 encoding of the
      text; [toLowerCase] is the default case conversion of Unicode and
      [length] counts UTF-16 code units.
    - [Date.now()] and [generateId()] are explicit arguments of every
      operation that reads them (one clock reading per public call).
    - A [Map] is an association list in insertion order with unique keys.
    - A thrown exception is the [Throw] outcome of [JsResult]. *)

From Stdlib Require Import List String Ascii Bool Arith NArith ZArith QArith.
From Stdlib Require Import Qminmax Lia Lqa.
From Stdlib Require Import Permutation Sorted.
Import ListNotations.

Local Open Scope string_scope.
Local Open Scope list_scope.
Local Open Scope Q_scope.

(** ** Numbers *)

Definition Qltb (a b : Q) : bool := negb (Qle_bool b a).

(** ** Strings *)

Module Str.

Definition lowerAscii (c : ascii) : ascii :=
  let n := nat_of_ascii c in
  if (65 <=? n)%nat && (n <=? 90)%nat then ascii_of_nat (n + 32) else c.

(** *** Code points

    A [string] holds the UTF-8 encoding of the text, as the literals of
    this file do.  [codePoints] decodes it; a byte that does not start a
    well-formed sequence is kept apart from every code point, as
    [raw byte], so that [fromCodePoints] gives it back. *)

Definition raw (b : N) : N := (0x110000 + b)%N.

Definition continuation (a : ascii) : option N :=
  let b := N_of_ascii a in
  if ((0x80 <=? b) && (b <=? 0xBF))%N then Some (b - 0x80)%N else None.

(** The code point that starts with the byte [a], followed by [r], and
    the number of bytes it takes. *)
Definition first (a : ascii) (r : string) : N * nat :=
  let b := N_of_ascii a in
  let bad := (raw b, 1%nat) in
  if (b <? 0x80)%N then (b, 1%nat)
  else if (b <? 0xC0)%N then bad
  else if (b <? 0xE0)%N then
    match r with
    | String a1 _ =>
        match continuation a1 with
        | Some c1 =>
            let cp := ((b - 0xC0) * 0x40 + c1)%N in
            if (0x80 <=? cp)%N then (cp, 2%nat) else bad
        | None => bad
        end
    | _ => bad
    end
  else if (b <? 0xF0)%N then
    match r with
    | String a1 (String a2 _) =>
        match continuation a1, continuation a2 with
        | Some c1, Some c2 =>
            let cp := ((b - 0xE0) * 0x1000 + c1 * 0x40 + c2)%N in
            if ((0x800 <=? cp) && negb ((0xD800 <=? cp) && (cp <=? 0xDFFF)))%N
            then (cp, 3%nat) else bad
        | _, _ => bad
        end
    | _ => bad
    end
  else
    match r with
    | String a1 (String a2 (String a3 _)) =>
        match continuation a1, continuation a2, continuation a3 with
        | Some c1, Some c2, Some c3 =>
            let cp :=
              ((b - 0xF0) * 0x40000 + c1 * 0x1000 + c2 * 0x40 + c3)%N in
            if ((0x10000 <=? cp) && (cp <=? 0x10FFFF))%N
            then (cp, 4%nat) else bad
        | _, _, _ => bad
        end
    | _ => bad
    end.

Fixpoint codePoints (s : string) : list N :=
  match s with
  | EmptyString => []
  | String a r =>
      match first a r with
      | (cp, 1%nat) => cp :: codePoints r
      | (cp, 2%nat) =>
          match r with
          | String _ r1 => cp :: codePoints r1
          | _ => [cp]
          end
      | (cp, 3%nat) =>
          match r with
          | String _ (String _ r2) => cp :: codePoints r2
          | _ => [cp]
          end
      | (cp, _) =>
          match r with
          | String _ (String _ (String _ r3)) => cp :: codePoints r3
          | _ => [cp]
          end
      end
  end.

Definition bytes (l : list N) : string :=
  string_of_list_ascii (map ascii_of_N l).

(** The UTF-8 encoding of one code point. *)
Definition utf8 (cp : N) : string :=
  if (cp <? 0x80)%N then bytes [cp]
  else if (cp <? 0x800)%N then
    bytes [0xC0 + cp / 0x40; 0x80 + cp mod 0x40]%N
  else if (cp <? 0x10000)%N then
    bytes [0xE0 + cp / 0x1000; 0x80 + (cp / 0x40) mod 0x40;
           0x80 + cp mod 0x40]%N
  else if (cp <? 0x110000)%N then
    bytes [0xF0 + cp / 0x40000; 0x80 + (cp / 0x1000) mod 0x40;
           0x80 + (cp / 0x40) mod 0x40; 0x80 + cp mod 0x40]%N
  else bytes [cp - 0x110000]%N.

Fixpoint fromCodePoints (l : list N) : string :=
  match l with
  | [] => EmptyString
  | cp :: r => (utf8 cp ++ fromCodePoints r)%string
  end.

(** [s.length]: the number of UTF-16 code units, two for a code point
    beyond the basic plane. *)
Definition units (cp : N) : nat :=
  if ((0x10000 <=? cp) && (cp <? 0x110000))%N then 2%nat else 1%nat.

Definition length (s : string) : nat := list_sum (map units (codePoints s)).

(** Whether every character of [s] is an ASCII character. *)
Fixpoint isAscii (s : string) : bool :=
  match s with
  | EmptyString => true
  | String c r => (N_of_ascii c <? 0x80)%N && isAscii r
  end.

(** *** Case conversion *)

(** Lowercase mappings of the Unicode Character Database (version 14):
    the code points [lo .. hi] map, in order, to the code points from [to]
    on. *)
Definition lowerShift : list (N * N * N) :=
  [(0x41, 0x5A, 0x61); (0xC0, 0xD6, 0xE0); (0xD8, 0xDE, 0xF8);
   (0x178, 0x178, 0xFF); (0x181, 0x181, 0x253); (0x186, 0x186, 0x254);
   (0x187, 0x187, 0x188); (0x189, 0x18A, 0x256); (0x18B, 0x18B, 0x18C);
   (0x18E, 0x18E, 0x1DD); (0x18F, 0x18F, 0x259); (0x190, 0x190, 0x25B);
   (0x191, 0x191, 0x192); (0x193, 0x193, 0x260); (0x194, 0x194, 0x263);
   (0x196, 0x196, 0x269); (0x197, 0x197, 0x268); (0x198, 0x198, 0x199);
   (0x19C, 0x19C, 0x26F); (0x19D, 0x19D, 0x272); (0x19F, 0x19F, 0x275);
   (0x1A6, 0x1A6, 0x280); (0x1A7, 0x1A7, 0x1A8); (0x1A9, 0x1A9, 0x283);
   (0x1AC, 0x1AC, 0x1AD); (0x1AE, 0x1AE, 0x288); (0x1AF, 0x1AF, 0x1B0);
   (0x1B1, 0x1B2, 0x28A); (0x1B7, 0x1B7, 0x292); (0x1B8, 0x1B8, 0x1B9);
   (0x1BC, 0x1BC, 0x1BD); (0x1C4, 0x1C4, 0x1C6); (0x1C5, 0x1C5, 0x1C6);
   (0x1C7, 0x1C7, 0x1C9); (0x1C8, 0x1C8, 0x1C9); (0x1CA, 0x1CA, 0x1CC);
   (0x1F1, 0x1F1, 0x1F3); (0x1F6, 0x1F6, 0x195); (0x1F7, 0x1F7, 0x1BF);
   (0x220, 0x220, 0x19E); (0x23A, 0x23A, 0x2C65); (0x23B, 0x23B, 0x23C);
   (0x23D, 0x23D, 0x19A); (0x23E, 0x23E, 0x2C66); (0x241, 0x241, 0x242);
   (0x243, 0x243, 0x180); (0x244, 0x244, 0x289); (0x245, 0x245, 0x28C);
   (0x376, 0x376, 0x377); (0x37F, 0x37F, 0x3F3); (0x386, 0x386, 0x3AC);
   (0x388, 0x38A, 0x3AD); (0x38C, 0x38C, 0x3CC); (0x38E, 0x38F, 0x3CD);
   (0x391, 0x3A1, 0x3B1); (0x3A4, 0x3AB, 0x3C4); (0x3CF, 0x3CF, 0x3D7);
   (0x3F4, 0x3F4, 0x3B8); (0x3F7, 0x3F7, 0x3F8); (0x3F9, 0x3F9, 0x3F2);
   (0x3FA, 0x3FA, 0x3FB); (0x3FD, 0x3FF, 0x37B); (0x400, 0x40F, 0x450);
   (0x410, 0x42F, 0x430); (0x4C0, 0x4C0, 0x4CF); (0x531, 0x556, 0x561);
   (0x10A0, 0x10C5, 0x2D00); (0x10C7, 0x10C7, 0x2D27);
   (0x10CD, 0x10CD, 0x2D2D); (0x13A0, 0x13EF, 0xAB70);
   (0x13F0, 0x13F5, 0x13F8); (0x1C90, 0x1CBA, 0x10D0);
   (0x1CBD, 0x1CBF, 0x10FD); (0x1E9E, 0x1E9E, 0xDF);
   (0x1F08, 0x1F0F, 0x1F00); (0x1F18, 0x1F1D, 0x1F10);
   (0x1F28, 0x1F2F, 0x1F20); (0x1F38, 0x1F3F, 0x1F30);
   (0x1F48, 0x1F4D, 0x1F40); (0x1F59, 0x1F59, 0x1F51);
   (0x1F5B, 0x1F5B, 0x1F53); (0x1F5D, 0x1F5D, 0x1F55);
   (0x1F5F, 0x1F5F, 0x1F57); (0x1F68, 0x1F6F, 0x1F60);
   (0x1F88, 0x1F8F, 0x1F80); (0x1F98, 0x1F9F, 0x1F90);
   (0x1FA8, 0x1FAF, 0x1FA0); (0x1FB8, 0x1FB9, 0x1FB0);
   (0x1FBA, 0x1FBB, 0x1F70); (0x1FBC, 0x1FBC, 0x1FB3);
   (0x1FC8, 0x1FCB, 0x1F72); (0x1FCC, 0x1FCC, 0x1FC3);
   (0x1FD8, 0x1FD9, 0x1FD0); (0x1FDA, 0x1FDB, 0x1F76);
   (0x1FE8, 0x1FE9, 0x1FE0); (0x1FEA, 0x1FEB, 0x1F7A);
   (0x1FEC, 0x1FEC, 0x1FE5); (0x1FF8, 0x1FF9, 0x1F78);
   (0x1FFA, 0x1FFB, 0x1F7C); (0x1FFC, 0x1FFC, 0x1FF3);
   (0x2126, 0x2126, 0x3C9); (0x212A, 0x212A, 0x6B); (0x212B, 0x212B, 0xE5);
   (0x2132, 0x2132, 0x214E); (0x2160, 0x216F, 0x2170);
   (0x2183, 0x2183, 0x2184); (0x24B6, 0x24CF, 0x24D0);
   (0x2C00, 0x2C2F, 0x2C30); (0x2C60, 0x2C60, 0x2C61);
   (0x2C62, 0x2C62, 0x26B); (0x2C63, 0x2C63, 0x1D7D);
   (0x2C64, 0x2C64, 0x27D); (0x2C6D, 0x2C6D, 0x251); (0x2C6E, 0x2C6E, 0x271);
   (0x2C6F, 0x2C6F, 0x250); (0x2C70, 0x2C70, 0x252);
   (0x2C72, 0x2C72, 0x2C73); (0x2C75, 0x2C75, 0x2C76);
   (0x2C7E, 0x2C7F, 0x23F); (0x2CF2, 0x2CF2, 0x2CF3);
   (0xA77D, 0xA77D, 0x1D79); (0xA78B, 0xA78B, 0xA78C);
   (0xA78D, 0xA78D, 0x265); (0xA7AA, 0xA7AA, 0x266); (0xA7AB, 0xA7AB, 0x25C);
   (0xA7AC, 0xA7AC, 0x261); (0xA7AD, 0xA7AD, 0x26C); (0xA7AE, 0xA7AE, 0x26A);
   (0xA7B0, 0xA7B0, 0x29E); (0xA7B1, 0xA7B1, 0x287); (0xA7B2, 0xA7B2, 0x29D);
   (0xA7B3, 0xA7B3, 0xAB53); (0xA7C4, 0xA7C4, 0xA794);
   (0xA7C5, 0xA7C5, 0x282); (0xA7C6, 0xA7C6, 0x1D8E);
   (0xA7D0, 0xA7D0, 0xA7D1); (0xA7F5, 0xA7F5, 0xA7F6);
   (0xFF21, 0xFF3A, 0xFF41); (0x10400, 0x10427, 0x10428);
   (0x104B0, 0x104D3, 0x104D8); (0x10570, 0x1057A, 0x10597);
   (0x1057C, 0x1058A, 0x105A3); (0x1058C, 0x10592, 0x105B3);
   (0x10594, 0x10595, 0x105BB); (0x10C80, 0x10CB2, 0x10CC0);
   (0x118A0, 0x118BF, 0x118C0); (0x16E40, 0x16E5F, 0x16E60);
   (0x1E900, 0x1E921, 0x1E922)]%N.

(** Upper and lower case alternate in [lo .. hi]: the code points at an
    even distance from [lo] map to their successor. *)
Definition lowerPairs : list (N * N) :=
  [(0x100, 0x12E); (0x132, 0x136); (0x139, 0x147); (0x14A, 0x176);
   (0x179, 0x17D); (0x182, 0x184); (0x1A0, 0x1A4); (0x1B3, 0x1B5);
   (0x1CB, 0x1DB); (0x1DE, 0x1EE); (0x1F2, 0x1F4); (0x1F8, 0x21E);
   (0x222, 0x232); (0x246, 0x24E); (0x370, 0x372); (0x3D8, 0x3EE);
   (0x460, 0x480); (0x48A, 0x4BE); (0x4C1, 0x4CD); (0x4D0, 0x52E);
   (0x1E00, 0x1E94); (0x1EA0, 0x1EFE); (0x2C67, 0x2C6B); (0x2C80, 0x2CE2);
   (0x2CEB, 0x2CED); (0xA640, 0xA66C); (0xA680, 0xA69A); (0xA722, 0xA72E);
   (0xA732, 0xA76E); (0xA779, 0xA77B); (0xA77E, 0xA786); (0xA790, 0xA792);
   (0xA796, 0xA7A8); (0xA7B4, 0xA7C2); (0xA7C7, 0xA7C9); (0xA7D6, 0xA7D8)]%N.

(** The code points with the property [Cased]. *)
Definition casedRanges : list (N * N) :=
  [(0x41, 0x5A); (0x61, 0x7A); (0xAA, 0xAA); (0xB5, 0xB5); (0xBA, 0xBA);
   (0xC0, 0xD6); (0xD8, 0xF6); (0xF8, 0x1BA); (0x1BC, 0x1BF); (0x1C4, 0x293);
   (0x295, 0x2B8); (0x2C0, 0x2C1); (0x2E0, 0x2E4); (0x345, 0x345);
   (0x370, 0x373); (0x376, 0x377); (0x37A, 0x37D); (0x37F, 0x37F);
   (0x386, 0x386); (0x388, 0x38A); (0x38C, 0x38C); (0x38E, 0x3A1);
   (0x3A3, 0x3F5); (0x3F7, 0x481); (0x48A, 0x52F); (0x531, 0x556);
   (0x560, 0x588); (0x10A0, 0x10C5); (0x10C7, 0x10C7); (0x10CD, 0x10CD);
   (0x10D0, 0x10FA); (0x10FD, 0x10FF); (0x13A0, 0x13F5); (0x13F8, 0x13FD);
   (0x1C80, 0x1C88); (0x1C90, 0x1CBA); (0x1CBD, 0x1CBF); (0x1D00, 0x1DBF);
   (0x1E00, 0x1F15); (0x1F18, 0x1F1D); (0x1F20, 0x1F45); (0x1F48, 0x1F4D);
   (0x1F50, 0x1F57); (0x1F59, 0x1F59); (0x1F5B, 0x1F5B); (0x1F5D, 0x1F5D);
   (0x1F5F, 0x1F7D); (0x1F80, 0x1FB4); (0x1FB6, 0x1FBC); (0x1FBE, 0x1FBE);
   (0x1FC2, 0x1FC4); (0x1FC6, 0x1FCC); (0x1FD0, 0x1FD3); (0x1FD6, 0x1FDB);
   (0x1FE0, 0x1FEC); (0x1FF2, 0x1FF4); (0x1FF6, 0x1FFC); (0x2071, 0x2071);
   (0x207F, 0x207F); (0x2090, 0x209C); (0x2102, 0x2102); (0x2107, 0x2107);
   (0x210A, 0x2113); (0x2115, 0x2115); (0x2119, 0x211D); (0x2124, 0x2124);
   (0x2126, 0x2126); (0x2128, 0x2128); (0x212A, 0x212D); (0x212F, 0x2134);
   (0x2139, 0x2139); (0x213C, 0x213F); (0x2145, 0x2149); (0x214E, 0x214E);
   (0x2160, 0x217F); (0x2183, 0x2184); (0x24B6, 0x24E9); (0x2C00, 0x2CE4);
   (0x2CEB, 0x2CEE); (0x2CF2, 0x2CF3); (0x2D00, 0x2D25); (0x2D27, 0x2D27);
   (0x2D2D, 0x2D2D); (0xA640, 0xA66D); (0xA680, 0xA69D); (0xA722, 0xA787);
   (0xA78B, 0xA78E); (0xA790, 0xA7CA); (0xA7D0, 0xA7D1); (0xA7D3, 0xA7D3);
   (0xA7D5, 0xA7D9); (0xA7F5, 0xA7F6); (0xA7F8, 0xA7FA); (0xAB30, 0xAB5A);
   (0xAB5C, 0xAB68); (0xAB70, 0xABBF); (0xFB00, 0xFB06); (0xFB13, 0xFB17);
   (0xFF21, 0xFF3A); (0xFF41, 0xFF5A); (0x10400, 0x1044F);
   (0x104B0, 0x104D3); (0x104D8, 0x104FB); (0x10570, 0x1057A);
   (0x1057C, 0x1058A); (0x1058C, 0x10592); (0x10594, 0x10595);
   (0x10597, 0x105A1); (0x105A3, 0x105B1); (0x105B3, 0x105B9);
   (0x105BB, 0x105BC); (0x10780, 0x10780); (0x10783, 0x10785);
   (0x10787, 0x107B0); (0x107B2, 0x107BA); (0x10C80, 0x10CB2);
   (0x10CC0, 0x10CF2); (0x118A0, 0x118DF); (0x16E40, 0x16E7F);
   (0x1D400, 0x1D454); (0x1D456, 0x1D49C); (0x1D49E, 0x1D49F);
   (0x1D4A2, 0x1D4A2); (0x1D4A5, 0x1D4A6); (0x1D4A9, 0x1D4AC);
   (0x1D4AE, 0x1D4B9); (0x1D4BB, 0x1D4BB); (0x1D4BD, 0x1D4C3);
   (0x1D4C5, 0x1D505); (0x1D507, 0x1D50A); (0x1D50D, 0x1D514);
   (0x1D516, 0x1D51C); (0x1D51E, 0x1D539); (0x1D53B, 0x1D53E);
   (0x1D540, 0x1D544); (0x1D546, 0x1D546); (0x1D54A, 0x1D550);
   (0x1D552, 0x1D6A5); (0x1D6A8, 0x1D6C0); (0x1D6C2, 0x1D6DA);
   (0x1D6DC, 0x1D6FA); (0x1D6FC, 0x1D714); (0x1D716, 0x1D734);
   (0x1D736, 0x1D74E); (0x1D750, 0x1D76E); (0x1D770, 0x1D788);
   (0x1D78A, 0x1D7A8); (0x1D7AA, 0x1D7C2); (0x1D7C4, 0x1D7CB);
   (0x1DF00, 0x1DF09); (0x1DF0B, 0x1DF1E); (0x1E900, 0x1E943);
   (0x1F130, 0x1F149); (0x1F150, 0x1F169); (0x1F170, 0x1F189)]%N.

(** The code points with the property [Case_Ignorable]. *)
Definition caseIgnorableRanges : list (N * N) :=
  [(0x27, 0x27); (0x2E, 0x2E); (0x3A, 0x3A); (0x5E, 0x5E); (0x60, 0x60);
   (0xA8, 0xA8); (0xAD, 0xAD); (0xAF, 0xAF); (0xB4, 0xB4); (0xB7, 0xB8);
   (0x2B0, 0x36F); (0x374, 0x375); (0x37A, 0x37A); (0x384, 0x385);
   (0x387, 0x387); (0x483, 0x489); (0x559, 0x559); (0x55F, 0x55F);
   (0x591, 0x5BD); (0x5BF, 0x5BF); (0x5C1, 0x5C2); (0x5C4, 0x5C5);
   (0x5C7, 0x5C7); (0x5F4, 0x5F4); (0x600, 0x605); (0x610, 0x61A);
   (0x61C, 0x61C); (0x640, 0x640); (0x64B, 0x65F); (0x670, 0x670);
   (0x6D6, 0x6DD); (0x6DF, 0x6E8); (0x6EA, 0x6ED); (0x70F, 0x70F);
   (0x711, 0x711); (0x730, 0x74A); (0x7A6, 0x7B0); (0x7EB, 0x7F5);
   (0x7FA, 0x7FA); (0x7FD, 0x7FD); (0x816, 0x82D); (0x859, 0x85B);
   (0x888, 0x888); (0x890, 0x891); (0x898, 0x89F); (0x8C9, 0x902);
   (0x93A, 0x93A); (0x93C, 0x93C); (0x941, 0x948); (0x94D, 0x94D);
   (0x951, 0x957); (0x962, 0x963); (0x971, 0x971); (0x981, 0x981);
   (0x9BC, 0x9BC); (0x9C1, 0x9C4); (0x9CD, 0x9CD); (0x9E2, 0x9E3);
   (0x9FE, 0x9FE); (0xA01, 0xA02); (0xA3C, 0xA3C); (0xA41, 0xA42);
   (0xA47, 0xA48); (0xA4B, 0xA4D); (0xA51, 0xA51); (0xA70, 0xA71);
   (0xA75, 0xA75); (0xA81, 0xA82); (0xABC, 0xABC); (0xAC1, 0xAC5);
   (0xAC7, 0xAC8); (0xACD, 0xACD); (0xAE2, 0xAE3); (0xAFA, 0xAFF);
   (0xB01, 0xB01); (0xB3C, 0xB3C); (0xB3F, 0xB3F); (0xB41, 0xB44);
   (0xB4D, 0xB4D); (0xB55, 0xB56); (0xB62, 0xB63); (0xB82, 0xB82);
   (0xBC0, 0xBC0); (0xBCD, 0xBCD); (0xC00, 0xC00); (0xC04, 0xC04);
   (0xC3C, 0xC3C); (0xC3E, 0xC40); (0xC46, 0xC48); (0xC4A, 0xC4D);
   (0xC55, 0xC56); (0xC62, 0xC63); (0xC81, 0xC81); (0xCBC, 0xCBC);
   (0xCBF, 0xCBF); (0xCC6, 0xCC6); (0xCCC, 0xCCD); (0xCE2, 0xCE3);
   (0xD00, 0xD01); (0xD3B, 0xD3C); (0xD41, 0xD44); (0xD4D, 0xD4D);
   (0xD62, 0xD63); (0xD81, 0xD81); (0xDCA, 0xDCA); (0xDD2, 0xDD4);
   (0xDD6, 0xDD6); (0xE31, 0xE31); (0xE34, 0xE3A); (0xE46, 0xE4E);
   (0xEB1, 0xEB1); (0xEB4, 0xEBC); (0xEC6, 0xEC6); (0xEC8, 0xECD);
   (0xF18, 0xF19); (0xF35, 0xF35); (0xF37, 0xF37); (0xF39, 0xF39);
   (0xF71, 0xF7E); (0xF80, 0xF84); (0xF86, 0xF87); (0xF8D, 0xF97);
   (0xF99, 0xFBC); (0xFC6, 0xFC6); (0x102D, 0x1030); (0x1032, 0x1037);
   (0x1039, 0x103A); (0x103D, 0x103E); (0x1058, 0x1059); (0x105E, 0x1060);
   (0x1071, 0x1074); (0x1082, 0x1082); (0x1085, 0x1086); (0x108D, 0x108D);
   (0x109D, 0x109D); (0x10FC, 0x10FC); (0x135D, 0x135F); (0x1712, 0x1714);
   (0x1732, 0x1733); (0x1752, 0x1753); (0x1772, 0x1773); (0x17B4, 0x17B5);
   (0x17B7, 0x17BD); (0x17C6, 0x17C6); (0x17C9, 0x17D3); (0x17D7, 0x17D7);
   (0x17DD, 0x17DD); (0x180B, 0x180F); (0x1843, 0x1843); (0x1885, 0x1886);
   (0x18A9, 0x18A9); (0x1920, 0x1922); (0x1927, 0x1928); (0x1932, 0x1932);
   (0x1939, 0x193B); (0x1A17, 0x1A18); (0x1A1B, 0x1A1B); (0x1A56, 0x1A56);
   (0x1A58, 0x1A5E); (0x1A60, 0x1A60); (0x1A62, 0x1A62); (0x1A65, 0x1A6C);
   (0x1A73, 0x1A7C); (0x1A7F, 0x1A7F); (0x1AA7, 0x1AA7); (0x1AB0, 0x1ACE);
   (0x1B00, 0x1B03); (0x1B34, 0x1B34); (0x1B36, 0x1B3A); (0x1B3C, 0x1B3C);
   (0x1B42, 0x1B42); (0x1B6B, 0x1B73); (0x1B80, 0x1B81); (0x1BA2, 0x1BA5);
   (0x1BA8, 0x1BA9); (0x1BAB, 0x1BAD); (0x1BE6, 0x1BE6); (0x1BE8, 0x1BE9);
   (0x1BED, 0x1BED); (0x1BEF, 0x1BF1); (0x1C2C, 0x1C33); (0x1C36, 0x1C37);
   (0x1C78, 0x1C7D); (0x1CD0, 0x1CD2); (0x1CD4, 0x1CE0); (0x1CE2, 0x1CE8);
   (0x1CED, 0x1CED); (0x1CF4, 0x1CF4); (0x1CF8, 0x1CF9); (0x1D2C, 0x1D6A);
   (0x1D78, 0x1D78); (0x1D9B, 0x1DFF); (0x1FBD, 0x1FBD); (0x1FBF, 0x1FC1);
   (0x1FCD, 0x1FCF); (0x1FDD, 0x1FDF); (0x1FED, 0x1FEF); (0x1FFD, 0x1FFE);
   (0x200B, 0x200F); (0x2018, 0x2019); (0x2024, 0x2024); (0x2027, 0x2027);
   (0x202A, 0x202E); (0x2060, 0x2064); (0x2066, 0x206F); (0x2071, 0x2071);
   (0x207F, 0x207F); (0x2090, 0x209C); (0x20D0, 0x20F0); (0x2C7C, 0x2C7D);
   (0x2CEF, 0x2CF1); (0x2D6F, 0x2D6F); (0x2D7F, 0x2D7F); (0x2DE0, 0x2DFF);
   (0x2E2F, 0x2E2F); (0x3005, 0x3005); (0x302A, 0x302D); (0x3031, 0x3035);
   (0x303B, 0x303B); (0x3099, 0x309E); (0x30FC, 0x30FE); (0xA015, 0xA015);
   (0xA4F8, 0xA4FD); (0xA60C, 0xA60C); (0xA66F, 0xA672); (0xA674, 0xA67D);
   (0xA67F, 0xA67F); (0xA69C, 0xA69F); (0xA6F0, 0xA6F1); (0xA700, 0xA721);
   (0xA770, 0xA770); (0xA788, 0xA78A); (0xA7F2, 0xA7F4); (0xA7F8, 0xA7F9);
   (0xA802, 0xA802); (0xA806, 0xA806); (0xA80B, 0xA80B); (0xA825, 0xA826);
   (0xA82C, 0xA82C); (0xA8C4, 0xA8C5); (0xA8E0, 0xA8F1); (0xA8FF, 0xA8FF);
   (0xA926, 0xA92D); (0xA947, 0xA951); (0xA980, 0xA982); (0xA9B3, 0xA9B3);
   (0xA9B6, 0xA9B9); (0xA9BC, 0xA9BD); (0xA9CF, 0xA9CF); (0xA9E5, 0xA9E6);
   (0xAA29, 0xAA2E); (0xAA31, 0xAA32); (0xAA35, 0xAA36); (0xAA43, 0xAA43);
   (0xAA4C, 0xAA4C); (0xAA70, 0xAA70); (0xAA7C, 0xAA7C); (0xAAB0, 0xAAB0);
   (0xAAB2, 0xAAB4); (0xAAB7, 0xAAB8); (0xAABE, 0xAABF); (0xAAC1, 0xAAC1);
   (0xAADD, 0xAADD); (0xAAEC, 0xAAED); (0xAAF3, 0xAAF4); (0xAAF6, 0xAAF6);
   (0xAB5B, 0xAB5F); (0xAB69, 0xAB6B); (0xABE5, 0xABE5); (0xABE8, 0xABE8);
   (0xABED, 0xABED); (0xFB1E, 0xFB1E); (0xFBB2, 0xFBC2); (0xFE00, 0xFE0F);
   (0xFE13, 0xFE13); (0xFE20, 0xFE2F); (0xFE52, 0xFE52); (0xFE55, 0xFE55);
   (0xFEFF, 0xFEFF); (0xFF07, 0xFF07); (0xFF0E, 0xFF0E); (0xFF1A, 0xFF1A);
   (0xFF3E, 0xFF3E); (0xFF40, 0xFF40); (0xFF70, 0xFF70); (0xFF9E, 0xFF9F);
   (0xFFE3, 0xFFE3); (0xFFF9, 0xFFFB); (0x101FD, 0x101FD);
   (0x102E0, 0x102E0); (0x10376, 0x1037A); (0x10780, 0x10785);
   (0x10787, 0x107B0); (0x107B2, 0x107BA); (0x10A01, 0x10A03);
   (0x10A05, 0x10A06); (0x10A0C, 0x10A0F); (0x10A38, 0x10A3A);
   (0x10A3F, 0x10A3F); (0x10AE5, 0x10AE6); (0x10D24, 0x10D27);
   (0x10EAB, 0x10EAC); (0x10F46, 0x10F50); (0x10F82, 0x10F85);
   (0x11001, 0x11001); (0x11038, 0x11046); (0x11070, 0x11070);
   (0x11073, 0x11074); (0x1107F, 0x11081); (0x110B3, 0x110B6);
   (0x110B9, 0x110BA); (0x110BD, 0x110BD); (0x110C2, 0x110C2);
   (0x110CD, 0x110CD); (0x11100, 0x11102); (0x11127, 0x1112B);
   (0x1112D, 0x11134); (0x11173, 0x11173); (0x11180, 0x11181);
   (0x111B6, 0x111BE); (0x111C9, 0x111CC); (0x111CF, 0x111CF);
   (0x1122F, 0x11231); (0x11234, 0x11234); (0x11236, 0x11237);
   (0x1123E, 0x1123E); (0x112DF, 0x112DF); (0x112E3, 0x112EA);
   (0x11300, 0x11301); (0x1133B, 0x1133C); (0x11340, 0x11340);
   (0x11366, 0x1136C); (0x11370, 0x11374); (0x11438, 0x1143F);
   (0x11442, 0x11444); (0x11446, 0x11446); (0x1145E, 0x1145E);
   (0x114B3, 0x114B8); (0x114BA, 0x114BA); (0x114BF, 0x114C0);
   (0x114C2, 0x114C3); (0x115B2, 0x115B5); (0x115BC, 0x115BD);
   (0x115BF, 0x115C0); (0x115DC, 0x115DD); (0x11633, 0x1163A);
   (0x1163D, 0x1163D); (0x1163F, 0x11640); (0x116AB, 0x116AB);
   (0x116AD, 0x116AD); (0x116B0, 0x116B5); (0x116B7, 0x116B7);
   (0x1171D, 0x1171F); (0x11722, 0x11725); (0x11727, 0x1172B);
   (0x1182F, 0x11837); (0x11839, 0x1183A); (0x1193B, 0x1193C);
   (0x1193E, 0x1193E); (0x11943, 0x11943); (0x119D4, 0x119D7);
   (0x119DA, 0x119DB); (0x119E0, 0x119E0); (0x11A01, 0x11A0A);
   (0x11A33, 0x11A38); (0x11A3B, 0x11A3E); (0x11A47, 0x11A47);
   (0x11A51, 0x11A56); (0x11A59, 0x11A5B); (0x11A8A, 0x11A96);
   (0x11A98, 0x11A99); (0x11C30, 0x11C36); (0x11C38, 0x11C3D);
   (0x11C3F, 0x11C3F); (0x11C92, 0x11CA7); (0x11CAA, 0x11CB0);
   (0x11CB2, 0x11CB3); (0x11CB5, 0x11CB6); (0x11D31, 0x11D36);
   (0x11D3A, 0x11D3A); (0x11D3C, 0x11D3D); (0x11D3F, 0x11D45);
   (0x11D47, 0x11D47); (0x11D90, 0x11D91); (0x11D95, 0x11D95);
   (0x11D97, 0x11D97); (0x11EF3, 0x11EF4); (0x13430, 0x13438);
   (0x16AF0, 0x16AF4); (0x16B30, 0x16B36); (0x16B40, 0x16B43);
   (0x16F4F, 0x16F4F); (0x16F8F, 0x16F9F); (0x16FE0, 0x16FE1);
   (0x16FE3, 0x16FE4); (0x1AFF0, 0x1AFF3); (0x1AFF5, 0x1AFFB);
   (0x1AFFD, 0x1AFFE); (0x1BC9D, 0x1BC9E); (0x1BCA0, 0x1BCA3);
   (0x1CF00, 0x1CF2D); (0x1CF30, 0x1CF46); (0x1D167, 0x1D169);
   (0x1D173, 0x1D182); (0x1D185, 0x1D18B); (0x1D1AA, 0x1D1AD);
   (0x1D242, 0x1D244); (0x1DA00, 0x1DA36); (0x1DA3B, 0x1DA6C);
   (0x1DA75, 0x1DA75); (0x1DA84, 0x1DA84); (0x1DA9B, 0x1DA9F);
   (0x1DAA1, 0x1DAAF); (0x1E000, 0x1E006); (0x1E008, 0x1E018);
   (0x1E01B, 0x1E021); (0x1E023, 0x1E024); (0x1E026, 0x1E02A);
   (0x1E130, 0x1E13D); (0x1E2AE, 0x1E2AE); (0x1E2EC, 0x1E2EF);
   (0x1E8D0, 0x1E8D6); (0x1E944, 0x1E94B); (0x1F3FB, 0x1F3FF);
   (0xE0001, 0xE0001); (0xE0020, 0xE007F); (0xE0100, 0xE01EF)]%N.

Definition inRanges (c : N) (ranges : list (N * N)) : bool :=
  existsb (fun r => (fst r <=? c) && (c <=? snd r))%N ranges.

Definition cased (c : N) : bool := inRanges c casedRanges.

Definition caseIgnorable (c : N) : bool := inRanges c caseIgnorableRanges.

(** The lowercase mapping of one code point, context apart. *)
Definition simpleLower (c : N) : N :=
  match List.find (fun r => (fst (fst r) <=? c) && (c <=? snd (fst r)))%N
                  lowerShift with
  | Some r => (snd r + (c - fst (fst r)))%N
  | None =>
      if existsb (fun r => (fst r <=? c) && (c <=? snd r)
                           && N.even (c - fst r))%N lowerPairs
      then (c + 1)%N else c
  end.

(** Whether the first code point of [l] that is not case-ignorable is a
    cased letter. *)
Fixpoint casedNext (l : list N) : bool :=
  match l with
  | [] => false
  | c :: r => if caseIgnorable c then casedNext r else cased c
  end.

(** The condition [Final_Sigma]: [before] holds the preceding code
    points, the nearest first. *)
Definition finalSigma (before after : list N) : bool :=
  casedNext before && negb (casedNext after).

(** The default case conversion: the capital sigma depends on its
    context, the capital I with a dot becomes two code points, every
    other code point has one image. *)
Fixpoint lowerFrom (before l : list N) : list N :=
  match l with
  | [] => []
  | c :: after =>
      (if (c =? 0x3A3)%N then
         [if finalSigma before after then 0x3C2 else 0x3C3]%N
       else if (c =? 0x130)%N then [0x69; 0x307]%N
       else [simpleLower c])
      ++ lowerFrom (c :: before) after
  end.

(** [s.toLowerCase()] *)
Definition toLowerCase (s : string) : string :=
  fromCodePoints (lowerFrom [] (codePoints s)).

(** [s.startsWith(p)] *)
Fixpoint startsWith (p s : string) : bool :=
  match p, s with
  | EmptyString, _ => true
  | String _ _, EmptyString => false
  | String a p', String b s' => Ascii.eqb a b && startsWith p' s'
  end.

(** [s.includes(t)] *)
Fixpoint includes (s t : string) : bool :=
  startsWith t s ||
  match s with
  | EmptyString => false
  | String _ r => includes r t
  end.

(** [s.split(' ')]: the accumulator [cur] holds the token being read. *)
Fixpoint splitAux (cur : string) (s : string) : list string :=
  match s with
  | EmptyString => [cur]
  | String c r =>
      if Ascii.eqb c " "%char then cur :: splitAux EmptyString r
      else splitAux (cur ++ String c EmptyString)%string r
  end.

Definition split (s : string) : list string := splitAux EmptyString s.

(** [arr.join(sep)] on strings *)
Fixpoint join (sep : string) (l : list string) : string :=
  match l with
  | [] => EmptyString
  | [x] => x
  | x :: r => (x ++ sep ++ join sep r)%string
  end.

End Str.

(** ** JavaScript values and outcomes *)

(** The payloads the agent stores: strings, plain objects, [null] and
    [undefined]. *)
#[warnings="-register-all"]
Inductive JsValue : Type :=
| JsUndefined
| JsNull
| JsStr (s : string)
| JsObj (props : list (string * JsValue)).

Inductive JsError : Type :=
| TypeError (msg : string)
| SyntaxError (msg : string).

Inductive JsResult (A : Type) : Type :=
| Ok (a : A)
| Throw (e : JsError).
Arguments Ok {A} a.
Arguments Throw {A} e.

Definition isThrow {A} (r : JsResult A) : bool :=
  match r with Ok _ => false | Throw _ => true end.

(** [String(v)] as [Array.prototype.join] applies it to an element. *)
Definition joinString (v : JsValue) : string :=
  match v with
  | JsUndefined | JsNull => ""
  | JsStr s => s
  | JsObj _ => "[object Object]"
  end.

(** [a === b] for the values that reach [Array.prototype.includes] here:
    two object payloads are never the same reference. *)
Definition sameValue (a b : JsValue) : bool :=
  match a, b with
  | JsUndefined, JsUndefined => true
  | JsNull, JsNull => true
  | JsStr s, JsStr t => String.eqb s t
  | _, _ => false
  end.

(** ** Insertion-ordered maps ([Map]) *)

Module JsMap.

Definition t (V : Type) : Type := list (string * V).

Fixpoint get {V} (k : string) (m : t V) : option V :=
  match m with
  | [] => None
  | (k', v) :: r => if String.eqb k k' then Some v else get k r
  end.

Definition has {V} (k : string) (m : t V) : bool :=
  match get k m with Some _ => true | None => false end.

(** [m.set(k, v)]: an existing key keeps its position, a new key goes
    last. *)
Fixpoint set {V} (k : string) (v : V) (m : t V) : t V :=
  match m with
  | [] => [(k, v)]
  | (k', v') :: r =>
      if String.eqb k k' then (k, v) :: r else (k', v') :: set k v r
  end.

(** [m.delete(k)]: whatever is stored under [k] goes. *)
Definition delete {V} (k : string) (m : t V) : t V :=
  filter (fun e => negb (String.eqb k (fst e))) m.

Definition size {V} (m : t V) : nat := List.length m.

Definition keys {V} (m : t V) : list string := map fst m.

End JsMap.

(** ** [Array.prototype.sort(cmp)]

    A stable insertion sort: [a] is moved behind [b] exactly when
    [cmp a b > 0].  Every comparator of the source is a difference of
    scores, hence consistent, so the result is the one the language
    prescribes. *)

Fixpoint insertBy {A} (cmp : A -> A -> Q) (x : A) (l : list A) : list A :=
  match l with
  | [] => [x]
  | y :: r => if Qltb 0 (cmp x y) then y :: insertBy cmp x r else x :: y :: r
  end.

Definition sortBy {A} (cmp : A -> A -> Q) (l : list A) : list A :=
  fold_right (insertBy cmp) [] l.

(** [arr.slice(-n)] *)
Definition sliceLast {A} (n : nat) (l : list A) : list A :=
  skipn (List.length l - n) l.

(** [arr.some(p)] *)
Definition some {A} (p : A -> bool) (l : list A) : bool := existsb p l.

(** ** class Memory *)

Module Memory.

(** An element of [this.shortTerm]. *)
Record ShortItem : Type := mkShort {
  s_content : JsValue;
  s_timestamp : Z;
  s_importance : Q;
  s_id : string
}.

(** A value of [this.longTerm]. *)
Record LongItem : Type := mkLong {
  content : JsValue;
  importance : Q;
  timestamp : Z;
  accessCount : nat;
  lastAccess : Z;
  consolidated : bool
}.

Record Context : Type := mkContext {
  recentMemories : list ShortItem;
  c_timestamp : Z;
  activeTopics : list string
}.

Record Emotions : Type := mkEmotions {
  happy : nat; sad : nat; angry : nat; surprised : nat
}.

(** An element of [this.episodic]. *)
Record Episode : Type := mkEpisode {
  event : JsValue;
  e_timestamp : Z;
  context : Context;
  emotions : Emotions;
  e_importance : Q;
  e_id : string
}.

(** The argument of the constructor; an absent field is [None]. *)
Record Config : Type := mkConfig {
  cfg_shortTermCapacity : option nat;
  cfg_longTermCapacity : option nat;
  cfg_episodicCapacity : option nat
}.

Record t : Type := mkMemory {
  shortTermCapacity : nat;
  longTermCapacity : nat;
  episodicCapacity : nat;
  shortTerm : list ShortItem;
  longTerm : JsMap.t LongItem;
  episodic : list Episode;
  memoryWeights : JsMap.t Q;
  accessCounts : JsMap.t nat;
  lastAccesses : JsMap.t Z;
  decayRate : Q;
  consolidationThreshold : nat
}.

(** [x || d] on a capacity: [undefined] and [0] are falsy. *)
Definition orDefault (x : option nat) (d : nat) : nat :=
  match x with
  | Some (S n) => S n
  | Some O | None => d
  end.

(** [constructor(config = {})] *)
Definition new (config : Config) : t :=
  {| shortTermCapacity := orDefault (cfg_shortTermCapacity config) 10;
     longTermCapacity := orDefault (cfg_longTermCapacity config) 1000;
     episodicCapacity := orDefault (cfg_episodicCapacity config) 500;
     shortTerm := [];
     longTerm := [];
     episodic := [];
     memoryWeights := [];
     accessCounts := [];
     lastAccesses := [];
     decayRate := 1 # 10;
     consolidationThreshold := 5 |}.

Definition importantKeywords : list string :=
  ["quan trọng"; "cần nhớ"; "important"; "remember"; "critical"].

Definition emotionalWords : list string :=
  ["yêu"; "ghét"; "tuyệt vời"; "tệ hại"; "love"; "hate"].

(** [calculateImportance(content)] *)
Definition calculateImportance (c : JsValue) : Q :=
  let importance := 1 # 2 in
  let importance :=
    match c with
    | JsStr s =>
        let lower := Str.toLowerCase s in
        let importance :=
          if some (fun keyword => Str.includes lower keyword) importantKeywords
          then importance + (3 # 10) else importance in
        let importance :=
          if (100 <? Str.length s)%nat
          then importance + (1 # 10) else importance in
        if some (fun word => Str.includes lower word) emotionalWords
        then importance + (2 # 10) else importance
    | _ => importance
    end in
  Qmin importance 1.

(** [calculateRelevance(query, content)] *)
Definition calculateRelevance (query c : JsValue) : Q :=
  match query, c with
  | JsStr q, JsStr s =>
      let queryTokens := Str.split (Str.toLowerCase q) in
      let contentTokens := Str.split (Str.toLowerCase s) in
      let matches :=
        List.length
          (filter (fun token =>
                     some (fun cToken => Str.includes cToken token
                                         || Str.includes token cToken)
                          contentTokens)
                  queryTokens) in
      let totalTokens := List.length queryTokens in
      let similarity :=
        inject_Z (Z.of_nat matches) / inject_Z (Z.of_nat totalTokens) in
      if Str.includes (Str.toLowerCase s) (Str.toLowerCase q)
      then Qmin (similarity + (1 # 2)) 1
      else similarity
  | _, _ => 0
  end.

Definition topicKeywords : list (string * list string) :=
  [("technology", ["công nghệ"; "ai"; "robot"; "computer"; "technology"]);
   ("health", ["sức khỏe"; "bệnh"; "thuốc"; "health"; "medicine"]);
   ("education", ["học"; "giáo dục"; "trường"; "education"; "school"]);
   ("entertainment", ["phim"; "nhạc"; "game"; "movie"; "music"])].

(** [getActiveTopics()] *)
Definition getActiveTopics (m : t) : list string :=
  let recentContent :=
    Str.join " " (map (fun item => joinString (s_content item))
                      (sliceLast 5 (shortTerm m))) in
  let lower := Str.toLowerCase recentContent in
  map fst
      (filter (fun tk => some (fun keyword => Str.includes lower keyword) (snd tk))
              topicKeywords).

(** [getCurrentContext()] *)
Definition getCurrentContext (now : Z) (m : t) : Context :=
  {| recentMemories := sliceLast 3 (shortTerm m);
     c_timestamp := now;
     activeTopics := getActiveTopics m |}.

Definition happyWords : list string :=
  ["vui"; "hạnh phúc"; "vui vẻ"; "happy"; "joy"; "excited"].
Definition sadWords : list string :=
  ["buồn"; "khóc"; "sad"; "cry"; "depressed"].
Definition angryWords : list string :=
  ["tức giận"; "tức"; "angry"; "mad"; "furious"].
Definition surprisedWords : list string :=
  ["ngạc nhiên"; "surprised"; "amazed"; "shocked"].

(** [analyzeEmotionalContext(content)]: [content.toLowerCase()] is called
    on whatever was passed in. *)
Definition analyzeEmotionalContext (c : JsValue) : JsResult Emotions :=
  match c with
  | JsStr s =>
      let lower := Str.toLowerCase s in
      let flag (keywords : list string) : nat :=
        if some (fun keyword => Str.includes lower keyword) keywords
        then 1%nat else 0%nat in
      Ok {| happy := flag happyWords; sad := flag sadWords;
            angry := flag angryWords; surprised := flag surprisedWords |}
  | JsObj _ => Throw (TypeError "content.toLowerCase is not a function")
  | JsNull => Throw (TypeError "Cannot read properties of null")
  | JsUndefined => Throw (TypeError "Cannot read properties of undefined")
  end.

(** The four [delete] calls that forget a long-term key. *)
Definition forget (key : string) (m : t) : t :=
  {| shortTermCapacity := shortTermCapacity m;
     longTermCapacity := longTermCapacity m;
     episodicCapacity := episodicCapacity m;
     shortTerm := shortTerm m;
     longTerm := JsMap.delete key (longTerm m);
     episodic := episodic m;
     memoryWeights := JsMap.delete key (memoryWeights m);
     accessCounts := JsMap.delete key (accessCounts m);
     lastAccesses := JsMap.delete key (lastAccesses m);
     decayRate := decayRate m;
     consolidationThreshold := consolidationThreshold m |}.

Definition withShortTerm (l : list ShortItem) (m : t) : t :=
  {| shortTermCapacity := shortTermCapacity m;
     longTermCapacity := longTermCapacity m;
     episodicCapacity := episodicCapacity m;
     shortTerm := l;
     longTerm := longTerm m;
     episodic := episodic m;
     memoryWeights := memoryWeights m;
     accessCounts := accessCounts m;
     lastAccesses := lastAccesses m;
     decayRate := decayRate m;
     consolidationThreshold := consolidationThreshold m |}.

Definition withLongTerm (l : JsMap.t LongItem) (m : t) : t :=
  {| shortTermCapacity := shortTermCapacity m;
     longTermCapacity := longTermCapacity m;
     episodicCapacity := episodicCapacity m;
     shortTerm := shortTerm m;
     longTerm := l;
     episodic := episodic m;
     memoryWeights := memoryWeights m;
     accessCounts := accessCounts m;
     lastAccesses := lastAccesses m;
     decayRate := decayRate m;
     consolidationThreshold := consolidationThreshold m |}.

Definition withEpisodic (l : list Episode) (m : t) : t :=
  {| shortTermCapacity := shortTermCapacity m;
     longTermCapacity := longTermCapacity m;
     episodicCapacity := episodicCapacity m;
     shortTerm := shortTerm m;
     longTerm := longTerm m;
     episodic := l;
     memoryWeights := memoryWeights m;
     accessCounts := accessCounts m;
     lastAccesses := lastAccesses m;
     decayRate := decayRate m;
     consolidationThreshold := consolidationThreshold m |}.

Definition withWeights (w : JsMap.t Q) (m : t) : t :=
  {| shortTermCapacity := shortTermCapacity m;
     longTermCapacity := longTermCapacity m;
     episodicCapacity := episodicCapacity m;
     shortTerm := shortTerm m;
     longTerm := longTerm m;
     episodic := episodic m;
     memoryWeights := w;
     accessCounts := accessCounts m;
     lastAccesses := lastAccesses m;
     decayRate := decayRate m;
     consolidationThreshold := consolidationThreshold m |}.

Definition withAccess (a : JsMap.t nat) (l : JsMap.t Z) (m : t) : t :=
  {| shortTermCapacity := shortTermCapacity m;
     longTermCapacity := longTermCapacity m;
     episodicCapacity := episodicCapacity m;
     shortTerm := shortTerm m;
     longTerm := longTerm m;
     episodic := episodic m;
     memoryWeights := memoryWeights m;
     accessCounts := a;
     lastAccesses := l;
     decayRate := decayRate m;
     consolidationThreshold := consolidationThreshold m |}.

(** The comparator of [manageLongTermCapacity]. *)
Definition compositeCmp (a b : string * LongItem) : Q :=
  let importanceScore := importance (snd a) - importance (snd b) in
  let accessScore :=
    inject_Z (Z.of_nat (accessCount (snd a)))
    - inject_Z (Z.of_nat (accessCount (snd b))) in
  let timeScore :=
    inject_Z (lastAccess (snd a)) - inject_Z (lastAccess (snd b)) in
  importanceScore + accessScore * (1 # 10) + timeScore * (1 # 1000).

(** [manageLongTermCapacity()] *)
Definition manageLongTermCapacity (m : t) : t :=
  if (JsMap.size (longTerm m) <=? longTermCapacity m)%nat then m
  else
    let itemsByImportance := sortBy compositeCmp (longTerm m) in
    let toRemove :=
      firstn (JsMap.size (longTerm m) - longTermCapacity m) itemsByImportance in
    fold_left (fun m e => forget (fst e) m) toRemove m.

(** [addToLongTerm(key, value, importance = 0.5)] *)
Definition addToLongTerm (now : Z) (key : string) (value : JsValue)
    (imp : Q) (m : t) : string * t :=
  let memoryItem :=
    {| content := value; importance := imp; timestamp := now;
       accessCount := 0; lastAccess := now; consolidated := false |} in
  let m := withLongTerm (JsMap.set key memoryItem (longTerm m)) m in
  let m := withWeights (JsMap.set key imp (memoryWeights m)) m in
  (key, manageLongTermCapacity m).

Definition markConsolidated (i : LongItem) : LongItem :=
  {| content := content i; importance := importance i;
     timestamp := timestamp i; accessCount := accessCount i;
     lastAccess := lastAccess i; consolidated := true |}.

(** [consolidateToLongTerm(shortTermItem)] *)
Definition consolidateToLongTerm (now : Z) (shortTermItem : ShortItem)
    (m : t) : t :=
  let key := ("consolidated_" ++ s_id shortTermItem)%string in
  let m := snd (addToLongTerm now key (s_content shortTermItem)
                              (s_importance shortTermItem) m) in
  match JsMap.get key (longTerm m) with
  | Some i => withLongTerm (JsMap.set key (markConsolidated i) (longTerm m)) m
  | None => m
  end.

(** [addToShortTerm(item)]; [id] is the value of [generateId()]. *)
Definition addToShortTerm (now : Z) (id : string) (item : JsValue)
    (m : t) : string * t :=
  let memoryItem :=
    {| s_content := item; s_timestamp := now;
       s_importance := calculateImportance item; s_id := id |} in
  let pushed := shortTerm m ++ [memoryItem] in
  if (shortTermCapacity m <? List.length pushed)%nat then
    match pushed with
    | removed :: rest =>
        let m := withShortTerm rest m in
        if Qltb (7 # 10) (s_importance removed)
        then (id, consolidateToLongTerm now removed m)
        else (id, m)
    | [] => (id, withShortTerm pushed m)
    end
  else (id, withShortTerm pushed m).

(** [addEpisodicMemory(event)]; the episode literal is evaluated before
    anything is stored, so a throw leaves the memory as it was. *)
Definition addEpisodicMemory (now : Z) (id : string) (ev : JsValue)
    (m : t) : JsResult string * t :=
  let ctx := getCurrentContext now m in
  match analyzeEmotionalContext ev with
  | Throw e => (Throw e, m)
  | Ok emo =>
      let episode :=
        {| event := ev; e_timestamp := now; context := ctx; emotions := emo;
           e_importance := calculateImportance ev; e_id := id |} in
      let pushed := episodic m ++ [episode] in
      if (episodicCapacity m <? List.length pushed)%nat
      then (Ok id, withEpisodic (tl pushed) m)
      else (Ok id, withEpisodic pushed m)
  end.

(** What a search hit was spread from. *)
Inductive Source : Type :=
| FromShort (i : ShortItem)
| FromLong (key : string) (i : LongItem)
| FromEpisodic (e : Episode).

(** A search hit: [{...item, relevance, type}]. *)
Record Recalled : Type := mkRecalled {
  source : Source;
  relevance : Q
}.

Definition r_id (r : Recalled) : string :=
  match source r with
  | FromShort i => s_id i
  | FromLong key _ => key
  | FromEpisodic e => e_id e
  end.

(** [r.content]: an episode has no such property. *)
Definition r_content (r : Recalled) : JsValue :=
  match source r with
  | FromShort i => s_content i
  | FromLong _ i => content i
  | FromEpisodic _ => JsUndefined
  end.

Definition r_importance (r : Recalled) : Q :=
  match source r with
  | FromShort i => s_importance i
  | FromLong _ i => importance i
  | FromEpisodic e => e_importance e
  end.

Definition r_type (r : Recalled) : string :=
  match source r with
  | FromShort _ => "shortterm"
  | FromLong _ _ => "longterm"
  | FromEpisodic _ => "episodic"
  end.

Definition relevant (r : Recalled) : bool := Qltb (1 # 10) (relevance r).

(** [searchShortTerm(query)] *)
Definition searchShortTerm (query : JsValue) (m : t) : list Recalled :=
  filter relevant
    (map (fun item =>
            {| source := FromShort item;
               relevance := calculateRelevance query (s_content item) |})
         (shortTerm m)).

(** [searchLongTerm(query)] *)
Definition searchLongTerm (query : JsValue) (m : t) : list Recalled :=
  flat_map (fun e =>
              let rel := calculateRelevance query (content (snd e)) in
              if Qltb (1 # 10) rel
              then [{| source := FromLong (fst e) (snd e); relevance := rel |}]
              else [])
           (longTerm m).

(** [searchEpisodic(query)] *)
Definition searchEpisodic (query : JsValue) (m : t) : list Recalled :=
  filter relevant
    (map (fun episode =>
            {| source := FromEpisodic episode;
               relevance := calculateRelevance query (event episode) |})
         (episodic m)).

(** [x || 0.5] on a weight: [undefined] and [0] are falsy. *)
Definition weightOrHalf (w : option Q) : Q :=
  match w with
  | Some q => if Qeq_bool q 0 then 1 # 2 else q
  | None => 1 # 2
  end.

(** [updateAccess(id)] *)
Definition updateAccess (now : Z) (id : string) (m : t) : t :=
  let count :=
    match JsMap.get id (accessCounts m) with Some c => c | None => 0%nat end in
  let m := withAccess (JsMap.set id (count + 1)%nat (accessCounts m))
                      (JsMap.set id now (lastAccesses m)) m in
  if (consolidationThreshold m <? count)%nat then
    let currentWeight := weightOrHalf (JsMap.get id (memoryWeights m)) in
    withWeights (JsMap.set id (Qmin (currentWeight + (1 # 10)) 1)
                           (memoryWeights m)) m
  else m.

(** [memoryType === 'all' || memoryType === tier] *)
Definition wants (memoryType tier : string) : bool :=
  String.eqb memoryType "all" || String.eqb memoryType tier.

(** The three [results.push(...)] of [recall]. *)
Definition collect (query : JsValue) (memoryType : string) (m : t)
    : list Recalled :=
  (if wants memoryType "shortterm" then searchShortTerm query m else [])
  ++ (if wants memoryType "longterm" then searchLongTerm query m else [])
  ++ (if wants memoryType "episodic" then searchEpisodic query m else []).

(** [recall(query, memoryType = 'all')] *)
Definition recall (now : Z) (query : JsValue) (memoryType : string)
    (m : t) : list Recalled * t :=
  let results := collect query memoryType m in
  let sorted := sortBy (fun a b => relevance b - relevance a) results in
  (sorted, fold_left (fun m item => updateAccess now (r_id item) m) sorted m).

Definition decayThreshold : Z := 24 * 60 * 60 * 1000.

Definition withImportance (imp : Q) (i : LongItem) : LongItem :=
  {| content := content i; importance := imp;
     timestamp := timestamp i; accessCount := accessCount i;
     lastAccess := lastAccess i; consolidated := consolidated i |}.

(** [now - item.lastAccess > decayThreshold] *)
Definition stale (now : Z) (item : LongItem) : bool :=
  (decayThreshold <? now - lastAccess item)%Z.

(** [item.importance *= Math.exp(-decayRate * (timeSinceAccess / decayThreshold))] *)
Definition decayed (exp : Q -> Q) (now : Z) (rate : Q) (item : LongItem)
    : LongItem :=
  let timeSinceAccess := (now - lastAccess item)%Z in
  let decayFactor :=
    exp (- rate * (inject_Z timeSinceAccess / inject_Z decayThreshold)) in
  withImportance (importance item * decayFactor) item.

(** [item.importance < 0.1 && !item.consolidated] *)
Definition expired (item : LongItem) : bool :=
  Qltb (importance item) (1 # 10) && negb (consolidated item).

(** One turn of the loop of [applyDecay] on the entry [(key, item)]; the
    update of the item in place is a [set] on its own key. *)
Definition decayEntry (exp : Q -> Q) (now : Z) (m : t)
    (e : string * LongItem) : t :=
  let '(key, item) := e in
  if stale now item then
    let item := decayed exp now (decayRate m) item in
    let m := withLongTerm (JsMap.set key item (longTerm m)) m in
    if expired item then forget key m else m
  else m.

(** [applyDecay()]; [exp] is [Math.exp].  Deleting the entry under the
    cursor does not disturb the iteration of a [Map]. *)
Definition applyDecay (exp : Q -> Q) (now : Z) (m : t) : t :=
  fold_left (decayEntry exp now) (longTerm m) m.

End Memory.

(** ** Regular expressions built from rule templates

    A rule pattern such as ["if {A} then {B}"] is turned into a regular
    expression by replacing every match of [/\{([^}]+)\}/g].  The matcher
    below is the regular-expression engine on the expressions so obtained
    from [plain] templates (as those of the five built-in rules), run on
    ASCII text: literal ASCII text without any character of the
    regular-expression syntax, compared case-insensitively, and one group
    per placeholder, over characters other than line terminators.  A
    template outside that fragment is read the same way, as literal
    text. *)

Module Template.

Inductive Seg : Type :=
| Lit (c : ascii)
| Hole (name : string).

Definition lits (s : string) : list Seg := map Lit (list_ascii_of_string s).

(** The matches of [/\{([^}]+)\}/g] in [s], left to right.  [open] is
    [Some name] after a ["{"] that is not closed yet, with the characters
    read since; a ["{"] closed at once or never closed is literal text. *)
Fixpoint scan (open : option string) (s : string) : list Seg :=
  match s with
  | EmptyString =>
      match open with
      | Some name => Lit "{" :: lits name
      | None => []
      end
  | String c r =>
      match open with
      | None =>
          if Ascii.eqb c "{"%char then scan (Some EmptyString) r
          else Lit c :: scan None r
      | Some name =>
          if Ascii.eqb c "}"%char then
            match name with
            | EmptyString => Lit "{" :: Lit "}" :: scan None r
            | _ => Hole name :: scan None r
            end
          else scan (Some (name ++ String c EmptyString)%string) r
      end
  end.

Definition parse (s : string) : list Seg := scan None s.

(** [.] in a regular expression, on an ASCII character: anything but a
    line feed or a carriage return. *)
Definition isDot (c : ascii) : bool :=
  negb (Ascii.eqb c "010"%char || Ascii.eqb c "013"%char).

(** A literal character against a character of the text under the [i]
    flag: the ASCII letters are compared without their case; no other
    character equals an ASCII one. *)
Definition eqCI (a b : ascii) : bool :=
  Ascii.eqb (Str.lowerAscii a) (Str.lowerAscii b).

(** Whether the segments match a prefix of [s] (holes as [(.+)]). *)
Fixpoint matchesPrefix (segs : list Seg) (s : string) : bool :=
  match segs with
  | [] => true
  | Lit c :: rest =>
      match s with
      | String d s' => eqCI c d && matchesPrefix rest s'
      | EmptyString => false
      end
  | Hole _ :: rest =>
      (fix grow (s : string) : bool :=
         match s with
         | EmptyString => false
         | String d s' => isDot d && (matchesPrefix rest s' || grow s')
         end) s
  end.

(** [new RegExp(source, 'i').test(s)] *)
Fixpoint test (segs : list Seg) (s : string) : bool :=
  matchesPrefix segs s ||
  match s with
  | EmptyString => false
  | String _ r => test segs r
  end.

(** The first match of the segments at the start of [s] in backtracking
    order, holes as lazy named groups [(?<name>.+?)]: each group is tried
    with one character, then two, and so on. *)
Fixpoint capturePrefix (segs : list Seg) (s : string)
    : option (list (string * string)) :=
  match segs with
  | [] => Some []
  | Lit c :: rest =>
      match s with
      | String d s' => if eqCI c d then capturePrefix rest s' else None
      | EmptyString => None
      end
  | Hole name :: rest =>
      (fix grow (taken : string) (s : string) : option (list (string * string)) :=
         match s with
         | EmptyString => None
         | String d s' =>
             if isDot d then
               let taken := (taken ++ String d EmptyString)%string in
               match capturePrefix rest s' with
               | Some groups => Some ((name, taken) :: groups)
               | None => grow taken s'
               end
             else None
         end) EmptyString s
  end.

(** [s.match(new RegExp(source, 'i'))]: the leftmost match. *)
Fixpoint exec (segs : list Seg) (s : string)
    : option (list (string * string)) :=
  match capturePrefix segs s with
  | Some groups => Some groups
  | None =>
      match s with
      | EmptyString => None
      | String _ r => exec segs r
      end
  end.

(** [s] without the prefix [p], compared case-insensitively. *)
Fixpoint stripPrefixCI (p s : string) : option string :=
  match p, s with
  | EmptyString, _ => Some s
  | String _ _, EmptyString => None
  | String a p', String b s' => if eqCI a b then stripPrefixCI p' s' else None
  end.

(** Whether [s] starts with one of the two line terminators beyond
    ASCII, the line separator and the paragraph separator. *)
Definition atSeparator (s : string) : bool :=
  Str.startsWith (Str.utf8 0x2028) s || Str.startsWith (Str.utf8 0x2029) s.

(** What a greedy [(.+)] takes of [s]: everything up to the first line
    terminator. *)
Fixpoint takeDots (s : string) : string :=
  match s with
  | EmptyString => EmptyString
  | String c r =>
      if isDot c && negb (atSeparator s) then String c (takeDots r)
      else EmptyString
  end.

(** [s.match(/lit(.+)/i)[1]]: leftmost match, the group greedy. *)
Fixpoint execTail (lit : string) (s : string) : option string :=
  let here :=
    match stripPrefixCI lit s with
    | Some rest =>
        match takeDots rest with
        | EmptyString => None
        | captured => Some captured
        end
    | None => None
    end in
  match here with
  | Some captured => Some captured
  | None =>
      match s with
      | EmptyString => None
      | String _ r => execTail lit r
      end
  end.

Definition holes (segs : list Seg) : list string :=
  flat_map (fun sg => match sg with Hole n => [n] | Lit _ => [] end) segs.

Definition isIdStart (c : ascii) : bool :=
  let n := nat_of_ascii c in
  ((65 <=? n) && (n <=? 90) || (97 <=? n) && (n <=? 122)
   || (n =? 95) || (n =? 36))%nat.

Definition isIdPart (c : ascii) : bool :=
  let n := nat_of_ascii c in
  (isIdStart c || (48 <=? n) && (n <=? 57))%nat.

Fixpoint allChars (p : ascii -> bool) (s : string) : bool :=
  match s with
  | EmptyString => true
  | String c r => p c && allChars p r
  end.

(** A legal group name in [(?<name>...)]. *)
Definition validGroupName (n : string) : bool :=
  match n with
  | EmptyString => false
  | String c r => isIdStart c && allChars isIdPart r
  end.

Fixpoint nodupb (l : list string) : bool :=
  match l with
  | [] => true
  | x :: r => negb (existsb (String.eqb x) r) && nodupb r
  end.

(** The characters that belong to the syntax of regular expressions
    ([SyntaxCharacter] in the grammar of the language). *)
Definition isSyntax (c : ascii) : bool :=
  existsb (Ascii.eqb c) (list_ascii_of_string "^$\.*+?()[]{}|").

(** A plain template: its literal text is ASCII and holds no character
    of the regular-expression syntax, and every placeholder is named by
    an ASCII identifier. *)
Definition plainSeg (sg : Seg) : bool :=
  match sg with
  | Lit c => (N_of_ascii c <? 0x80)%N && negb (isSyntax c)
  | Hole n => validGroupName n
  end.

Definition plain (p : string) : bool := forallb plainSeg (parse p).

End Template.

(** ** [String.prototype.replace] with a string pattern *)

Module Replace.

(** Finds the first occurrence of [pat] in [s]: the text before it and the
    text after it. *)
Fixpoint find (pat : string) (s : string) : option (string * string) :=
  if Str.startsWith pat s
  then Some (EmptyString, substring (String.length pat)
                                   (String.length s - String.length pat) s)
  else match s with
       | EmptyString => None
       | String c r =>
           match find pat r with
           | Some (before, after) => Some (String c before, after)
           | None => None
           end
       end.

(** The replacement text with its [$] patterns expanded; a string pattern
    has no captures, so [$1] and [$<] stay as they are. *)
Fixpoint expand (matched before after : string) (repl : string) : string :=
  match repl with
  | EmptyString => EmptyString
  | String "$" (String "$" r) =>
      String "$" (expand matched before after r)
  | String "$" (String "&" r) =>
      (matched ++ expand matched before after r)%string
  | String "$" (String "`" r) =>
      (before ++ expand matched before after r)%string
  | String "$" (String "'" r) =>
      (after ++ expand matched before after r)%string
  | String c r => String c (expand matched before after r)
  end.

(** [s.replace(pat, repl)] *)
Definition replace (pat repl : string) (s : string) : string :=
  match find pat s with
  | Some (before, after) =>
      (before ++ expand pat before after repl ++ after)%string
  | None => s
  end.

End Replace.

(** ** class ReasoningEngine *)

Module ReasoningEngine.

Record Rule : Type := mkRule {
  pattern : list string;
  conclusion : string;
  confidence : Q;
  name : string;
  createdAt : Z;
  usageCount : nat
}.

(** The argument of [addRule]. *)
Record RuleSpec : Type := mkRuleSpec {
  rs_pattern : list string;
  rs_conclusion : string;
  rs_confidence : Q
}.

Record Fact : Type := mkFact {
  f_content : JsValue;
  f_confidence : Q;
  f_timestamp : Z;
  f_source : string
}.

(** What [applyRule] returns. *)
Record Derived : Type := mkDerived {
  d_content : string;
  d_confidence : Q;
  d_rule : string
}.

(** What a pattern handler returns. *)
Record Conclusion : Type := mkConclusion {
  c_content : JsValue;
  c_confidence : Q
}.

Inductive Step : Type :=
| DirectFact (content : Fact) (conf : Q)
| MemoryRecall (content : JsValue) (relevance : Q) (conf : Q)
| RuleApplication (rule : string) (concl : string) (conf : Q) (depth : nat)
| PatternMatching (source : string) (result : JsValue) (conf : Q)
| AnalogicalReasoning (source : JsValue) (analogy : string) (conf : Q).

(** [reasoningChain] *)
Record Chain : Type := mkChain {
  query : string;
  startTime : Z;
  steps : list Step;
  conclusions : list JsValue;
  chainConfidence : Q;
  endTime : option Z
}.

Record t : Type := mkEngine {
  memory : Memory.t;
  rules : JsMap.t Rule;
  facts : list Fact;
  reasoningHistory : list Chain
}.

Definition withRules (r : JsMap.t Rule) (e : t) : t :=
  {| memory := memory e; rules := r; facts := facts e;
     reasoningHistory := reasoningHistory e |}.

Definition withMemory (m : Memory.t) (e : t) : t :=
  {| memory := m; rules := rules e; facts := facts e;
     reasoningHistory := reasoningHistory e |}.

(** [addRule(name, rule)] *)
Definition addRule (now : Z) (nm : string) (r : RuleSpec) (e : t) : t :=
  withRules
    (JsMap.set nm
       {| pattern := rs_pattern r; conclusion := rs_conclusion r;
          confidence := rs_confidence r; name := nm; createdAt := now;
          usageCount := 0 |}
       (rules e)) e.

(** [initializeBasicRules()] *)
Definition initializeBasicRules (now : Z) (e : t) : t :=
  let e := addRule now "modus_ponens"
    {| rs_pattern := ["if {A} then {B}"; "{A}"];
       rs_conclusion := "{B}"; rs_confidence := 9 # 10 |} e in
  let e := addRule now "modus_tollens"
    {| rs_pattern := ["if {A} then {B}"; "not {B}"];
       rs_conclusion := "not {A}"; rs_confidence := 85 # 100 |} e in
  let e := addRule now "causal_chain"
    {| rs_pattern := ["{A} causes {B}"; "{B} causes {C}"];
       rs_conclusion := "{A} may cause {C}"; rs_confidence := 7 # 10 |} e in
  let e := addRule now "analogy"
    {| rs_pattern := ["{A} is like {B}"; "{A} has property {P}"];
       rs_conclusion := "{B} may have property {P}";
       rs_confidence := 6 # 10 |} e in
  addRule now "temporal_sequence"
    {| rs_pattern := ["{A} happens before {B}"; "{B} is happening"];
       rs_conclusion := "{A} has happened"; rs_confidence := 8 # 10 |} e.

(** [constructor(memory)] *)
Definition new (now : Z) (m : Memory.t) : t :=
  initializeBasicRules now
    {| memory := m; rules := []; facts := []; reasoningHistory := [] |}.

(** Equality of two values, property by property. *)
Fixpoint valueEqb (a b : JsValue) : bool :=
  match a, b with
  | JsUndefined, JsUndefined => true
  | JsNull, JsNull => true
  | JsStr s, JsStr u => String.eqb s u
  | JsObj p, JsObj q =>
      (fix props (p q : list (string * JsValue)) : bool :=
         match p, q with
         | [], [] => true
         | (k, v) :: p', (k', v') :: q' =>
             String.eqb k k' && valueEqb v v' && props p' q'
         | _, _ => false
         end) p q
  | _, _ => false
  end.

(** What [JSON.stringify] keeps of a value: a property whose value is
    [undefined] is left out, at every level. *)
Fixpoint serialised (v : JsValue) : JsValue :=
  match v with
  | JsObj p =>
      JsObj ((fix props (p : list (string * JsValue)) :=
                match p with
                | [] => []
                | (_, JsUndefined) :: r => props r
                | (k, w) :: r => (k, serialised w) :: props r
                end) p)
  | _ => v
  end.

(** Equality of two values after [JSON.stringify]. *)
Definition jsonEqb (a b : JsValue) : bool :=
  valueEqb (serialised a) (serialised b).

Definition factEqb (a b : Fact) : bool :=
  jsonEqb (f_content a) (f_content b)
  && Qeq_bool (f_confidence a) (f_confidence b)
  && Z.eqb (f_timestamp a) (f_timestamp b)
  && String.eqb (f_source a) (f_source b).

(** [addFact(fact, confidence = 1.0)]: the set holds the serialised
    records, so a record equal in all four fields is not added twice. *)
Definition addFact (now : Z) (fact : JsValue) (conf : Q) (e : t) : Fact * t :=
  let factObj :=
    {| f_content := fact; f_confidence := conf; f_timestamp := now;
       f_source := "user_input" |} in
  (factObj,
   if existsb (factEqb factObj) (facts e) then e
   else {| memory := memory e; rules := rules e;
           facts := facts e ++ [factObj];
           reasoningHistory := reasoningHistory e |}).

(** [matchesRule(query, rule)] *)
Definition matchesRule (q : string) (rule : Rule) : bool :=
  some (fun p => Template.test (Template.parse p) q) (pattern rule).

(** [extractVariables(text, pattern)]: [new RegExp] rejects a group name
    that is not an identifier or that occurs twice; [match.groups] is
    [undefined] when the expression has no named group. *)
Definition extractVariables (text : string) (p : string)
    : JsResult (option (list (string * string))) :=
  let segs := Template.parse p in
  let names := Template.holes segs in
  if negb (forallb Template.validGroupName names) then
    Throw (SyntaxError "Invalid capture group name")
  else if negb (Template.nodupb names) then
    Throw (SyntaxError "Duplicate capture group name")
  else
    match Template.exec segs text with
    | Some groups =>
        match names with
        | [] => Ok None
        | _ => Ok (Some groups)
        end
    | None => Ok None
    end.

Definition bumpUsage (r : Rule) : Rule :=
  {| pattern := pattern r; conclusion := conclusion r;
     confidence := confidence r; name := name r; createdAt := createdAt r;
     usageCount := S (usageCount r) |}.

(** [applyRule(input, rule)]: the conclusion and the rule with its
    [usageCount] incremented; [None] is [null].  [rule.pattern[0]] of an
    empty pattern list is [undefined], whose [replace] throws inside the
    [try]. *)
Definition applyRule (input : string) (rule : Rule)
    : option (Derived * Rule) :=
  match pattern rule with
  | [] => None
  | p0 :: _ =>
      match extractVariables input p0 with
      | Ok (Some ((v, x) :: variables)) =>
          let concl :=
            fold_left
              (fun concl vx =>
                 Replace.replace ("{" ++ fst vx ++ "}")%string (snd vx) concl)
              ((v, x) :: variables) (conclusion rule) in
          Some ({| d_content := concl; d_confidence := confidence rule;
                   d_rule := name rule |},
                bumpUsage rule)
      | _ => None
      end
  end.

Definition pushStep (s : Step) (c : Chain) : Chain :=
  {| query := query c; startTime := startTime c;
     steps := steps c ++ [s]; conclusions := conclusions c;
     chainConfidence := chainConfidence c; endTime := endTime c |}.

(** [conclusions.push(v); confidence = conf] *)
Definition conclude (v : JsValue) (conf : Q) (c : Chain) : Chain :=
  {| query := query c; startTime := startTime c;
     steps := steps c; conclusions := conclusions c ++ [v];
     chainConfidence := conf; endTime := endTime c |}.

(** [if (!conclusions.includes(v)) { conclusions.push(v);
     confidence = Math.max(confidence, conf) }] *)
Definition merge (v : JsValue) (conf : Q) (c : Chain) : Chain :=
  if existsb (sameValue v) (conclusions c) then c
  else conclude v (Qmax (chainConfidence c) conf) c.

Section Chaining.

(** The two calls into the regular-expression engine. *)
Variable matchesFn : string -> Rule -> bool.
Variable applyFn : string -> Rule -> option (Derived * Rule).

(** One turn of the loop of [applyRules] on the rule called [ruleName];
    [recurse] is the call at [depth + 1]. *)
Definition tryRule (recurse : string -> JsMap.t Rule * Chain -> JsMap.t Rule * Chain)
    (q : string) (depth : nat) (st : JsMap.t Rule * Chain) (ruleName : string)
    : JsMap.t Rule * Chain :=
  match JsMap.get ruleName (fst st) with
  | None => st
  | Some rule =>
      if matchesFn q rule then
        match applyFn q rule with
        | Some (concl, rule') =>
            let rs := JsMap.set ruleName rule' (fst st) in
            let chain :=
              pushStep (RuleApplication ruleName (d_content concl)
                                        (d_confidence concl) depth) (snd st) in
            let chain :=
              merge (JsStr (d_content concl)) (d_confidence concl) chain in
            recurse (d_content concl) (rs, chain)
        | None => st
        end
      else st
  end.

(** [applyRules] by recursion on [gap = maxDepth - depth]: the guard
    [depth >= maxDepth] is [gap = 0], and the call at [depth + 1] has one
    less. *)
Fixpoint applyRulesGap (gap : nat) (q : string) (depth : nat)
    (st : JsMap.t Rule * Chain) : JsMap.t Rule * Chain :=
  match gap with
  | O => st
  | S gap' =>
      fold_left
        (tryRule (fun q' st' => applyRulesGap gap' q' (S depth) st') q depth)
        (JsMap.keys (fst st)) st
  end.

(** [applyRules(query, reasoningChain, depth, maxDepth)] *)
Definition applyRulesWith (q : string) (chain : Chain) (depth maxDepth : nat)
    (rs : JsMap.t Rule) : JsMap.t Rule * Chain :=
  applyRulesGap (maxDepth - depth) q depth (rs, chain).

End Chaining.

Definition applyRules : string -> Chain -> nat -> nat -> JsMap.t Rule
                        -> JsMap.t Rule * Chain :=
  applyRulesWith matchesRule applyRule.

(** [findRelevantFacts(query)]: [fact.content.toLowerCase()] is called on
    every stored fact. *)
Fixpoint relevantFacts (q : string) (fs : list Fact) : JsResult (list Fact) :=
  match fs with
  | [] => Ok []
  | f :: r =>
      match f_content f with
      | JsStr s =>
          let keep :=
            Str.includes (Str.toLowerCase s) (Str.toLowerCase q)
            || Str.includes (Str.toLowerCase q) (Str.toLowerCase s) in
          match relevantFacts q r with
          | Ok l => Ok (if keep then f :: l else l)
          | Throw e => Throw e
          end
      | _ => Throw (TypeError "fact.content.toLowerCase is not a function")
      end
  end.

Definition findRelevantFacts (q : string) (e : t) : JsResult (list Fact) :=
  match relevantFacts q (facts e) with
  | Ok l => Ok (sortBy (fun a b => f_confidence b - f_confidence a) l)
  | Throw err => Throw err
  end.

(** A value inside a template literal. *)
Definition templateString (v : JsValue) : string :=
  match v with
  | JsUndefined => "undefined"
  | JsNull => "null"
  | JsStr s => s
  | JsObj _ => "[object Object]"
  end.

(** [explainConcept(concept)] *)
Definition explainConcept (now : Z) (concept : string) (m : Memory.t)
    : Conclusion * Memory.t :=
  let (conceptMemories, m) := Memory.recall now (JsStr concept) "all" m in
  match conceptMemories with
  | best :: _ =>
      ({| c_content :=
            JsStr (concept ++ " is " ++ templateString (Memory.r_content best));
          c_confidence := Memory.relevance best |}, m)
  | [] =>
      ({| c_content :=
            JsStr ("I need more information to explain " ++ concept);
          c_confidence := 3 # 10 |}, m)
  end%string.

(** [provideInstructions(task)] *)
Definition provideInstructions (now : Z) (task : string) (m : Memory.t)
    : Conclusion * Memory.t :=
  let (instructionMemories, m) :=
    Memory.recall now (JsStr ("how to " ++ task)) "all" m in
  match instructionMemories with
  | best :: _ =>
      ({| c_content := Memory.r_content best;
          c_confidence := Memory.relevance best |}, m)
  | [] =>
      ({| c_content :=
            JsStr ("To " ++ task
                   ++ ", you might need to break it down into smaller steps");
          c_confidence := 4 # 10 |}, m)
  end%string.

(** [explainReason(statement)] *)
Definition explainReason (now : Z) (statement : string) (m : Memory.t)
    : Conclusion * Memory.t :=
  let (causalMemories, m) :=
    Memory.recall now (JsStr ("because " ++ statement)) "all" m in
  match causalMemories with
  | best :: _ =>
      ({| c_content := Memory.r_content best;
          c_confidence := Memory.relevance best |}, m)
  | [] =>
      ({| c_content :=
            JsStr ("The reason for " ++ statement
                   ++ " might be related to cause and effect");
          c_confidence := 3 # 10 |}, m)
  end%string.

(** [provideTimeInfo(event)] *)
Definition provideTimeInfo (now : Z) (ev : string) (m : Memory.t)
    : Conclusion * Memory.t :=
  let (timeMemories, m) :=
    Memory.recall now (JsStr ("when " ++ ev)) "all" m in
  match timeMemories with
  | best :: _ =>
      ({| c_content := Memory.r_content best;
          c_confidence := Memory.relevance best |}, m)
  | [] =>
      ({| c_content :=
            JsStr ("I don't have specific timing information about " ++ ev);
          c_confidence := 2 # 10 |}, m)
  end%string.

(** The four entries of [patterns]: the literal text before [(.+)], the
    [source] of the expression, and the handler. *)
Definition patterns
    : list (string * string * (Z -> string -> Memory.t -> Conclusion * Memory.t)) :=
  [("what is ", "what is (.+)", explainConcept);
   ("how to ", "how to (.+)", provideInstructions);
   ("why ", "why (.+)", explainReason);
   ("when ", "when (.+)", provideTimeInfo)].

(** [patternMatching(query, reasoningChain)]: the first expression that
    matches runs its handler and ends the loop. *)
Fixpoint runPatterns
    (ps : list (string * string * (Z -> string -> Memory.t -> Conclusion * Memory.t)))
    (now : Z) (q : string) (chain : Chain) (m : Memory.t) : Chain * Memory.t :=
  match ps with
  | [] => (chain, m)
  | (lit, src, handler) :: rest =>
      match Template.execTail lit q with
      | Some captured =>
          let (result, m) := handler now captured m in
          let chain :=
            pushStep (PatternMatching src (c_content result)
                                      (c_confidence result)) chain in
          (merge (c_content result) (c_confidence result) chain, m)
      | None => runPatterns rest now q chain m
      end
  end.

Definition patternMatching : Z -> string -> Chain -> Memory.t -> Chain * Memory.t :=
  runPatterns patterns.

(** [findAnalogy(source, target)] *)
Definition findAnalogy (src : string) (target : JsValue)
    : JsResult (option (string * Q)) :=
  match target with
  | JsStr tgt =>
      let sourceTokens := Str.split (Str.toLowerCase src) in
      let targetTokens := Str.split (Str.toLowerCase tgt) in
      let commonTokens :=
        filter (fun token => existsb (String.eqb token) targetTokens
                             && (3 <? Str.length token)%nat)
               sourceTokens in
      match commonTokens with
      | [] => Ok None
      | _ =>
          Ok (Some (("Similar to: " ++ tgt)%string,
                    inject_Z (Z.of_nat (List.length commonTokens))
                    / inject_Z (Z.of_nat (Nat.max (List.length sourceTokens)
                                                  (List.length targetTokens)))))
      end
  | JsObj _ => Throw (TypeError "target.toLowerCase is not a function")
  | JsNull => Throw (TypeError "Cannot read properties of null")
  | JsUndefined => Throw (TypeError "Cannot read properties of undefined")
  end.

(** [conclusions.some(c => c.includes(text))] *)
Fixpoint someIncludes (text : string) (cs : list JsValue) : JsResult bool :=
  match cs with
  | [] => Ok false
  | JsStr c :: r => if Str.includes c text then Ok true else someIncludes text r
  | JsObj _ :: _ => Throw (TypeError "c.includes is not a function")
  | JsNull :: _ => Throw (TypeError "Cannot read properties of null")
  | JsUndefined :: _ => Throw (TypeError "Cannot read properties of undefined")
  end.

(** The loop of [analogicalReasoning] over [similarMemories]. *)
Fixpoint analogies (q : string) (similarMemories : list Memory.Recalled)
    (chain : Chain) : JsResult Chain :=
  match similarMemories with
  | [] => Ok chain
  | mem :: rest =>
      match findAnalogy q (Memory.r_content mem) with
      | Throw e => Throw e
      | Ok None => analogies q rest chain
      | Ok (Some (text, conf)) =>
          let chain :=
            pushStep (AnalogicalReasoning (Memory.r_content mem) text conf)
                     chain in
          match someIncludes text (conclusions chain) with
          | Throw e => Throw e
          | Ok true => analogies q rest chain
          | Ok false =>
              analogies q rest
                (conclude (JsStr ("Based on analogy: " ++ text)%string)
                          (Qmax (chainConfidence chain) (conf * (7 # 10)))
                          chain)
          end
      end
  end.

(** [analogicalReasoning(query, reasoningChain)] *)
Definition analogicalReasoning (now : Z) (q : string) (chain : Chain)
    (m : Memory.t) : JsResult Chain * Memory.t :=
  let (found, m) := Memory.recall now (JsStr q) "episodic" m in
  let similarMemories :=
    firstn 3 (filter (fun mem => Qltb (1 # 2) (Memory.relevance mem)) found) in
  (analogies q similarMemories chain, m).

Definition finish (now : Z) (c : Chain) : Chain :=
  {| query := query c; startTime := startTime c;
     steps := steps c; conclusions := conclusions c;
     chainConfidence := chainConfidence c; endTime := Some now |}.

(** [reasoningHistory.push(chain)], dropping the oldest beyond 100. *)
Definition remember (c : Chain) (e : t) : t :=
  let pushed := reasoningHistory e ++ [c] in
  {| memory := memory e; rules := rules e; facts := facts e;
     reasoningHistory :=
       if (100 <? List.length pushed)%nat then tl pushed else pushed |}.

(** [reason(query, maxDepth = 3)].  What was mutated before a throw stays
    mutated. *)
Definition reason (now : Z) (q : string) (maxDepth : nat) (e : t)
    : JsResult Chain * t :=
  let chain :=
    {| query := q; startTime := now; steps := []; conclusions := [];
       chainConfidence := 0; endTime := None |} in
  match findRelevantFacts q e with
  | Throw err => (Throw err, e)
  | Ok directFacts =>
      let chain :=
        match directFacts with
        | best :: _ =>
            conclude (f_content best) (f_confidence best)
                     (pushStep (DirectFact best (f_confidence best)) chain)
        | [] => chain
        end in
      let (memoryResults, m) := Memory.recall now (JsStr q) "all" (memory e) in
      let chain :=
        match memoryResults with
        | bestMemory :: _ =>
            let chain :=
              pushStep (MemoryRecall (Memory.r_content bestMemory)
                                     (Memory.relevance bestMemory)
                                     (Memory.r_importance bestMemory)) chain in
            match conclusions chain with
            | [] =>
                conclude (Memory.r_content bestMemory)
                         (Memory.relevance bestMemory
                          * Memory.r_importance bestMemory) chain
            | _ => chain
            end
        | [] => chain
        end in
      let (rs, chain) := applyRules q chain 0 maxDepth (rules e) in
      let (chain, m) := patternMatching now q chain m in
      let (outcome, m) := analogicalReasoning now q chain m in
      let e := withRules rs (withMemory m e) in
      match outcome with
      | Throw err => (Throw err, e)
      | Ok chain =>
          let chain := finish now chain in
          (Ok chain, remember chain e)
      end
  end.

End ReasoningEngine.

(** ** Sequences of public calls on a memory *)

Module Session.

Inductive Op : Type :=
| AddToShortTerm (now : Z) (id : string) (item : JsValue)
| AddToLongTerm (now : Z) (key : string) (value : JsValue) (importance : Q)
| AddEpisodicMemory (now : Z) (id : string) (event : JsValue)
| Recall (now : Z) (query : JsValue) (memoryType : string)
| ApplyDecay (now : Z).

(** One call; a call that throws is caught by the caller, and the memory
    is what the call left behind. *)
Definition step (exp : Q -> Q) (m : Memory.t) (op : Op) : Memory.t :=
  match op with
  | AddToShortTerm now id item => snd (Memory.addToShortTerm now id item m)
  | AddToLongTerm now key value imp =>
      snd (Memory.addToLongTerm now key value imp m)
  | AddEpisodicMemory now id ev => snd (Memory.addEpisodicMemory now id ev m)
  | Recall now q ty => snd (Memory.recall now q ty m)
  | ApplyDecay now => Memory.applyDecay exp now m
  end.

Definition run (exp : Q -> Q) (ops : list Op) (m : Memory.t) : Memory.t :=
  fold_left (step exp) ops m.

(** Repeated [applyDecay()] at the given clock readings, nothing else in
    between. *)
Definition decays (exp : Q -> Q) (times : list Z) (m : Memory.t) : Memory.t :=
  fold_left (fun m now => Memory.applyDecay exp now m) times m.

End Session.

(** ** The relevance score as the specification words it *)

Module Spec.

(** A token of the query counts when some token of the content contains
    it or is contained in it. *)
Definition tokenMatches (contentTokens : list string) (token : string) : bool :=
  existsb (fun cToken => Str.includes cToken token || Str.includes token cToken)
          contentTokens.

Definition score (q c : string) : Q :=
  let queryTokens := Str.split (Str.toLowerCase q) in
  let contentTokens := Str.split (Str.toLowerCase c) in
  let matches := count_occ bool_dec
                   (map (tokenMatches contentTokens) queryTokens) true in
  let similarity :=
    match queryTokens with
    | [] => 0
    | _ => inject_Z (Z.of_nat matches)
           / inject_Z (Z.of_nat (List.length queryTokens))
    end in
  if Str.includes (Str.toLowerCase c) (Str.toLowerCase q)
  then Qmin (similarity + (1 # 2)) 1
  else similarity.

(** A query with no token: nothing but spaces. *)
Definition noTokens (q : string) : bool :=
  forallb (fun token => String.eqb token "") (Str.split (Str.toLowerCase q)).

End Spec.

(** ** What a reasoning trace says about its own confidence *)

Module Trace.

Import ReasoningEngine.

(** Reads the steps of a trace in order, rebuilding the conclusion list
    and collecting, for every step that adds a conclusion, the confidence
    it brings: a memory hit brings relevance times importance, an analogy
    its confidence times 0.7, every other step its own confidence. *)
Definition replayStep (acc : list JsValue * list Q) (s : Step)
    : list JsValue * list Q :=
  let (concls, brought) := acc in
  match s with
  | DirectFact f conf => (concls ++ [f_content f], brought ++ [conf])
  | MemoryRecall c rel imp =>
      match concls with
      | [] => ([c], brought ++ [rel * imp])
      | _ => acc
      end
  | RuleApplication _ c conf _ =>
      if existsb (sameValue (JsStr c)) concls then acc
      else (concls ++ [JsStr c], brought ++ [conf])
  | PatternMatching _ r conf =>
      if existsb (sameValue r) concls then acc
      else (concls ++ [r], brought ++ [conf])
  | AnalogicalReasoning _ a conf =>
      match someIncludes a concls with
      | Ok false =>
          (concls ++ [JsStr ("Based on analogy: " ++ a)%string],
           brought ++ [conf * (7 # 10)])
      | _ => acc
      end
  end.

Definition replay (ss : list Step) : list JsValue * list Q :=
  fold_left replayStep ss ([], []).

(** The confidences brought by the steps that added a conclusion. *)
Definition contributions (c : Chain) : list Q := snd (replay (steps c)).

(** The maximum of a list of confidences, 0 for the empty list. *)
Definition maxConfidence (l : list Q) : Q :=
  match l with
  | [] => 0
  | x :: r => fold_left Qmax r x
  end.

Definition sumConfidence (l : list Q) : Q := fold_left Qplus l 0.

(** The trace agrees with its own steps: they rebuild its conclusions,
    and its confidence is the maximum of what they brought. *)
Definition accounted (c : Chain) : Prop :=
  fst (replay (steps c)) = conclusions c
  /\ chainConfidence c == maxConfidence (contributions c).

(** No rule has a negative confidence. *)
Definition trusted (rs : JsMap.t Rule) : Prop :=
  Forall (fun e => 0 <= confidence (snd e)) rs.

Definition stepDepth (s : Step) : option nat :=
  match s with
  | RuleApplication _ _ _ d => Some d
  | _ => None
  end.

End Trace.

(** ** Well-formed memories *)

Module Wf.

Import Memory.

(** A consolidated entry was promoted with an importance above 0.7, and
    decay keeps it non-negative. *)
Definition consolidatedNonneg (e : string * LongItem) : Prop :=
  consolidated (snd e) = true -> 0 <= importance (snd e).

Record ok (m : Memory.t) : Prop := mkOk {
  ok_keys : NoDup (JsMap.keys (longTerm m));
  ok_rate : decayRate m = 1 # 10;
  ok_consolidated : Forall consolidatedNonneg (longTerm m)
}.

(** What [applyDecay] leaves of one entry: nothing, the decayed entry, or
    the entry as it was. *)
Definition decayOutcome (exp : Q -> Q) (now : Z) (rate : Q)
    (e : string * LongItem) : list (string * LongItem) :=
  if stale now (snd e) then
    if expired (decayed exp now rate (snd e)) then []
    else [(fst e, decayed exp now rate (snd e))]
  else [e].

(** Capacities and rates are the same in both memories. *)
Definition sameConfig (m m' : Memory.t) : Prop :=
  shortTermCapacity m' = shortTermCapacity m
  /\ longTermCapacity m' = longTermCapacity m
  /\ episodicCapacity m' = episodicCapacity m
  /\ decayRate m' = decayRate m
  /\ consolidationThreshold m' = consolidationThreshold m.

(** Every tier within its capacity. *)
Record bounded (m : Memory.t) : Prop := mkBounded {
  b_short : (List.length (shortTerm m) <= shortTermCapacity m)%nat;
  b_long : (JsMap.size (longTerm m) <= longTermCapacity m)%nat;
  b_episodic : (List.length (episodic m) <= episodicCapacity m)%nat
}.

End Wf.

(** ** Two small memories *)

Module Scenario.

Import Memory Session.

(** Room for one short-term item and two long-term entries, holding one
    of each. *)
Definition roomy : Memory.t :=
  run (fun _ => 1)
      [AddToLongTerm 1000 "x" (JsStr "v") 1;
       AddToShortTerm 1010 "id1" (JsStr "important note")]
      (new (mkConfig (Some 1%nat) (Some 2%nat) None)).

(** The same with room for a single long-term entry. *)
Definition crowded : Memory.t :=
  run (fun _ => 1)
      [AddToLongTerm 1000 "x" (JsStr "v") 1;
       AddToShortTerm 1010 "id1" (JsStr "important note")]
      (new (mkConfig (Some 1%nat) (Some 1%nat) None)).

(** The engine as constructed, with its five rules. *)
Definition builtin : ReasoningEngine.t :=
  ReasoningEngine.new 0 (new (mkConfig None None None)).

(** The same with a sixth rule, which rewrites ["loop x"] to a text that
    matches the rule again. *)
Definition looping (conf : Q) : ReasoningEngine.t :=
  ReasoningEngine.addRule 1 "loop"
    {| ReasoningEngine.rs_pattern := ["loop {A}"];
       ReasoningEngine.rs_conclusion := "loop {A}";
       ReasoningEngine.rs_confidence := conf |}
    builtin.

End Scenario.

(** ** Snapshots: [save] and [load] *)

Module Persistence.

Import Memory.

(** [data.config]; a key that is absent is [None]. *)
Record ConfigPatch : Type := mkPatch {
  p_shortTermCapacity : option nat;
  p_longTermCapacity : option nat;
  p_episodicCapacity : option nat;
  p_decayRate : option Q;
  p_consolidationThreshold : option nat
}.

(** What [Memory.save()] returns and [Memory.load(data)] reads; a key
    that is absent is [None].  The maps [semantic] and [procedural],
    which no method writes, are left out of the memory and of its
    snapshot. *)
Record Snapshot : Type := mkSnapshot {
  d_shortTerm : option (list ShortItem);
  d_longTerm : option (list (string * LongItem));
  d_episodic : option (list Episode);
  d_memoryWeights : option (list (string * Q));
  d_accessCount : option (list (string * nat));
  d_lastAccess : option (list (string * Z));
  d_config : option ConfigPatch;
  d_timestamp : Z
}.

(** [save()] *)
Definition save (now : Z) (m : Memory.t) : Snapshot :=
  {| d_shortTerm := Some (shortTerm m);
     d_longTerm := Some (longTerm m);
     d_episodic := Some (episodic m);
     d_memoryWeights := Some (memoryWeights m);
     d_accessCount := Some (accessCounts m);
     d_lastAccess := Some (lastAccesses m);
     d_config :=
       Some {| p_shortTermCapacity := Some (shortTermCapacity m);
               p_longTermCapacity := Some (longTermCapacity m);
               p_episodicCapacity := Some (episodicCapacity m);
               p_decayRate := Some (decayRate m);
               p_consolidationThreshold := Some (consolidationThreshold m) |};
     d_timestamp := now |}.

(** [new Map(entries)] *)
Definition mapOf {V} (entries : list (string * V)) : JsMap.t V :=
  fold_left (fun m e => JsMap.set (fst e) (snd e) m) entries [].

(** [x || []] *)
Definition orEmpty {A} (x : option (list A)) : list A :=
  match x with Some l => l | None => [] end.

Definition orKeep {A} (x : option A) (old : A) : A :=
  match x with Some v => v | None => old end.

(** [load(data)]: every tier and index is replaced, by nothing when the
    snapshot lacks it; [Object.assign(this, data.config)] overwrites the
    settings the snapshot has. *)
Definition load (data : Snapshot) (m : Memory.t) : Memory.t :=
  let patch :=
    match d_config data with
    | Some c => c
    | None => mkPatch None None None None None
    end in
  {| shortTermCapacity := orKeep (p_shortTermCapacity patch) (shortTermCapacity m);
     longTermCapacity := orKeep (p_longTermCapacity patch) (longTermCapacity m);
     episodicCapacity := orKeep (p_episodicCapacity patch) (episodicCapacity m);
     shortTerm := orEmpty (d_shortTerm data);
     longTerm := mapOf (orEmpty (d_longTerm data));
     episodic := orEmpty (d_episodic data);
     memoryWeights := mapOf (orEmpty (d_memoryWeights data));
     accessCounts := mapOf (orEmpty (d_accessCount data));
     lastAccesses := mapOf (orEmpty (d_lastAccess data));
     decayRate := orKeep (p_decayRate patch) (decayRate m);
     consolidationThreshold :=
       orKeep (p_consolidationThreshold patch) (consolidationThreshold m) |}.

(** What [ReasoningEngine.save()] returns (the map [inferences], which
    no method writes, is left out). *)
Record EngineSnapshot : Type := mkEngineSnapshot {
  d_rules : option (list (string * ReasoningEngine.Rule));
  d_facts : option (list ReasoningEngine.Fact);
  d_reasoningHistory : option (list ReasoningEngine.Chain);
  d_savedAt : Z
}.

(** [ReasoningEngine.save()]: the last 50 traces only. *)
Definition saveEngine (now : Z) (e : ReasoningEngine.t) : EngineSnapshot :=
  {| d_rules := Some (ReasoningEngine.rules e);
     d_facts := Some (ReasoningEngine.facts e);
     d_reasoningHistory := Some (sliceLast 50 (ReasoningEngine.reasoningHistory e));
     d_savedAt := now |}.

(** [new Set(strings)] on serialised facts. *)
Definition setOf (fs : list ReasoningEngine.Fact) : list ReasoningEngine.Fact :=
  fold_left (fun acc f =>
               if existsb (ReasoningEngine.factEqb f) acc then acc
               else acc ++ [f])
            fs [].

(** [ReasoningEngine.load(data)]; the memory is not part of it. *)
Definition loadEngine (data : EngineSnapshot) (e : ReasoningEngine.t)
    : ReasoningEngine.t :=
  {| ReasoningEngine.memory := ReasoningEngine.memory e;
     ReasoningEngine.rules := mapOf (orEmpty (d_rules data));
     ReasoningEngine.facts := setOf (orEmpty (d_facts data));
     ReasoningEngine.reasoningHistory := orEmpty (d_reasoningHistory data) |}.

End Persistence.

(** ** Statistics *)

Module Stats.

Import Memory.

Record Accessed : Type := mkAccessed {
  a_id : string;
  a_accessCount : nat;
  a_lastAccess : option Z;
  a_content : JsValue
}.

(** Whether a value is truthy. *)
Definition truthy (v : JsValue) : bool :=
  match v with
  | JsUndefined | JsNull => false
  | JsStr s => negb (String.eqb s "")
  | JsObj _ => true
  end.

(** [this.longTerm.get(id)?.content || 'N/A'] *)
Definition contentOrNA (id : string) (m : Memory.t) : JsValue :=
  match JsMap.get id (longTerm m) with
  | Some item => if truthy (content item) then content item else JsStr "N/A"
  | None => JsStr "N/A"
  end.

(** [getMostAccessedMemories(limit = 5)] *)
Definition getMostAccessedMemories (limit : nat) (m : Memory.t)
    : list Accessed :=
  map (fun e =>
         {| a_id := fst e; a_accessCount := snd e;
            a_lastAccess := JsMap.get (fst e) (lastAccesses m);
            a_content := contentOrNA (fst e) m |})
      (firstn limit
         (sortBy (fun a b => inject_Z (Z.of_nat (snd b))
                             - inject_Z (Z.of_nat (snd a)))
                 (accessCounts m))).

End Stats.

(** ** Vocabulary for the properties *)

Module Obs.

Import Memory.

(** The sort key of [manageLongTermCapacity]: its comparator is the
    difference of two of these. *)
Definition compositeScore (e : string * LongItem) : Q :=
  importance (snd e)
  + inject_Z (Z.of_nat (accessCount (snd e))) * (1 # 10)
  + inject_Z (lastAccess (snd e)) * (1 # 1000).

Definition isString (v : JsValue) : bool :=
  match v with JsStr _ => true | _ => false end.

(** The text a search hit was scored on. *)
Definition scoredText (r : Recalled) : JsValue :=
  match source r with
  | FromShort i => s_content i
  | FromLong _ i => content i
  | FromEpisodic e => event e
  end.


(** The payloads of the [addToShortTerm] calls of a session, in order. *)
Definition shortTermInputs (ops : list Session.Op) : list JsValue :=
  flat_map (fun op => match op with
                      | Session.AddToShortTerm _ _ item => [item]
                      | _ => []
                      end) ops.

(** The string events of the [addEpisodicMemory] calls of a session. *)
Definition episodicInputs (ops : list Session.Op) : list JsValue :=
  flat_map (fun op => match op with
                      | Session.AddEpisodicMemory _ _ (JsStr s) => [JsStr s]
                      | _ => []
                      end) ops.

(** How many hits carry the id [id]. *)
Definition hitsOf (id : string) (hits : list Recalled) : nat :=
  List.length (filter (fun r => String.eqb (r_id r) id) hits).

(** Whether the content of a fact contains the query or is contained in
    it, letter case aside. *)
Definition factMatches (q : string) (f : ReasoningEngine.Fact) : bool :=
  match ReasoningEngine.f_content f with
  | JsStr s =>
      Str.includes (Str.toLowerCase s) (Str.toLowerCase q)
      || Str.includes (Str.toLowerCase q) (Str.toLowerCase s)
  | _ => false
  end.

(** Two memories that remember the same things under the same
    configuration; access counters, last-access times and the weight
    index may differ. *)
Definition sameTiers (m m' : Memory.t) : Prop :=
  shortTerm m' = shortTerm m
  /\ longTerm m' = longTerm m
  /\ episodic m' = episodic m
  /\ Wf.sameConfig m m'.

(** No value of the list is the same (in the sense of [includes]) as an
    earlier one. *)
Definition distinctValues (l : list JsValue) : Prop :=
  ForallOrdPairs (fun a b => sameValue b a = false) l.

(** [count || 0] *)
Definition countOr0 (c : option nat) : nat :=
  match c with Some n => n | None => 0%nat end.

(** Two rules that differ at most in their usage counter, the second
    having been used at least as often. *)
Definition sameRuleUsedMore (a b : ReasoningEngine.Rule) : Prop :=
  ReasoningEngine.pattern b = ReasoningEngine.pattern a
  /\ ReasoningEngine.conclusion b = ReasoningEngine.conclusion a
  /\ ReasoningEngine.confidence b = ReasoningEngine.confidence a
  /\ ReasoningEngine.name b = ReasoningEngine.name a
  /\ ReasoningEngine.createdAt b = ReasoningEngine.createdAt a
  /\ (ReasoningEngine.usageCount a <= ReasoningEngine.usageCount b)%nat.

End Obs.

(** * Properties *)

(** ** Numbers *)

Lemma Qltb_lt a b : Qltb a b = true <-> a < b.
Proof.
  unfold Qltb. rewrite negb_true_iff. split; intro H.
  - apply Qnot_le_lt. intro L. apply Qle_bool_iff in L. congruence.
  - destruct (Qle_bool b a) eqn:E; [|reflexivity].
    apply Qle_bool_iff in E. exfalso. apply (Qlt_not_le _ _ H E).
Qed.

Lemma Qltb_ge a b : Qltb a b = false <-> b <= a.
Proof.
  unfold Qltb. rewrite negb_false_iff. apply Qle_bool_iff.
Qed.

(** ** Strings *)

Lemma splitAux_nonempty cur s : Str.splitAux cur s <> [].
Proof.
  revert cur. induction s as [|c r IH]; intro cur; simpl.
  - discriminate.
  - destruct (Ascii.eqb c " "%char); [discriminate | apply IH].
Qed.

Lemma split_nonempty s : Str.split s <> [].
Proof. apply splitAux_nonempty. Qed.

Lemma includes_empty s : Str.includes s EmptyString = true.
Proof. destruct s; reflexivity. Qed.

(** ** Sorting *)

Section SortBy.
Context {A : Type} (cmp : A -> A -> Q).

Lemma insertBy_perm x l : Permutation (insertBy cmp x l) (x :: l).
Proof.
  induction l as [|y r IH]; simpl.
  - apply Permutation_refl.
  - destruct (Qltb 0 (cmp x y)).
    + eapply perm_trans; [apply perm_skip, IH | apply perm_swap].
    + apply Permutation_refl.
Qed.

Lemma sortBy_perm l : Permutation (sortBy cmp l) l.
Proof.
  induction l as [|x r IH]; simpl.
  - apply perm_nil.
  - eapply perm_trans; [apply insertBy_perm | apply perm_skip, IH].
Qed.

Lemma sortBy_length l : List.length (sortBy cmp l) = List.length l.
Proof. apply Permutation_length, sortBy_perm. Qed.

Lemma sortBy_Forall (P : A -> Prop) l : Forall P l -> Forall P (sortBy cmp l).
Proof.
  intro H. eapply Permutation_Forall; [|exact H].
  apply Permutation_sym, sortBy_perm.
Qed.

End SortBy.

Section SortDescending.
Context {A : Type} (key : A -> Q).

Let desc (a b : A) : Prop := key b <= key a.
Let cmp (a b : A) : Q := key b - key a.

Lemma insertBy_desc x l :
  StronglySorted desc l -> StronglySorted desc (insertBy cmp x l).
Proof.
  induction 1 as [|y r Hr IH Hy]; simpl.
  - repeat constructor.
  - destruct (Qltb 0 (cmp x y)) eqn:E.
    + constructor; [exact IH|].
      eapply Permutation_Forall;
        [apply Permutation_sym, insertBy_perm|].
      constructor; [|exact Hy].
      apply Qltb_lt in E. unfold desc, cmp in *. lra.
    + apply Qltb_ge in E.
      assert (Hxy : desc x y) by (unfold desc, cmp in *; lra).
      constructor; [constructor; assumption|].
      constructor; [exact Hxy|].
      eapply Forall_impl; [|exact Hy].
      intros z Hz. unfold desc in *. lra.
Qed.

Lemma sortBy_desc l : StronglySorted desc (sortBy cmp l).
Proof.
  induction l as [|x r IH]; simpl.
  - constructor.
  - apply insertBy_desc, IH.
Qed.

End SortDescending.

(** ** Retrieval *)

Section Retrieval.
Import Memory.

Lemma searchShortTerm_relevant q m :
  Forall (fun r => 1 # 10 < relevance r) (searchShortTerm q m).
Proof.
  apply Forall_forall. intros r Hr.
  apply filter_In in Hr. destruct Hr as [_ Hr].
  apply Qltb_lt. exact Hr.
Qed.

Lemma searchEpisodic_relevant q m :
  Forall (fun r => 1 # 10 < relevance r) (searchEpisodic q m).
Proof.
  apply Forall_forall. intros r Hr.
  apply filter_In in Hr. destruct Hr as [_ Hr].
  apply Qltb_lt. exact Hr.
Qed.

Lemma searchLongTerm_relevant q m :
  Forall (fun r => 1 # 10 < relevance r) (searchLongTerm q m).
Proof.
  unfold searchLongTerm.
  induction (longTerm m) as [|e l IH]; cbn [flat_map].
  - constructor.
  - apply Forall_app. split; [|exact IH].
    destruct (Qltb (1 # 10) (calculateRelevance q (content (snd e)))) eqn:E.
    + constructor; [|constructor]. cbn [relevance]. apply Qltb_lt. exact E.
    + constructor.
Qed.

Lemma recall_fst now q ty m :
  fst (recall now q ty m)
  = sortBy (fun a b => relevance b - relevance a) (collect q ty m).
Proof. reflexivity. Qed.

Lemma collect_relevant q ty m :
  Forall (fun r => 1 # 10 < relevance r) (collect q ty m).
Proof.
  unfold collect.
  destruct (wants ty "shortterm"); destruct (wants ty "longterm");
    destruct (wants ty "episodic");
    repeat (apply Forall_app; split);
    auto using searchShortTerm_relevant, searchLongTerm_relevant,
               searchEpisodic_relevant.
Qed.

Lemma recall_relevant now q ty m :
  Forall (fun r => 1 # 10 < relevance r) (fst (recall now q ty m)).
Proof.
  rewrite recall_fst. apply sortBy_Forall, collect_relevant.
Qed.

Lemma recall_sorted now q ty m :
  StronglySorted (fun a b => relevance b <= relevance a)
                 (fst (recall now q ty m)).
Proof.
  rewrite recall_fst. apply (sortBy_desc relevance).
Qed.

(** C3. Whatever the query, the tier filter and the memory, [recall]
    returns its hits in descending order of relevance, and no hit has a
    relevance of 0.1 or less. *)
Theorem C3_recall_sorted_and_filtered now q ty m :
  let results := fst (recall now q ty m) in
  StronglySorted (fun a b => relevance b <= relevance a) results
  /\ Forall (fun r => ~ relevance r <= 1 # 10) results.
Proof.
  cbv zeta. split.
  - apply recall_sorted.
  - eapply Forall_impl; [|apply recall_relevant].
    intros r Hr. cbv beta in Hr. apply Qlt_not_le. exact Hr.
Qed.

End Retrieval.

(** ** The relevance score *)

Section Relevance.
Import Memory.

Lemma ratio_bounds (m n : nat) :
  (m <= n)%nat -> (0 < n)%nat ->
  0 <= inject_Z (Z.of_nat m) / inject_Z (Z.of_nat n) <= 1.
Proof.
  intros Hmn Hn.
  assert (Hn' : 0 < inject_Z (Z.of_nat n)).
  { change 0 with (inject_Z 0). rewrite <- Zlt_Qlt. lia. }
  assert (Hm' : 0 <= inject_Z (Z.of_nat m)).
  { change 0 with (inject_Z 0). rewrite <- Zle_Qle. lia. }
  split.
  - apply Qle_shift_div_l; [exact Hn'|]. lra.
  - apply Qle_shift_div_r; [exact Hn'|].
    rewrite Qmult_1_l. rewrite <- Zle_Qle. lia.
Qed.

Lemma ratio_full (n : nat) :
  (0 < n)%nat -> inject_Z (Z.of_nat n) / inject_Z (Z.of_nat n) == 1.
Proof.
  intro Hn. apply Qmult_inv_r.
  intro H. unfold Qeq in H. cbn [Qnum Qden inject_Z] in H. lia.
Qed.

Lemma boost_bounds s : 0 <= s <= 1 -> 0 <= Qmin (s + (1 # 2)) 1 <= 1.
Proof.
  intros [H0 H1]. split.
  - apply Q.min_glb; lra.
  - apply Q.le_min_r.
Qed.

Lemma count_true_filter {A} (f : A -> bool) l :
  count_occ bool_dec (map f l) true = List.length (filter f l).
Proof.
  induction l as [|x r IH]; [reflexivity|].
  cbn [map filter]. destruct (f x) eqn:E.
  - rewrite count_occ_cons_eq by reflexivity. cbn [List.length]. congruence.
  - rewrite count_occ_cons_neq by discriminate. exact IH.
Qed.

Lemma filter_length_le {A} (f : A -> bool) l :
  (List.length (filter f l) <= List.length l)%nat.
Proof.
  induction l as [|x r IH]; cbn [filter List.length]; [lia|].
  destruct (f x); cbn [List.length]; lia.
Qed.

Lemma length_pos_of_nonempty {A} (l : list A) :
  l <> [] -> (0 < List.length l)%nat.
Proof. destruct l; [congruence | cbn; lia]. Qed.

Lemma calculateRelevance_strings q c :
  calculateRelevance (JsStr q) (JsStr c) = Spec.score q c.
Proof.
  unfold calculateRelevance, Spec.score, Spec.tokenMatches, some.
  rewrite count_true_filter.
  destruct (Str.split (Str.toLowerCase q)) eqn:E; [|reflexivity].
  exfalso. exact (split_nonempty _ E).
Qed.

Lemma score_bounds q c : 0 <= Spec.score q c <= 1.
Proof.
  rewrite <- calculateRelevance_strings. unfold calculateRelevance.
  set (qt := Str.split (Str.toLowerCase q)).
  set (f := fun token : string => _).
  assert (H : 0 <= inject_Z (Z.of_nat (List.length (filter f qt)))
                   / inject_Z (Z.of_nat (List.length qt)) <= 1).
  { apply ratio_bounds; [apply filter_length_le|].
    apply length_pos_of_nonempty, split_nonempty. }
  destruct (Str.includes _ _); [apply boost_bounds|]; exact H.
Qed.

Lemma calculateRelevance_bounds v w : 0 <= calculateRelevance v w <= 1.
Proof.
  destruct v as [| |q|]; try (cbn; lra).
  destruct w as [| |c|]; try (cbn; lra).
  rewrite calculateRelevance_strings. apply score_bounds.
Qed.

Lemma filter_all {A} (f : A -> bool) l :
  forallb f l = true -> filter f l = l.
Proof.
  induction l as [|x r IH]; [reflexivity|].
  cbn [forallb filter]. intro H. apply andb_true_iff in H.
  destruct H as [Hx Hr]. rewrite Hx, IH by exact Hr. reflexivity.
Qed.

Lemma forallb_impl {A} (f g : A -> bool) l :
  (forall x, f x = true -> g x = true) ->
  forallb f l = true -> forallb g l = true.
Proof.
  intros Hfg. induction l as [|x r IH]; [reflexivity|].
  cbn [forallb]. intro H. apply andb_true_iff in H. destruct H as [Hx Hr].
  rewrite (Hfg _ Hx), IH by exact Hr. reflexivity.
Qed.

(** A query made of spaces only scores 1: each of its tokens is the empty
    string, which every content token contains. *)
Lemma blank_query_scores_one q c :
  Spec.noTokens q = true -> calculateRelevance (JsStr q) (JsStr c) == 1.
Proof.
  unfold Spec.noTokens, calculateRelevance. intro H.
  set (qt := Str.split (Str.toLowerCase q)) in *.
  set (f := fun token : string => _).
  assert (Hall : forallb f qt = true).
  { revert H. apply forallb_impl. intros tok Htok.
    apply String.eqb_eq in Htok. subst tok. unfold f, some.
    destruct (Str.split (Str.toLowerCase c)) as [|ct r] eqn:E.
    - exfalso. exact (split_nonempty _ E).
    - cbn [existsb]. rewrite includes_empty. reflexivity. }
  rewrite (filter_all _ _ Hall).
  assert (R : inject_Z (Z.of_nat (List.length qt))
              / inject_Z (Z.of_nat (List.length qt)) == 1).
  { apply ratio_full, length_pos_of_nonempty, split_nonempty. }
  destruct (Str.includes _ _).
  - rewrite R. reflexivity.
  - exact R.
Qed.

(** C6, as the code has it. On two strings the score is the one the
    specification describes; on anything else it is 0; it always lies in
    [0,1]. A query always has at least one token, and a query without a
    non-empty token scores 1. *)
Theorem C6_relevance_score (v w : JsValue) (q c : string) :
  calculateRelevance v w
  = match v, w with
    | JsStr q', JsStr c' => Spec.score q' c'
    | _, _ => 0
    end
  /\ 0 <= calculateRelevance v w <= 1
  /\ Str.split (Str.toLowerCase q) <> []
  /\ (Spec.noTokens q = true -> calculateRelevance (JsStr q) (JsStr c) == 1).
Proof.
  split; [|split; [|split]].
  - destruct v as [| |q'|]; try reflexivity.
    destruct w as [| |c'|]; try reflexivity.
    apply calculateRelevance_strings.
  - apply calculateRelevance_bounds.
  - apply split_nonempty.
  - apply blank_query_scores_one.
Qed.

Lemma C6_relevance_score_witness :
  Spec.noTokens "  " = true
  /\ calculateRelevance (JsStr "  ") (JsStr "hello world") == 1.
Proof.
  split; [reflexivity|].
  destruct (C6_relevance_score JsNull (JsStr "x") "  " "hello world")
    as (_ & _ & _ & H).
  apply H. reflexivity.
Defined.

(** C6, counterexample: the empty query has no token in the sense of the
    specification, and its score against any content is 1, not 0. *)
Lemma C6_empty_query_scores_one :
  ~ (forall q c, Spec.noTokens q = true ->
       calculateRelevance (JsStr q) (JsStr c) == 0).
Proof.
  intro H. specialize (H "" "hello" eq_refl).
  vm_compute in H. discriminate H.
Qed.

End Relevance.

(** ** Payloads that are not strings *)

Section Payloads.
Import Memory.

(** C9, the failing call: [addEpisodicMemory] on an object payload (what
    the agent itself passes after every conversation) throws a TypeError
    from [analyzeEmotionalContext], and stores nothing; the sibling
    helpers [calculateImportance] and [calculateRelevance] degrade to 0.5
    and 0 on the same payload. *)
Theorem C9_addEpisodicMemory_throws_on_object now id props m :
  addEpisodicMemory now id (JsObj props) m
  = (Throw (TypeError "content.toLowerCase is not a function"), m)
  /\ isThrow (fst (addEpisodicMemory now id JsNull m)) = true
  /\ isThrow (fst (addEpisodicMemory now id JsUndefined m)) = true
  /\ calculateImportance (JsObj props) == 1 # 2
  /\ calculateRelevance (JsObj props) (JsObj props) = 0.
Proof.
  repeat split.
Qed.

End Payloads.

(** ** The importance-weight index *)

Section WeightIndex.
Import Memory Session.

(** C8, the failing run: after [addToLongTerm("k", "hello", 0.5)] and
    seven calls of [recall("hello")], the index holds 0.6 for ["k"] while
    the stored item still has importance 0.5; and after one [applyDecay()]
    two days later (with 0.8 for [Math.exp(-0.2)]) the item has decayed to
    0.4 while the index still holds 0.5. *)
Theorem C8_weight_index_diverges :
  (let m := run (fun _ => 1)
               (AddToLongTerm 0 "k" (JsStr "hello") (1 # 2)
                :: repeat (Recall 1 (JsStr "hello") "all") 7)
               (new (mkConfig None None None)) in
   exists item w,
     JsMap.get "k" (longTerm m) = Some item
     /\ JsMap.get "k" (memoryWeights m) = Some w
     /\ importance item == 5 # 10 /\ w == 6 # 10 /\ ~ w == importance item)
  /\ (let m := run (fun _ => 8 # 10)
                  [AddToLongTerm 0 "k" (JsStr "hello") (1 # 2);
                   ApplyDecay 172800000]
                  (new (mkConfig None None None)) in
      exists item w,
        JsMap.get "k" (longTerm m) = Some item
        /\ JsMap.get "k" (memoryWeights m) = Some w
        /\ importance item == 4 # 10 /\ w == 5 # 10 /\ ~ w == importance item).
Proof.
  split; vm_compute; eexists; eexists;
    repeat split; try reflexivity; discriminate.
Qed.

End WeightIndex.

(** ** Maps *)

Section MapFacts.
Context {V : Type}.
Implicit Types (m : JsMap.t V) (k : string) (v : V).

Lemma get_set_same k v m : JsMap.get k (JsMap.set k v m) = Some v.
Proof.
  induction m as [|[k' v'] r IH]; cbn [JsMap.set JsMap.get].
  - rewrite String.eqb_refl. reflexivity.
  - destruct (String.eqb k k') eqn:E; cbn [JsMap.get].
    + rewrite String.eqb_refl. reflexivity.
    + rewrite E. exact IH.
Qed.

Lemma get_set_other k k' v m :
  k <> k' -> JsMap.get k' (JsMap.set k v m) = JsMap.get k' m.
Proof.
  intro Hne. induction m as [|[k0 v0] r IH]; cbn [JsMap.set JsMap.get].
  - destruct (String.eqb k' k) eqn:E; [|reflexivity].
    apply String.eqb_eq in E. congruence.
  - destruct (String.eqb k k0) eqn:E; cbn [JsMap.get].
    + apply String.eqb_eq in E. subst k0.
      destruct (String.eqb k' k) eqn:E'; [|reflexivity].
      apply String.eqb_eq in E'. congruence.
    + rewrite IH. reflexivity.
Qed.

Lemma set_fresh k v m :
  JsMap.get k m = None -> JsMap.set k v m = m ++ [(k, v)].
Proof.
  induction m as [|[k' v'] r IH]; cbn [JsMap.set JsMap.get]; [reflexivity|].
  destruct (String.eqb k k'); [discriminate|].
  intro H. rewrite IH by exact H. reflexivity.
Qed.

Lemma set_present_keys k v m :
  JsMap.get k m <> None -> JsMap.keys (JsMap.set k v m) = JsMap.keys m.
Proof.
  unfold JsMap.keys.
  induction m as [|[k' v'] r IH]; cbn [JsMap.set JsMap.get map fst].
  - congruence.
  - destruct (String.eqb k k') eqn:E; cbn [map fst].
    + apply String.eqb_eq in E. subst. reflexivity.
    + intro H. rewrite IH by exact H. reflexivity.
Qed.

Lemma get_in_keys k m : JsMap.get k m <> None <-> In k (JsMap.keys m).
Proof.
  unfold JsMap.keys.
  induction m as [|[k' v'] r IH]; cbn [JsMap.get map fst In].
  - split; [congruence | tauto].
  - destruct (String.eqb k k') eqn:E.
    + apply String.eqb_eq in E. subst. split; [auto | discriminate].
    + apply String.eqb_neq in E. rewrite IH. split; [auto|].
      intros [H|H]; [congruence | exact H].
Qed.

Lemma get_none_keys k m : JsMap.get k m = None <-> ~ In k (JsMap.keys m).
Proof.
  rewrite <- get_in_keys. destruct (JsMap.get k m); split; try congruence.
  intro H. exfalso. apply H. discriminate.
Qed.

Lemma set_size_le k v m :
  (JsMap.size (JsMap.set k v m) <= S (JsMap.size m))%nat.
Proof.
  unfold JsMap.size.
  induction m as [|[k' v'] r IH]; cbn [JsMap.set List.length]; [lia|].
  destruct (String.eqb k k'); cbn [List.length]; lia.
Qed.

Lemma set_present_size k v m :
  JsMap.get k m <> None -> JsMap.size (JsMap.set k v m) = JsMap.size m.
Proof.
  intro H. unfold JsMap.size.
  rewrite <- (length_map fst (JsMap.set k v m)), <- (length_map fst m).
  fold (JsMap.keys (JsMap.set k v m)). fold (JsMap.keys m).
  rewrite set_present_keys by exact H. reflexivity.
Qed.

Lemma set_keys_nodup k v m :
  NoDup (JsMap.keys m) -> NoDup (JsMap.keys (JsMap.set k v m)).
Proof.
  intro H. destruct (JsMap.get k m) eqn:E.
  - rewrite set_present_keys by congruence. exact H.
  - rewrite set_fresh by exact E. unfold JsMap.keys in *.
    rewrite map_app. cbn [map fst].
    apply NoDup_app; [exact H | |].
    + constructor; [intros []| constructor].
    + intros x Hx [Hk|[]]. subst x.
      apply get_none_keys in E. exact (E Hx).
Qed.

Lemma set_Forall (P : string * V -> Prop) k v m :
  Forall P m -> P (k, v) -> Forall P (JsMap.set k v m).
Proof.
  intros Hm Hkv. induction Hm as [|[k' v'] r Hx Hr IH]; cbn [JsMap.set].
  - repeat constructor. exact Hkv.
  - destruct (String.eqb k k'); constructor; auto.
Qed.

Lemma delete_size_le k m : (JsMap.size (JsMap.delete k m) <= JsMap.size m)%nat.
Proof. apply filter_length_le. Qed.

Lemma get_delete_same k m : JsMap.get k (JsMap.delete k m) = None.
Proof.
  unfold JsMap.delete.
  induction m as [|[k' v'] r IH]; cbn [filter JsMap.get fst]; [reflexivity|].
  destruct (String.eqb k k') eqn:E; cbn [negb JsMap.get]; [exact IH|].
  rewrite E. exact IH.
Qed.

Lemma get_delete_other k k' m :
  k <> k' -> JsMap.get k' (JsMap.delete k m) = JsMap.get k' m.
Proof.
  intro Hne. unfold JsMap.delete.
  induction m as [|[k0 v0] r IH]; cbn [filter JsMap.get fst]; [reflexivity|].
  destruct (String.eqb k k0) eqn:E; cbn [negb JsMap.get].
  - apply String.eqb_eq in E. subst k0.
    destruct (String.eqb k' k) eqn:E'; [|exact IH].
    apply String.eqb_eq in E'. congruence.
  - rewrite IH. reflexivity.
Qed.

Lemma delete_keys k m :
  JsMap.keys (JsMap.delete k m)
  = filter (fun k' => negb (String.eqb k k')) (JsMap.keys m).
Proof.
  unfold JsMap.keys, JsMap.delete.
  induction m as [|[k' v'] r IH]; cbn [filter map fst]; [reflexivity|].
  destruct (String.eqb k k'); cbn [negb map fst]; rewrite IH; reflexivity.
Qed.

Lemma delete_keys_nodup k m :
  NoDup (JsMap.keys m) -> NoDup (JsMap.keys (JsMap.delete k m)).
Proof. intro H. rewrite delete_keys. apply NoDup_filter, H. Qed.

Lemma delete_Forall (P : string * V -> Prop) k m :
  Forall P m -> Forall P (JsMap.delete k m).
Proof.
  intro H. apply Forall_forall. intros x Hx.
  apply filter_In in Hx. destruct Hx as [Hx _].
  revert x Hx. apply Forall_forall. exact H.
Qed.

Lemma delete_absent k m : ~ In k (JsMap.keys m) -> JsMap.delete k m = m.
Proof.
  intro H. unfold JsMap.delete. apply forallb_filter_id.
  apply forallb_forall. intros [k' v'] Hin. cbn [fst].
  apply negb_true_iff, String.eqb_neq. intro; subst k'.
  apply H. unfold JsMap.keys. apply in_map_iff.
  exists (k, v'). split; [reflexivity | exact Hin].
Qed.

Lemma get_In k v m : JsMap.get k m = Some v -> In (k, v) m.
Proof.
  induction m as [|[k' v'] r IH]; cbn [JsMap.get]; [discriminate|].
  destruct (String.eqb k k') eqn:E.
  - apply String.eqb_eq in E. subst k'. intro H. inversion H; subst.
    left. reflexivity.
  - intro H. right. apply IH, H.
Qed.

Lemma In_get k v m : NoDup (JsMap.keys m) -> In (k, v) m -> JsMap.get k m = Some v.
Proof.
  unfold JsMap.keys.
  induction m as [|[k' v'] r IH]; cbn [JsMap.get map fst In]; [tauto|].
  intros Hnd [Hin|Hin].
  - inversion Hin; subst. rewrite String.eqb_refl. reflexivity.
  - inversion Hnd as [|? ? Hnot Hnd']; subst.
    destruct (String.eqb k k') eqn:E.
    + apply String.eqb_eq in E. subst k'. exfalso. apply Hnot.
      apply in_map_iff. exists (k, v). split; [reflexivity | exact Hin].
    + apply IH; assumption.
Qed.

End MapFacts.

(** ** Capacity management *)

Section Capacity.
Import Memory.

Lemma sameConfig_refl m : Wf.sameConfig m m.
Proof. repeat split. Qed.

Lemma sameConfig_trans m1 m2 m3 :
  Wf.sameConfig m1 m2 -> Wf.sameConfig m2 m3 -> Wf.sameConfig m1 m3.
Proof.
  unfold Wf.sameConfig. intros (A1 & A2 & A3 & A4 & A5) (B1 & B2 & B3 & B4 & B5).
  repeat split; congruence.
Qed.

Lemma filter_filter {A} (f g : A -> bool) l :
  filter f (filter g l) = filter (fun x => g x && f x) l.
Proof.
  induction l as [|x r IH]; [reflexivity|].
  cbn [filter]. destruct (g x); cbn [filter andb]; rewrite IH; reflexivity.
Qed.

Lemma filter_perm_length {A} (f : A -> bool) l l' :
  Permutation l l' -> List.length (filter f l) = List.length (filter f l').
Proof.
  induction 1 as [|x l l' _ IH|x y l|l l' l'' _ IH1 _ IH2]; cbn [filter].
  - reflexivity.
  - destruct (f x); cbn [List.length]; congruence.
  - destruct (f x), (f y); reflexivity.
  - congruence.
Qed.

(** Deleting the keys of [rem] one after the other. *)
Lemma deletes_filter {V} (rem : list (string * V)) (l : JsMap.t V) :
  fold_left (fun l e => JsMap.delete (fst e) l) rem l
  = filter (fun x => negb (existsb (String.eqb (fst x)) (map fst rem))) l.
Proof.
  revert l. induction rem as [|e rem IH]; intro l; cbn [fold_left map existsb].
  - cbn [negb]. symmetry. apply forallb_filter_id.
    apply forallb_forall. reflexivity.
  - rewrite IH. unfold JsMap.delete. rewrite filter_filter.
    apply filter_ext. intro x.
    rewrite negb_orb, (String.eqb_sym (fst e) (fst x)). reflexivity.
Qed.

Lemma deletes_size {V} (rem rest l : JsMap.t V) :
  Permutation (rem ++ rest) l ->
  (JsMap.size (fold_left (fun l e => JsMap.delete (fst e) l) rem l)
   <= List.length rest)%nat.
Proof.
  intro Hp. rewrite deletes_filter. unfold JsMap.size.
  rewrite <- (filter_perm_length _ _ _ Hp), filter_app, length_app.
  match goal with
  | |- (List.length (filter ?f rem) + _ <= _)%nat =>
      assert (H0 : filter f rem = [])
  end.
  { clear Hp. assert (H : forall x, In x rem ->
        negb (existsb (String.eqb (fst x)) (map fst rem)) = false).
    { intros x Hx. apply negb_false_iff, existsb_exists.
      exists (fst x). split; [apply in_map, Hx | apply String.eqb_refl]. }
    revert H. generalize (map fst rem) as ks. intros ks H.
    induction rem as [|e r IHr]; [reflexivity|].
    cbn [filter]. rewrite (H e) by (left; reflexivity).
    apply IHr. intros x Hx. apply H. right. exact Hx. }
  rewrite H0. cbn [List.length]. apply filter_length_le.
Qed.

Lemma deletes_keys_nodup {V} (rem : list (string * V)) (l : JsMap.t V) :
  NoDup (JsMap.keys l) ->
  NoDup (JsMap.keys (fold_left (fun l e => JsMap.delete (fst e) l) rem l)).
Proof.
  revert l. induction rem as [|e rem IH]; intros l H; cbn [fold_left].
  - exact H.
  - apply IH, delete_keys_nodup, H.
Qed.

Lemma deletes_Forall {V} (P : string * V -> Prop) (rem : list (string * V))
    (l : JsMap.t V) :
  Forall P l ->
  Forall P (fold_left (fun l e => JsMap.delete (fst e) l) rem l).
Proof.
  revert l. induction rem as [|e rem IH]; intros l H; cbn [fold_left].
  - exact H.
  - apply IH, delete_Forall, H.
Qed.

Lemma get_delete_some {V} k k' (v : V) (l : JsMap.t V) :
  JsMap.get k (JsMap.delete k' l) = Some v -> JsMap.get k l = Some v.
Proof.
  destruct (String.eqb k' k) eqn:E.
  - apply String.eqb_eq in E. subst. rewrite get_delete_same. discriminate.
  - apply String.eqb_neq in E. rewrite get_delete_other by exact E. auto.
Qed.

Lemma get_deletes_some {V} k (v : V) (rem : list (string * V)) (l : JsMap.t V) :
  JsMap.get k (fold_left (fun l e => JsMap.delete (fst e) l) rem l) = Some v ->
  JsMap.get k l = Some v.
Proof.
  revert l. induction rem as [|e rem IH]; intros l H; cbn [fold_left] in H.
  - exact H.
  - apply IH in H. eapply get_delete_some, H.
Qed.

(** What the loop of [forget] calls does to the memory. *)
Lemma forgets_frame (rem : list (string * LongItem)) m :
  let m' := fold_left (fun m e => forget (fst e) m) rem m in
  Wf.sameConfig m m'
  /\ shortTerm m' = shortTerm m
  /\ episodic m' = episodic m
  /\ longTerm m'
     = fold_left (fun l e => JsMap.delete (fst e) l) rem (longTerm m).
Proof.
  cbv zeta. revert m. induction rem as [|e rem IH]; intro m; cbn [fold_left].
  - split; [apply sameConfig_refl|]. repeat split.
  - destruct (IH (forget (fst e) m)) as (C & S & E & L).
    split; [|split; [|split]].
    + eapply sameConfig_trans; [|exact C]. repeat split.
    + rewrite S. reflexivity.
    + rewrite E. reflexivity.
    + rewrite L. reflexivity.
Qed.

Lemma manage_frame m :
  let m' := manageLongTermCapacity m in
  Wf.sameConfig m m'
  /\ shortTerm m' = shortTerm m
  /\ episodic m' = episodic m.
Proof.
  cbv zeta. unfold manageLongTermCapacity.
  destruct (JsMap.size (longTerm m) <=? longTermCapacity m)%nat.
  - split; [apply sameConfig_refl|]. split; reflexivity.
  - match goal with
    | |- context [fold_left _ ?rem m] =>
        destruct (forgets_frame rem m) as (C & S & E & _)
    end.
    auto.
Qed.

(** After capacity management the long-term store is within its capacity,
    whatever it held before. *)
Lemma manage_size m :
  (JsMap.size (longTerm (manageLongTermCapacity m)) <= longTermCapacity m)%nat.
Proof.
  unfold manageLongTermCapacity.
  destruct (JsMap.size (longTerm m) <=? longTermCapacity m)%nat eqn:E.
  - apply Nat.leb_le. exact E.
  - apply Nat.leb_gt in E.
    set (sorted := sortBy compositeCmp (longTerm m)).
    set (n := (JsMap.size (longTerm m) - longTermCapacity m)%nat).
    destruct (forgets_frame (firstn n sorted) m) as (_ & _ & _ & L).
    rewrite L.
    eapply Nat.le_trans.
    + apply (deletes_size (firstn n sorted) (skipn n sorted)).
      rewrite firstn_skipn. apply sortBy_perm.
    + rewrite length_skipn. unfold sorted. rewrite sortBy_length.
      unfold n, JsMap.size in *. lia.
Qed.

Lemma manage_keys_nodup m :
  NoDup (JsMap.keys (longTerm m)) ->
  NoDup (JsMap.keys (longTerm (manageLongTermCapacity m))).
Proof.
  intro H. unfold manageLongTermCapacity.
  destruct (JsMap.size (longTerm m) <=? longTermCapacity m)%nat; [exact H|].
  match goal with
  | |- context [fold_left _ ?rem m] =>
      destruct (forgets_frame rem m) as (_ & _ & _ & L)
  end.
  rewrite L. apply deletes_keys_nodup, H.
Qed.

Lemma manage_Forall (P : string * LongItem -> Prop) m :
  Forall P (longTerm m) -> Forall P (longTerm (manageLongTermCapacity m)).
Proof.
  intro H. unfold manageLongTermCapacity.
  destruct (JsMap.size (longTerm m) <=? longTermCapacity m)%nat; [exact H|].
  match goal with
  | |- context [fold_left _ ?rem m] =>
      destruct (forgets_frame rem m) as (_ & _ & _ & L)
  end.
  rewrite L. apply deletes_Forall, H.
Qed.

Lemma manage_get k v m :
  JsMap.get k (longTerm (manageLongTermCapacity m)) = Some v ->
  JsMap.get k (longTerm m) = Some v.
Proof.
  unfold manageLongTermCapacity.
  destruct (JsMap.size (longTerm m) <=? longTermCapacity m)%nat; [auto|].
  match goal with
  | |- context [fold_left _ ?rem m] =>
      destruct (forgets_frame rem m) as (_ & _ & _ & L)
  end.
  rewrite L. apply get_deletes_some.
Qed.

Lemma manage_room m :
  (JsMap.size (longTerm m) <= longTermCapacity m)%nat ->
  manageLongTermCapacity m = m.
Proof.
  intro H. unfold manageLongTermCapacity.
  apply Nat.leb_le in H. rewrite H. reflexivity.
Qed.

End Capacity.

(** ** What each operation preserves *)

Section Preservation.
Import Memory.

Lemma addToLongTerm_frame now key value imp m :
  let m' := snd (addToLongTerm now key value imp m) in
  Wf.sameConfig m m'
  /\ shortTerm m' = shortTerm m
  /\ episodic m' = episodic m.
Proof.
  cbv zeta. unfold addToLongTerm. cbn [snd].
  match goal with
  | |- context [manageLongTermCapacity ?x] =>
      destruct (manage_frame x) as (C & S & E)
  end.
  split; [|split].
  - eapply sameConfig_trans; [|exact C]. repeat split.
  - rewrite S. reflexivity.
  - rewrite E. reflexivity.
Qed.

Lemma addToLongTerm_size now key value imp m :
  (JsMap.size (longTerm (snd (addToLongTerm now key value imp m)))
   <= longTermCapacity m)%nat.
Proof.
  unfold addToLongTerm. cbn [snd].
  match goal with
  | |- context [manageLongTermCapacity ?x] => apply (manage_size x)
  end.
Qed.

Lemma addToLongTerm_keys now key value imp m :
  NoDup (JsMap.keys (longTerm m)) ->
  NoDup (JsMap.keys (longTerm (snd (addToLongTerm now key value imp m)))).
Proof.
  intro H. unfold addToLongTerm. cbn [snd].
  apply manage_keys_nodup. cbn [longTerm withWeights withLongTerm].
  apply set_keys_nodup, H.
Qed.

Lemma addToLongTerm_Forall (P : string * LongItem -> Prop) now key value imp m :
  Forall P (longTerm m) ->
  P (key, mkLong value imp now 0 now false) ->
  Forall P (longTerm (snd (addToLongTerm now key value imp m))).
Proof.
  intros H Hnew. unfold addToLongTerm. cbn [snd].
  apply manage_Forall. cbn [longTerm withWeights withLongTerm].
  apply set_Forall; assumption.
Qed.

(** An entry found under [key] right after [addToLongTerm(key, ...)] is
    the one just written. *)
Lemma addToLongTerm_get now key value imp m i :
  JsMap.get key (longTerm (snd (addToLongTerm now key value imp m))) = Some i ->
  i = mkLong value imp now 0 now false.
Proof.
  unfold addToLongTerm. cbn [snd]. intro H.
  apply manage_get in H. cbn [longTerm withWeights withLongTerm] in H.
  rewrite get_set_same in H. congruence.
Qed.

Lemma consolidate_frame now item m :
  let m' := consolidateToLongTerm now item m in
  Wf.sameConfig m m'
  /\ shortTerm m' = shortTerm m
  /\ episodic m' = episodic m.
Proof.
  cbv zeta. unfold consolidateToLongTerm.
  match goal with
  | |- context [addToLongTerm ?a ?b ?c ?d m] =>
      destruct (addToLongTerm_frame a b c d m) as (C & S & E);
      set (m1 := snd (addToLongTerm a b c d m)) in *
  end.
  destruct (JsMap.get _ (longTerm m1)); auto.
Qed.

Lemma consolidate_size now item m :
  (JsMap.size (longTerm (consolidateToLongTerm now item m))
   <= longTermCapacity m)%nat.
Proof.
  unfold consolidateToLongTerm.
  match goal with
  | |- context [addToLongTerm ?a ?b ?c ?d m] =>
      pose proof (addToLongTerm_size a b c d m) as Hs;
      set (m1 := snd (addToLongTerm a b c d m)) in *
  end.
  destruct (JsMap.get _ (longTerm m1)) eqn:E; [|exact Hs].
  cbn [longTerm withLongTerm].
  rewrite set_present_size by congruence. exact Hs.
Qed.

Lemma consolidate_keys now item m :
  NoDup (JsMap.keys (longTerm m)) ->
  NoDup (JsMap.keys (longTerm (consolidateToLongTerm now item m))).
Proof.
  intro H. unfold consolidateToLongTerm.
  match goal with
  | |- context [addToLongTerm ?a ?b ?c ?d m] =>
      pose proof (addToLongTerm_keys a b c d m H) as Hk;
      set (m1 := snd (addToLongTerm a b c d m)) in *
  end.
  destruct (JsMap.get _ (longTerm m1)); [|exact Hk].
  cbn [longTerm withLongTerm]. apply set_keys_nodup, Hk.
Qed.

Lemma consolidate_nonneg now item m :
  0 <= s_importance item ->
  Forall Wf.consolidatedNonneg (longTerm m) ->
  Forall Wf.consolidatedNonneg (longTerm (consolidateToLongTerm now item m)).
Proof.
  intros Hi H. unfold consolidateToLongTerm.
  match goal with
  | |- context [addToLongTerm ?a ?b ?c ?d m] =>
      assert (Hf : Forall Wf.consolidatedNonneg
                          (longTerm (snd (addToLongTerm a b c d m))))
        by (apply addToLongTerm_Forall; [exact H | intro D; discriminate D]);
      pose proof (addToLongTerm_get a b c d m) as Hg;
      set (m1 := snd (addToLongTerm a b c d m)) in *
  end.
  destruct (JsMap.get _ (longTerm m1)) as [i|] eqn:E; [|exact Hf].
  cbn [longTerm withLongTerm]. apply set_Forall; [exact Hf|].
  rewrite (Hg i eq_refl). intros _. exact Hi.
Qed.

Lemma addToShortTerm_frame now id item m :
  let m' := snd (addToShortTerm now id item m) in
  Wf.sameConfig m m' /\ episodic m' = episodic m.
Proof.
  cbv zeta. unfold addToShortTerm.
  destruct (shortTermCapacity m <? _)%nat; [|split; [repeat split|reflexivity]].
  destruct (shortTerm m ++ _) as [|removed rest];
    [split; [repeat split|reflexivity]|].
  destruct (Qltb _ _); cbn [snd]; [|split; [repeat split|reflexivity]].
  destruct (consolidate_frame now removed (withShortTerm rest m)) as (C & _ & E).
  split; [|rewrite E; reflexivity].
  eapply sameConfig_trans; [|exact C]. repeat split.
Qed.

Lemma addToShortTerm_short now id item m :
  (List.length (shortTerm m) <= shortTermCapacity m)%nat ->
  (List.length (shortTerm (snd (addToShortTerm now id item m)))
   <= shortTermCapacity m)%nat.
Proof.
  intro H. unfold addToShortTerm.
  destruct (shortTermCapacity m <? _)%nat eqn:E.
  - assert (L : List.length
                  (shortTerm m ++ [mkShort item now (calculateImportance item) id])
                = S (List.length (shortTerm m)))
      by (rewrite length_app; cbn [List.length]; lia).
    destruct (shortTerm m ++ _) as [|removed rest]; [discriminate L|].
    cbn [List.length] in L.
    destruct (Qltb _ _); cbn [snd].
    + destruct (consolidate_frame now removed (withShortTerm rest m))
        as (_ & S & _).
      rewrite S. cbn [shortTerm withShortTerm]. lia.
    + cbn [shortTerm withShortTerm]. lia.
  - apply Nat.ltb_ge in E. cbn [snd shortTerm withShortTerm]. exact E.
Qed.

Lemma addToShortTerm_long now id item m :
  (JsMap.size (longTerm m) <= longTermCapacity m)%nat ->
  (JsMap.size (longTerm (snd (addToShortTerm now id item m)))
   <= longTermCapacity m)%nat.
Proof.
  intro H. unfold addToShortTerm.
  destruct (shortTermCapacity m <? _)%nat; [|exact H].
  destruct (shortTerm m ++ _) as [|removed rest]; [exact H|].
  destruct (Qltb _ _); cbn [snd]; [|exact H].
  apply (consolidate_size now removed (withShortTerm rest m)).
Qed.

Lemma addToShortTerm_keys now id item m :
  NoDup (JsMap.keys (longTerm m)) ->
  NoDup (JsMap.keys (longTerm (snd (addToShortTerm now id item m)))).
Proof.
  intro H. unfold addToShortTerm.
  destruct (shortTermCapacity m <? _)%nat; [|exact H].
  destruct (shortTerm m ++ _) as [|removed rest]; [exact H|].
  destruct (Qltb _ _); cbn [snd]; [|exact H].
  apply (consolidate_keys now removed (withShortTerm rest m)), H.
Qed.

Lemma addToShortTerm_nonneg now id item m :
  Forall Wf.consolidatedNonneg (longTerm m) ->
  Forall Wf.consolidatedNonneg (longTerm (snd (addToShortTerm now id item m))).
Proof.
  intro H. unfold addToShortTerm.
  destruct (shortTermCapacity m <? _)%nat; [|exact H].
  destruct (shortTerm m ++ _) as [|removed rest]; [exact H|].
  destruct (Qltb _ _) eqn:E; cbn [snd]; [|exact H].
  apply (consolidate_nonneg now removed (withShortTerm rest m)); [|exact H].
  apply Qltb_lt in E. lra.
Qed.

Lemma addEpisodic_frame now id ev m :
  let m' := snd (addEpisodicMemory now id ev m) in
  Wf.sameConfig m m'
  /\ shortTerm m' = shortTerm m
  /\ longTerm m' = longTerm m.
Proof.
  cbv zeta. unfold addEpisodicMemory.
  destruct (analyzeEmotionalContext ev); [|repeat split].
  destruct (episodicCapacity m <? _)%nat; repeat split.
Qed.

Lemma addEpisodic_bound now id ev m :
  (List.length (episodic m) <= episodicCapacity m)%nat ->
  (List.length (episodic (snd (addEpisodicMemory now id ev m)))
   <= episodicCapacity m)%nat.
Proof.
  intro H. unfold addEpisodicMemory.
  destruct (analyzeEmotionalContext ev) as [emo|]; [|exact H].
  destruct (episodicCapacity m <? _)%nat eqn:E;
    cbn [snd episodic withEpisodic].
  - rewrite length_tl, length_app. cbn [List.length]. lia.
  - apply Nat.ltb_ge in E. exact E.
Qed.

Lemma updateAccess_frame now id m :
  let m' := updateAccess now id m in
  Wf.sameConfig m m'
  /\ shortTerm m' = shortTerm m
  /\ longTerm m' = longTerm m
  /\ episodic m' = episodic m.
Proof.
  cbv zeta. unfold updateAccess.
  destruct (consolidationThreshold _ <? _)%nat; repeat split.
Qed.

Lemma recall_frame now q ty m :
  let m' := snd (recall now q ty m) in
  Wf.sameConfig m m'
  /\ shortTerm m' = shortTerm m
  /\ longTerm m' = longTerm m
  /\ episodic m' = episodic m.
Proof.
  cbv zeta. unfold recall. cbn [snd].
  generalize (sortBy (fun a b => relevance b - relevance a) (collect q ty m)).
  intro hits. revert m.
  induction hits as [|r hits IH]; intro m; cbn [fold_left].
  - split; [apply sameConfig_refl | repeat split].
  - destruct (IH (updateAccess now (r_id r) m)) as (C & S & L & E).
    destruct (updateAccess_frame now (r_id r) m) as (C' & S' & L' & E').
    split; [eapply sameConfig_trans; eassumption|].
    repeat split; congruence.
Qed.

End Preservation.

(** ** Decay *)

Section Decay.
Import Memory.
Variable exp : Q -> Q.
Variable now : Z.

Lemma set_middle {V} k (v v0 : V) pre rest :
  ~ In k (JsMap.keys pre) ->
  JsMap.set k v (pre ++ (k, v0) :: rest) = pre ++ (k, v) :: rest.
Proof.
  unfold JsMap.keys.
  induction pre as [|[k' v'] pre IH]; cbn [app JsMap.set map fst In]; intro H.
  - rewrite String.eqb_refl. reflexivity.
  - destruct (String.eqb k k') eqn:E.
    + apply String.eqb_eq in E. subst. exfalso. apply H. left. reflexivity.
    + rewrite IH by tauto. reflexivity.
Qed.

Lemma delete_middle {V} k (v : V) pre rest :
  ~ In k (JsMap.keys pre) -> ~ In k (JsMap.keys rest) ->
  JsMap.delete k (pre ++ (k, v) :: rest) = pre ++ rest.
Proof.
  intros Hp Hr. unfold JsMap.delete. rewrite filter_app. cbn [filter fst].
  rewrite String.eqb_refl. cbn [negb].
  fold (JsMap.delete k pre). fold (JsMap.delete k rest).
  rewrite !delete_absent by assumption. reflexivity.
Qed.

Lemma keys_app {V} (a b : JsMap.t V) :
  JsMap.keys (a ++ b) = JsMap.keys a ++ JsMap.keys b.
Proof. apply map_app. Qed.

(** The loop of [applyDecay] over the entries still to visit, [pre] being
    what the entries already visited have become. *)
Lemma decay_loop todo : forall pre m,
  longTerm m = pre ++ todo ->
  NoDup (JsMap.keys (pre ++ todo)) ->
  let m' := fold_left (decayEntry exp now) todo m in
  longTerm m' = pre ++ flat_map (Wf.decayOutcome exp now (decayRate m)) todo
  /\ Wf.sameConfig m m'
  /\ shortTerm m' = shortTerm m
  /\ episodic m' = episodic m.
Proof.
  induction todo as [|[k item] todo IH]; intros pre m HL HN; cbv zeta.
  - cbn [fold_left flat_map]. split; [exact HL|].
    split; [apply sameConfig_refl | split; reflexivity].
  - cbn [fold_left flat_map]. unfold Wf.decayOutcome at 1. cbn [fst snd].
    assert (Hpre : ~ In k (JsMap.keys pre)).
    { rewrite keys_app in HN. cbn [JsMap.keys map fst] in HN.
      apply NoDup_remove_2 in HN. intro Hin. apply HN.
      apply in_or_app. left. exact Hin. }
    assert (Hrest : ~ In k (JsMap.keys todo)).
    { rewrite keys_app in HN. cbn [JsMap.keys map fst] in HN.
      apply NoDup_remove_2 in HN. intro Hin. apply HN.
      apply in_or_app. right. exact Hin. }
    assert (Hd : decayEntry exp now m (k, item)
                 = if stale now item then
                     if expired (decayed exp now (decayRate m) item)
                     then forget k (withLongTerm
                            (JsMap.set k (decayed exp now (decayRate m) item)
                                       (longTerm m)) m)
                     else withLongTerm
                            (JsMap.set k (decayed exp now (decayRate m) item)
                                       (longTerm m)) m
                   else m) by reflexivity.
    rewrite Hd. clear Hd.
    destruct (stale now item) eqn:Es.
    + set (item' := decayed exp now (decayRate m) item).
      destruct (expired item') eqn:Ex.
      * (* decayed and purged *)
        specialize (IH pre
          (forget k (withLongTerm (JsMap.set k item' (longTerm m)) m))).
        cbv zeta in IH.
        destruct IH as (L & C & S & E).
        { cbn [longTerm forget withLongTerm]. rewrite HL.
          rewrite set_middle by exact Hpre.
          apply delete_middle; assumption. }
        { rewrite keys_app in *. cbn [JsMap.keys map fst] in HN.
          apply NoDup_remove_1 in HN. exact HN. }
        split; [exact L|]. split; [|split; assumption].
        eapply sameConfig_trans; [|exact C]. repeat split.
      * (* decayed and kept *)
        specialize (IH (pre ++ [(k, item')])
          (withLongTerm (JsMap.set k item' (longTerm m)) m)).
        cbv zeta in IH.
        destruct IH as (L & C & S & E).
        { cbn [longTerm withLongTerm]. rewrite HL.
          rewrite set_middle by exact Hpre.
          rewrite <- app_assoc. reflexivity. }
        { rewrite <- app_assoc. cbn [app].
          rewrite keys_app in *. exact HN. }
        split; [rewrite L, <- app_assoc; reflexivity|].
        split; [|split; assumption].
        eapply sameConfig_trans; [|exact C]. repeat split.
    + specialize (IH (pre ++ [(k, item)]) m). cbv zeta in IH.
      destruct IH as (L & C & S & E).
      { rewrite HL, <- app_assoc. reflexivity. }
      { rewrite <- app_assoc. exact HN. }
      split; [rewrite L, <- app_assoc; reflexivity|].
      split; [exact C | split; assumption].
Qed.

Lemma applyDecay_spec m :
  NoDup (JsMap.keys (longTerm m)) ->
  let m' := applyDecay exp now m in
  longTerm m' = flat_map (Wf.decayOutcome exp now (decayRate m)) (longTerm m)
  /\ Wf.sameConfig m m'
  /\ shortTerm m' = shortTerm m
  /\ episodic m' = episodic m.
Proof.
  intro H. apply (decay_loop (longTerm m) [] m); [reflexivity | exact H].
Qed.

Lemma outcome_size rate l :
  (List.length (flat_map (Wf.decayOutcome exp now rate) l) <= List.length l)%nat.
Proof.
  induction l as [|e l IH]; cbn [flat_map List.length]; [lia|].
  rewrite length_app. unfold Wf.decayOutcome at 1.
  destruct (stale now (snd e)); [destruct (expired _)|];
    cbn [List.length]; lia.
Qed.

Lemma outcome_keys_in rate l k :
  In k (JsMap.keys (flat_map (Wf.decayOutcome exp now rate) l)) ->
  In k (JsMap.keys l).
Proof.
  induction l as [|e l IH]; cbn [flat_map]; [auto|].
  rewrite keys_app. cbn [JsMap.keys map In]. intro H.
  apply in_app_or in H. destruct H as [H|H]; [|right; apply IH, H].
  left. unfold Wf.decayOutcome in H.
  destruct (stale now (snd e)); [destruct (expired _)|];
    cbn [JsMap.keys map fst In] in H; tauto.
Qed.

Lemma outcome_keys_nodup rate l :
  NoDup (JsMap.keys l) ->
  NoDup (JsMap.keys (flat_map (Wf.decayOutcome exp now rate) l)).
Proof.
  induction l as [|e l IH]; cbn [flat_map]; [auto|].
  cbn [JsMap.keys map]. intro H. inversion H as [|? ? Hnot Hnd]; subst.
  rewrite keys_app. apply NoDup_app.
  - unfold Wf.decayOutcome.
    destruct (stale now (snd e)); [destruct (expired _)|];
      cbn [JsMap.keys map]; repeat constructor; intros [].
  - apply IH, Hnd.
  - intros k Hk Hk'. apply outcome_keys_in in Hk'.
    unfold Wf.decayOutcome in Hk.
    destruct (stale now (snd e)); [destruct (expired _)|];
      cbn [JsMap.keys map fst In] in Hk;
      try tauto; destruct Hk as [<-|[]]; exact (Hnot Hk').
Qed.

(** The fate of the entry under [k]. *)
Lemma outcome_get rate l k :
  NoDup (JsMap.keys l) ->
  JsMap.get k (flat_map (Wf.decayOutcome exp now rate) l)
  = match JsMap.get k l with
    | Some item => JsMap.get k (Wf.decayOutcome exp now rate (k, item))
    | None => None
    end.
Proof.
  induction l as [|[k' item'] l IH]; cbn [flat_map JsMap.get]; [reflexivity|].
  cbn [JsMap.keys map fst]. intro H. inversion H as [|? ? Hnot Hnd]; subst.
  destruct (String.eqb k k') eqn:E.
  - apply String.eqb_eq in E. subst k'.
    assert (Hn : JsMap.get k (flat_map (Wf.decayOutcome exp now rate) l) = None).
    { apply get_none_keys. intro Hin. apply Hnot.
      eapply outcome_keys_in, Hin. }
    unfold Wf.decayOutcome at 1 3. cbn [fst snd].
    destruct (stale now item'); [destruct (expired _)|];
      cbn [app JsMap.get]; rewrite ?String.eqb_refl; auto.
  - rewrite <- IH by exact Hnd.
    unfold Wf.decayOutcome at 1. cbn [fst snd].
    destruct (stale now item'); [destruct (expired _)|];
      cbn [app JsMap.get]; rewrite ?E; reflexivity.
Qed.

Lemma applyDecay_size m :
  NoDup (JsMap.keys (longTerm m)) ->
  (JsMap.size (longTerm (applyDecay exp now m)) <= JsMap.size (longTerm m))%nat.
Proof.
  intro H. destruct (applyDecay_spec m H) as (L & _). rewrite L.
  apply outcome_size.
Qed.

Lemma applyDecay_keys m :
  NoDup (JsMap.keys (longTerm m)) ->
  NoDup (JsMap.keys (longTerm (applyDecay exp now m))).
Proof.
  intro H. destruct (applyDecay_spec m H) as (L & _). rewrite L.
  apply outcome_keys_nodup, H.
Qed.

End Decay.

(** ** The capacity invariant *)

Section CapacityInvariant.
Import Memory Session.
Variable exp : Q -> Q.

Lemma bounded_transport m m' :
  Wf.sameConfig m m' ->
  (List.length (shortTerm m') <= shortTermCapacity m)%nat ->
  (JsMap.size (longTerm m') <= longTermCapacity m)%nat ->
  (List.length (episodic m') <= episodicCapacity m)%nat ->
  Wf.bounded m'.
Proof.
  intros (C1 & C2 & C3 & _) S L E.
  constructor; [rewrite C1 | rewrite C2 | rewrite C3]; assumption.
Qed.

Lemma step_tidy m op :
  Wf.bounded m -> NoDup (JsMap.keys (longTerm m)) ->
  Wf.sameConfig m (step exp m op)
  /\ Wf.bounded (step exp m op)
  /\ NoDup (JsMap.keys (longTerm (step exp m op))).
Proof.
  intros [Bs Bl Be] Hk.
  destruct op as [t id item|t key value imp|t id ev|t q ty|t]; cbn [step].
  - destruct (addToShortTerm_frame t id item m) as (C & E).
    split; [exact C|]. split; [|apply addToShortTerm_keys, Hk].
    apply (bounded_transport m); [exact C | | |].
    + apply addToShortTerm_short, Bs.
    + apply addToShortTerm_long, Bl.
    + rewrite E. exact Be.
  - destruct (addToLongTerm_frame t key value imp m) as (C & S & E).
    split; [exact C|]. split; [|apply addToLongTerm_keys, Hk].
    apply (bounded_transport m); [exact C | | |].
    + rewrite S. exact Bs.
    + apply addToLongTerm_size.
    + rewrite E. exact Be.
  - destruct (addEpisodic_frame t id ev m) as (C & S & L).
    split; [exact C|]. split; [|rewrite L; exact Hk].
    apply (bounded_transport m); [exact C | | |].
    + rewrite S. exact Bs.
    + rewrite L. exact Bl.
    + apply addEpisodic_bound, Be.
  - destruct (recall_frame t q ty m) as (C & S & L & E).
    split; [exact C|]. split; [|rewrite L; exact Hk].
    apply (bounded_transport m); [exact C | | |].
    + rewrite S. exact Bs.
    + rewrite L. exact Bl.
    + rewrite E. exact Be.
  - destruct (applyDecay_spec exp t m Hk) as (_ & C & S & E).
    split; [exact C|]. split; [|apply applyDecay_keys, Hk].
    apply (bounded_transport m); [exact C | | |].
    + rewrite S. exact Bs.
    + eapply Nat.le_trans; [apply applyDecay_size, Hk | exact Bl].
    + rewrite E. exact Be.
Qed.

Lemma run_tidy ops : forall m,
  Wf.bounded m -> NoDup (JsMap.keys (longTerm m)) ->
  Wf.sameConfig m (run exp ops m)
  /\ Wf.bounded (run exp ops m)
  /\ NoDup (JsMap.keys (longTerm (run exp ops m))).
Proof.
  induction ops as [|op ops IH]; intros m B K; cbn [run fold_left].
  - split; [apply sameConfig_refl | split; assumption].
  - destruct (step_tidy m op B K) as (C & B' & K').
    destruct (IH _ B' K') as (C'' & B'' & K'').
    split; [eapply sameConfig_trans; eassumption | split; assumption].
Qed.

Lemma new_tidy cfg :
  Wf.bounded (new cfg) /\ NoDup (JsMap.keys (longTerm (new cfg))).
Proof.
  split; [constructor; cbn; lia | constructor].
Qed.

(** C1, as the code has it. After any sequence of calls on a new memory,
    every tier is within its capacity, the capacity being the configured
    one when that is positive and the default (10, 1000, 500) when it is
    absent or 0. *)
Theorem C1_capacity_invariant (cfg : Config) (ops : list Op) :
  let m := run exp ops (new cfg) in
  (List.length (shortTerm m) <= orDefault (cfg_shortTermCapacity cfg) 10)%nat
  /\ (JsMap.size (longTerm m) <= orDefault (cfg_longTermCapacity cfg) 1000)%nat
  /\ (List.length (episodic m) <= orDefault (cfg_episodicCapacity cfg) 500)%nat
  /\ (forall c d, orDefault (Some (S c)) d = S c)
  /\ (forall d, orDefault (Some O) d = d /\ orDefault None d = d).
Proof.
  cbv zeta. destruct (new_tidy cfg) as (B & K).
  destruct (run_tidy ops (new cfg) B K) as ((C1 & C2 & C3 & _) & [Bs Bl Be] & _).
  rewrite C1 in Bs. rewrite C2 in Bl. rewrite C3 in Be.
  repeat split; assumption.
Qed.

End CapacityInvariant.

Section CapacityCounterexample.
Import Memory Session.

(** C1, counterexample: with every capacity configured as 0, one call of
    each kind leaves one element in each tier. *)
Lemma C1_configured_zero_exceeded :
  ~ (forall (s l e : nat) (ops : list Op),
       let m := run (fun _ => 1) ops
                    (new (mkConfig (Some s) (Some l) (Some e))) in
       (List.length (shortTerm m) <= s)%nat
       /\ (JsMap.size (longTerm m) <= l)%nat
       /\ (List.length (episodic m) <= e)%nat).
Proof.
  intro H.
  specialize (H 0%nat 0%nat 0%nat
                [AddToShortTerm 0 "a" (JsStr "x");
                 AddToLongTerm 0 "k" (JsStr "v") (1 # 2);
                 AddEpisodicMemory 0 "e" (JsStr "y")]).
  vm_compute in H. destruct H as (H & _). inversion H.
Qed.

End CapacityCounterexample.

(** ** Eviction and promotion *)

Section Promotion.
Import Memory Session.

Lemma set_last {V} k (v v0 : V) l :
  JsMap.get k l = None ->
  JsMap.set k v (l ++ [(k, v0)]) = l ++ [(k, v)].
Proof.
  intro H. apply set_middle. apply get_none_keys, H.
Qed.

Lemma get_last {V} k (v : V) l :
  JsMap.get k l = None -> JsMap.get k (l ++ [(k, v)]) = Some v.
Proof.
  intro H. rewrite <- (set_fresh k v l H). apply get_set_same.
Qed.

(** Promotion into a store with room, under a key not in use. *)
Lemma consolidate_room now item m :
  JsMap.get ("consolidated_" ++ s_id item)%string (longTerm m) = None ->
  (JsMap.size (longTerm m) < longTermCapacity m)%nat ->
  longTerm (consolidateToLongTerm now item m)
  = longTerm m
    ++ [(("consolidated_" ++ s_id item)%string,
         mkLong (s_content item) (s_importance item) now 0 now true)].
Proof.
  intros Hfresh Hroom. unfold consolidateToLongTerm, addToLongTerm. cbn [snd].
  rewrite manage_room.
  - cbn [longTerm withWeights withLongTerm].
    rewrite (set_fresh _ _ _ Hfresh), (get_last _ _ _ Hfresh).
    cbn [longTerm withWeights withLongTerm].
    rewrite (set_last _ _ _ _ Hfresh). reflexivity.
  - cbn [longTerm longTermCapacity withWeights withLongTerm].
    rewrite (set_fresh _ _ _ Hfresh). unfold JsMap.size in *.
    rewrite length_app. cbn [List.length]. lia.
Qed.

(** C2, as the code has it. With the short-term buffer at capacity, one
    more [addToShortTerm] removes exactly the oldest item. If its
    importance is at most 0.7 the long-term store is left as it was. If
    it is above 0.7 and the long-term store has room for one more entry
    under a key not in use, exactly one entry is appended, a copy of the
    evicted item flagged [consolidated]. *)
Theorem C2_eviction_and_promotion now id item m :
  List.length (shortTerm m) = shortTermCapacity m ->
  let added := mkShort item now (calculateImportance item) id in
  let m' := snd (addToShortTerm now id item m) in
  exists removed rest,
    shortTerm m ++ [added] = removed :: rest
    /\ shortTerm m' = rest
    /\ (s_importance removed <= 7 # 10 -> longTerm m' = longTerm m)
    /\ (7 # 10 < s_importance removed ->
        JsMap.get ("consolidated_" ++ s_id removed)%string (longTerm m) = None ->
        (JsMap.size (longTerm m) < longTermCapacity m)%nat ->
        longTerm m'
        = longTerm m
          ++ [(("consolidated_" ++ s_id removed)%string,
               mkLong (s_content removed) (s_importance removed)
                      now 0 now true)]).
Proof.
  intro Hfull. cbv zeta. unfold addToShortTerm.
  assert (L : List.length
                (shortTerm m ++ [mkShort item now (calculateImportance item) id])
              = S (shortTermCapacity m))
    by (rewrite length_app, Hfull; cbn [List.length]; lia).
  rewrite L.
  assert (E : (shortTermCapacity m <? S (shortTermCapacity m))%nat = true)
    by (apply Nat.ltb_lt; lia).
  rewrite E.
  destruct (shortTerm m ++ _) as [|removed rest]; [discriminate L|].
  exists removed, rest. split; [reflexivity|].
  destruct (Qltb (7 # 10) (s_importance removed)) eqn:Ei; cbn [snd].
  - apply Qltb_lt in Ei.
    destruct (consolidate_frame now removed (withShortTerm rest m))
      as (_ & S & _).
    split; [rewrite S; reflexivity|]. split.
    + intro Hle. exfalso. apply (Qlt_not_le _ _ Ei Hle).
    + intros _ Hfresh Hroom.
      apply (consolidate_room now removed (withShortTerm rest m));
        assumption.
  - apply Qltb_ge in Ei.
    split; [reflexivity|]. split; [reflexivity|].
    intro Hgt. exfalso. apply (Qlt_not_le _ _ Hgt Ei).
Qed.

Lemma C2_eviction_and_promotion_witness :
  longTerm (snd (addToShortTerm 1020 "id2" (JsStr "b") Scenario.roomy))
  = longTerm Scenario.roomy
    ++ [("consolidated_id1",
         mkLong (JsStr "important note") (16 # 20) 1020 0 1020 true)].
Proof.
  destruct (C2_eviction_and_promotion 1020 "id2" (JsStr "b") Scenario.roomy
              eq_refl) as (removed & rest & Hpush & _ & _ & Hpromote).
  vm_compute in Hpush. inversion Hpush; subst removed rest.
  apply Hpromote; [reflexivity | reflexivity | vm_compute; lia].
Defined.

(** C2, counterexample: the buffer is at capacity and the evicted item
    has importance 0.8, but the long-term store is full of a weightier
    entry, so capacity management removes the promoted copy at once and
    no entry is created. *)
Lemma C2_full_store_creates_no_entry :
  ~ (forall now id item m,
       List.length (shortTerm m) = shortTermCapacity m ->
       forall removed rest,
         shortTerm m ++ [mkShort item now (calculateImportance item) id]
         = removed :: rest ->
         7 # 10 < s_importance removed ->
         exists key entry,
           JsMap.get key (longTerm m) = None
           /\ JsMap.get key (longTerm (snd (addToShortTerm now id item m)))
              = Some entry
           /\ consolidated entry = true).
Proof.
  intro H.
  destruct (H 1020%Z "id2" (JsStr "b") Scenario.crowded eq_refl
              (mkShort (JsStr "important note") 1010 (16 # 20) "id1")
              [mkShort (JsStr "b") 1020 (1 # 2) "id2"]
              eq_refl eq_refl)
    as (key & entry & Hnew & Hget & _).
  assert (E : longTerm (snd (addToShortTerm 1020 "id2" (JsStr "b")
                                            Scenario.crowded))
              = longTerm Scenario.crowded) by reflexivity.
  rewrite E in Hget. congruence.
Qed.

End Promotion.

(** ** Decay never raises an importance *)

Section DecayMonotone.
Import Memory Session.
Variable exp : Q -> Q.

(** What is used of [Math.exp]: on a non-positive argument its value lies
    between 0 and 1. *)
Hypothesis exp_unit : forall x, x <= 0 -> 0 <= exp x <= 1.

Lemma decay_factor now rate item :
  0 <= rate -> stale now item = true ->
  0 <= exp (- rate * (inject_Z (now - lastAccess item)
                      / inject_Z decayThreshold)) <= 1.
Proof.
  intros Hr Hs. apply exp_unit.
  unfold stale in Hs. apply Z.ltb_lt in Hs.
  assert (Hd : 0 < inject_Z decayThreshold) by reflexivity.
  assert (Hn : 0 <= inject_Z (now - lastAccess item)).
  { change 0 with (inject_Z 0). rewrite <- Zle_Qle.
    unfold decayThreshold in Hs. lia. }
  assert (Hq : 0 <= inject_Z (now - lastAccess item) / inject_Z decayThreshold).
  { apply Qle_shift_div_l; [exact Hd|]. lra. }
  pose proof (Qmult_le_0_compat _ _ Hr Hq) as Hp.
  lra.
Qed.

Lemma decayed_importance now rate item :
  importance (decayed exp now rate item)
  = importance item
    * exp (- rate * (inject_Z (now - lastAccess item)
                     / inject_Z decayThreshold)).
Proof. reflexivity. Qed.

Lemma decayed_consolidated now rate item :
  consolidated (decayed exp now rate item) = consolidated item.
Proof. reflexivity. Qed.

Lemma scale_down (x f : Q) : 0 <= x -> 0 <= f <= 1 -> 0 <= x * f <= x.
Proof.
  intros Hx [Hf0 Hf1]. split.
  - apply Qmult_le_0_compat; assumption.
  - setoid_replace x with (x * 1) at 2 by ring.
    rewrite (Qmult_comm x f), (Qmult_comm x 1).
    apply Qmult_le_compat_r; assumption.
Qed.

Lemma scale_negative (x f : Q) : x <= 0 -> 0 <= f -> x * f <= 0.
Proof.
  intros Hx Hf.
  assert (H : 0 <= (- x) * f) by (apply Qmult_le_0_compat; lra).
  setoid_replace (x * f) with (- ((- x) * f)) by ring. lra.
Qed.

(** An entry that survives [applyDecay] has not gained importance. *)
Lemma outcome_monotone now rate k item item' :
  0 <= rate ->
  Wf.consolidatedNonneg (k, item) ->
  JsMap.get k (Wf.decayOutcome exp now rate (k, item)) = Some item' ->
  importance item' <= importance item.
Proof.
  intros Hr Hc. unfold Wf.decayOutcome. cbn [fst snd].
  destruct (stale now item) eqn:Es.
  - destruct (expired (decayed exp now rate item)) eqn:Ex;
      cbn [JsMap.get]; [discriminate|].
    rewrite String.eqb_refl. intro H. inversion H; subst item'. clear H.
    pose proof (decay_factor now rate item Hr Es) as Hf.
    rewrite decayed_importance.
    destruct (Qlt_le_dec (importance item) 0) as [Hneg|Hpos].
    + (* a negative importance would have been purged *)
      exfalso. unfold expired in Ex.
      rewrite decayed_importance, decayed_consolidated in Ex.
      apply andb_false_iff in Ex. destruct Ex as [Ex|Ex].
      * apply Qltb_ge in Ex.
        assert (Hn : importance item * exp (- rate *
                       (inject_Z (now - lastAccess item)
                        / inject_Z decayThreshold)) <= 0)
          by (apply scale_negative; [lra | apply Hf]).
        lra.
      * apply negb_false_iff in Ex. specialize (Hc Ex). cbn [snd] in Hc. lra.
    + apply scale_down; assumption.
  - cbn [JsMap.get]. rewrite String.eqb_refl. intro H.
    inversion H; subst. apply Qle_refl.
Qed.

Lemma outcome_nonneg now rate l :
  0 <= rate ->
  Forall Wf.consolidatedNonneg l ->
  Forall Wf.consolidatedNonneg (flat_map (Wf.decayOutcome exp now rate) l).
Proof.
  intros Hr H. induction H as [|[k item] l Hx Hl IH]; cbn [flat_map].
  - constructor.
  - apply Forall_app. split; [|exact IH].
    unfold Wf.decayOutcome. cbn [fst snd].
    destruct (stale now item) eqn:Es;
      [destruct (expired _)|]; repeat constructor; [|exact Hx].
    unfold Wf.consolidatedNonneg in *. cbn [snd] in *.
    rewrite decayed_consolidated, decayed_importance. intro Hc.
    apply scale_down; [apply Hx, Hc | apply decay_factor; assumption].
Qed.

Lemma rate_nonneg m : Wf.ok m -> 0 <= decayRate m.
Proof. intros [_ R _]. rewrite R. discriminate. Qed.

Lemma applyDecay_ok now m : Wf.ok m -> Wf.ok (applyDecay exp now m).
Proof.
  intro H. pose proof (rate_nonneg m H) as Hr. destruct H as [K R C].
  destruct (applyDecay_spec exp now m K) as (L & (_ & _ & _ & R' & _) & _).
  constructor.
  - apply applyDecay_keys, K.
  - congruence.
  - rewrite L. apply outcome_nonneg; assumption.
Qed.

Lemma step_ok m op : Wf.bounded m -> Wf.ok m -> Wf.ok (step exp m op).
Proof.
  intros B H.
  destruct (step_tidy exp m op B (Wf.ok_keys m H)) as ((_ & _ & _ & R & _) & _ & K).
  destruct op as [t id item|t key value imp|t id ev|t q ty|t];
    try (apply applyDecay_ok; exact H);
    constructor; try exact K; try (rewrite R; apply (Wf.ok_rate m H));
    cbn [step].
  - apply addToShortTerm_nonneg, (Wf.ok_consolidated m H).
  - apply addToLongTerm_Forall; [apply (Wf.ok_consolidated m H)|].
    intro D. discriminate D.
  - destruct (addEpisodic_frame t id ev m) as (_ & _ & L).
    rewrite L. apply (Wf.ok_consolidated m H).
  - destruct (recall_frame t q ty m) as (_ & _ & L & _).
    rewrite L. apply (Wf.ok_consolidated m H).
Qed.

Lemma run_ok ops : forall m,
  Wf.bounded m -> Wf.ok m -> Wf.ok (run exp ops m).
Proof.
  induction ops as [|op ops IH]; intros m B H; cbn [run fold_left]; [exact H|].
  apply IH.
  - apply (step_tidy exp m op B (Wf.ok_keys m H)).
  - apply step_ok; assumption.
Qed.

Lemma new_ok cfg : Wf.ok (new cfg).
Proof. constructor; [constructor | reflexivity | constructor]. Qed.

Lemma decay_once now m k item' :
  Wf.ok m ->
  JsMap.get k (longTerm (applyDecay exp now m)) = Some item' ->
  exists item,
    JsMap.get k (longTerm m) = Some item
    /\ importance item' <= importance item.
Proof.
  intros H Hget. pose proof (rate_nonneg m H) as Hr.
  destruct (applyDecay_spec exp now m (Wf.ok_keys m H)) as (L & _).
  rewrite L, outcome_get in Hget by apply (Wf.ok_keys m H).
  destruct (JsMap.get k (longTerm m)) as [item|] eqn:E; [|discriminate].
  exists item. split; [reflexivity|].
  apply (outcome_monotone now (decayRate m) k); [exact Hr | | exact Hget].
  pose proof (Wf.ok_consolidated m H) as C.
  rewrite Forall_forall in C. apply C. apply get_In, E.
Qed.

Lemma decays_monotone times : forall m k item',
  Wf.ok m ->
  JsMap.get k (longTerm (decays exp times m)) = Some item' ->
  exists item,
    JsMap.get k (longTerm m) = Some item
    /\ importance item' <= importance item.
Proof.
  induction times as [|t times IH]; intros m k item' H Hget;
    cbn [decays fold_left] in Hget.
  - exists item'. split; [exact Hget | apply Qle_refl].
  - destruct (IH _ k item' (applyDecay_ok t m H) Hget) as (mid & Hmid & Hle).
    destruct (decay_once t m k mid H Hmid) as (item & Hitem & Hle').
    exists item. split; [exact Hitem | lra].
Qed.

Lemma decay_purges now m k item :
  Wf.ok m ->
  JsMap.get k (longTerm m) = Some item ->
  stale now item = true ->
  expired (decayed exp now (decayRate m) item) = true ->
  JsMap.get k (longTerm (applyDecay exp now m)) = None.
Proof.
  intros H Hget Hs Hx.
  destruct (applyDecay_spec exp now m (Wf.ok_keys m H)) as (L & _).
  rewrite L, outcome_get, Hget by apply (Wf.ok_keys m H).
  unfold Wf.decayOutcome. cbn [fst snd]. rewrite Hs, Hx. reflexivity.
Qed.

(** C10. In any memory reached from a new one by public calls, however
    often [applyDecay] is then repeated, an entry still in the long-term
    store has an importance no greater than before; and one call of
    [applyDecay] removes every entry that is past the 24-hour horizon,
    whose decayed importance is below 0.1 and which is not consolidated. *)
Theorem C10_decay_monotone (cfg : Config) (ops : list Op) :
  let m := run exp ops (new cfg) in
  (forall times k item',
     JsMap.get k (longTerm (decays exp times m)) = Some item' ->
     exists item,
       JsMap.get k (longTerm m) = Some item
       /\ importance item' <= importance item)
  /\ (forall now k item,
        JsMap.get k (longTerm m) = Some item ->
        (decayThreshold < now - lastAccess item)%Z ->
        importance item
        * exp (- decayRate m * (inject_Z (now - lastAccess item)
                                / inject_Z decayThreshold)) < 1 # 10 ->
        consolidated item = false ->
        JsMap.get k (longTerm (applyDecay exp now m)) = None).
Proof.
  cbv zeta.
  assert (H : Wf.ok (run exp ops (new cfg)))
    by (apply run_ok; [apply new_tidy | apply new_ok]).
  split.
  - intros times k item'. apply decays_monotone, H.
  - intros now k item Hget Hs Hlow Hc.
    apply (decay_purges now _ k item H Hget).
    + apply Z.ltb_lt, Hs.
    + unfold expired. rewrite decayed_importance, decayed_consolidated, Hc.
      apply andb_true_iff. split; [apply Qltb_lt, Hlow | reflexivity].
Qed.

End DecayMonotone.

Section DecayWitness.
Import Memory Session.

(** A stand-in for [Math.exp] that halves at every call. *)
Lemma half_unit : forall x : Q, x <= 0 -> 0 <= 1 # 2 <= 1.
Proof. intros x _. split; discriminate. Qed.

Lemma C10_decay_monotone_witness :
  let halving := fun _ : Q => 1 # 2 in
  let m := run halving
               [AddToLongTerm 0 "k" (JsStr "hello") (1 # 2);
                AddToLongTerm 0 "j" (JsStr "bye") (1 # 10)]
               (new (mkConfig None None None)) in
  (exists item,
     JsMap.get "k" (longTerm m) = Some item /\ 1 # 4 <= importance item)
  /\ JsMap.get "j" (longTerm (applyDecay halving 172800000 m)) = None.
Proof.
  cbv zeta.
  destruct (C10_decay_monotone (fun _ => 1 # 2)
              half_unit
              (mkConfig None None None)
              [AddToLongTerm 0 "k" (JsStr "hello") (1 # 2);
               AddToLongTerm 0 "j" (JsStr "bye") (1 # 10)])
    as (Hmono & Hpurge).
  split.
  - apply (Hmono [172800000%Z] "k"
                 (mkLong (JsStr "hello") ((1 # 2) * (1 # 2)) 0 0 0 false)).
    reflexivity.
  - apply (Hpurge 172800000%Z "j" (mkLong (JsStr "bye") (1 # 10) 0 0 0 false));
      reflexivity.
Defined.

End DecayWitness.

(** ** Rule application *)

Section RuleApplication.
Import ReasoningEngine.

(** C7, the failing call: the lazy last group of the expression built
    from ["if {A} then {B}"] stops after one character, so on
    ["if rain then wet"] the built-in rule [modus_ponens] concludes
    ["w"], with confidence 0.9. *)
Theorem C7_modus_ponens_concludes_w now m :
  exists rule,
    JsMap.get "modus_ponens" (rules (new now m)) = Some rule
    /\ pattern rule = ["if {A} then {B}"; "{A}"]
    /\ conclusion rule = "{B}"
    /\ confidence rule = 9 # 10
    /\ extractVariables "if rain then wet" "if {A} then {B}"
       = Ok (Some [("A", "rain"); ("B", "w")])
    /\ option_map fst (applyRule "if rain then wet" rule)
       = Some {| d_content := "w"; d_confidence := 9 # 10;
                 d_rule := "modus_ponens" |}.
Proof.
  eexists. split; [reflexivity|]. repeat split.
Qed.

End RuleApplication.

(** ** Forward chaining *)

Section ChainingInduction.
Import ReasoningEngine.
Variable matchesFn : string -> Rule -> bool.
Variable applyFn : string -> Rule -> option (Derived * Rule).

(** A property of the rules and the chain that every rule application at
    a depth between [lo] and [hi] preserves. *)
Variable P : JsMap.t Rule * Chain -> Prop.
Variables lo hi : nat.
Hypothesis P_fire : forall st ruleName rule concl rule' q d,
  (lo <= d < hi)%nat ->
  P st ->
  JsMap.get ruleName (fst st) = Some rule ->
  applyFn q rule = Some (concl, rule') ->
  P (JsMap.set ruleName rule' (fst st),
     merge (JsStr (d_content concl)) (d_confidence concl)
           (pushStep (RuleApplication ruleName (d_content concl)
                                      (d_confidence concl) d) (snd st))).

Lemma applyRulesGap_preserves gap : forall q depth st,
  (lo <= depth)%nat -> (depth + gap <= hi)%nat ->
  P st -> P (applyRulesGap matchesFn applyFn gap q depth st).
Proof.
  induction gap as [|gap IH]; intros q depth st Hlo Hhi HP;
    cbn [applyRulesGap]; [exact HP|].
  generalize (JsMap.keys (fst st)). intro names.
  revert st HP. induction names as [|nm names IHn]; intros st HP;
    cbn [fold_left]; [exact HP|].
  apply IHn. unfold tryRule.
  destruct (JsMap.get nm (fst st)) as [rule|] eqn:Eg; [|exact HP].
  destruct (matchesFn q rule); [|exact HP].
  destruct (applyFn q rule) as [[concl rule']|] eqn:Ea; [|exact HP].
  apply IH; [lia | lia |].
  apply (P_fire st nm rule concl rule' q depth); auto. lia.
Qed.

End ChainingInduction.

Section DepthBound.
Import ReasoningEngine.
Variable matchesFn : string -> Rule -> bool.
Variable applyFn : string -> Rule -> option (Derived * Rule).

Lemma steps_merge v conf c : steps (merge v conf c) = steps c.
Proof. unfold merge. destruct (existsb _ _); reflexivity. Qed.

(** The steps recorded since [before], all of them rule applications at
    a depth between [lo] and [hi]. *)
Lemma applyRulesGap_depths gap q depth (st : JsMap.t Rule * Chain) :
  exists added,
    steps (snd (applyRulesGap matchesFn applyFn gap q depth st))
    = steps (snd st) ++ added
    /\ Forall (fun s => exists d, Trace.stepDepth s = Some d
                                  /\ (depth <= d < depth + gap)%nat) added.
Proof.
  apply (applyRulesGap_preserves matchesFn applyFn
           (fun st' => exists added,
              steps (snd st') = steps (snd st) ++ added
              /\ Forall (fun s => exists d, Trace.stepDepth s = Some d
                                  /\ (depth <= d < depth + gap)%nat) added)
           depth (depth + gap)%nat); try lia.
  - intros st' nm rule concl rule' q' d Hd (added & Hs & Hf) _ _.
    exists (added ++ [RuleApplication nm (d_content concl)
                                      (d_confidence concl) d]).
    cbn [snd]. rewrite steps_merge. cbn [steps pushStep].
    rewrite Hs, app_assoc. split; [reflexivity|].
    apply Forall_app. split; [exact Hf|].
    constructor; [|constructor]. exists d. split; [reflexivity | exact Hd].
  - exists []. rewrite app_nil_r. split; [reflexivity | constructor].
Qed.

(** C5. Whatever the rules and whatever the regular-expression engine
    answers, [applyRules] with [maxDepth = D] is a total function; every
    rule application it records happened at a depth below [D] (and not
    below the depth it was called at), and a call at depth [D] or beyond
    returns at once, leaving rules and chain as they were. *)
Theorem C5_applyRules_depth_bound q chain depth D rs k :
  (exists added,
     steps (snd (applyRulesWith matchesFn applyFn q chain depth D rs))
     = steps chain ++ added
     /\ Forall (fun s => exists d, Trace.stepDepth s = Some d
                                   /\ (depth <= d < D)%nat) added)
  /\ applyRulesWith matchesFn applyFn q chain (D + k) D rs = (rs, chain).
Proof.
  split.
  - unfold applyRulesWith.
    destruct (applyRulesGap_depths (D - depth) q depth (rs, chain))
      as (added & Hs & Hf).
    exists added. split; [exact Hs|].
    eapply Forall_impl; [|exact Hf].
    intros s (d & Hd & Hr). exists d. split; [exact Hd | lia].
  - unfold applyRulesWith.
    replace (D - (D + k))%nat with 0%nat by lia. reflexivity.
Qed.

End DepthBound.

(** ** The confidence of a trace *)

Section Accounting.
Import ReasoningEngine.

Lemma replay_snoc ss s :
  Trace.replay (ss ++ [s]) = Trace.replayStep (Trace.replay ss) s.
Proof. unfold Trace.replay. rewrite fold_left_app. reflexivity. Qed.

Lemma maxConfidence_snoc qs x :
  0 <= x -> Qmax (Trace.maxConfidence qs) x == Trace.maxConfidence (qs ++ [x]).
Proof.
  intro Hx. destruct qs as [|a r]; cbn [Trace.maxConfidence app].
  - apply Q.max_r, Hx.
  - rewrite fold_left_app. reflexivity.
Qed.

Lemma accounted_start q now :
  Trace.accounted (mkChain q now [] [] 0 None).
Proof. split; reflexivity. Qed.

(** A step that adds its conclusion unless it is already there. *)
Lemma accounted_merge c s v conf :
  (forall acc,
     Trace.replayStep acc s
     = if existsb (sameValue v) (fst acc) then acc
       else (fst acc ++ [v], snd acc ++ [conf])) ->
  0 <= conf ->
  Trace.accounted c ->
  Trace.accounted (merge v conf (pushStep s c)).
Proof.
  intros Hs Hconf [Hc Hq]. unfold Trace.accounted, Trace.contributions in *.
  rewrite steps_merge. cbn [steps pushStep].
  rewrite replay_snoc, Hs.
  unfold merge. cbn [conclusions pushStep]. rewrite Hc.
  destruct (existsb (sameValue v) (conclusions c)).
  - cbn [conclusions chainConfidence pushStep]. split; assumption.
  - cbn [fst snd conclusions chainConfidence conclude pushStep].
    split; [reflexivity|].
    rewrite <- maxConfidence_snoc by exact Hconf.
    apply Q.max_compat; [exact Hq | reflexivity].
Qed.

Lemma applyRule_confidence q rule concl rule' :
  applyRule q rule = Some (concl, rule') ->
  d_confidence concl = confidence rule /\ confidence rule' = confidence rule.
Proof.
  unfold applyRule. destruct (pattern rule) as [|p0 ps]; [discriminate|].
  destruct (extractVariables q p0) as [[[|[v x] vars]|]|]; try discriminate.
  intro H. inversion H; subst. split; reflexivity.
Qed.

Lemma trusted_get rs nm rule :
  Trace.trusted rs -> JsMap.get nm rs = Some rule -> 0 <= confidence rule.
Proof.
  intros H Hg. unfold Trace.trusted in H. rewrite Forall_forall in H.
  apply (H (nm, rule)). apply get_In, Hg.
Qed.

Lemma applyRules_accounted q chain depth D rs :
  Trace.trusted rs -> Trace.accounted chain ->
  Trace.accounted (snd (applyRules q chain depth D rs))
  /\ Trace.trusted (fst (applyRules q chain depth D rs)).
Proof.
  intros Ht Ha. unfold applyRules, applyRulesWith.
  apply (applyRulesGap_preserves matchesRule applyRule
           (fun st => Trace.accounted (snd st) /\ Trace.trusted (fst st))
           depth (depth + (D - depth))%nat); try lia; [|split; assumption].
  intros st nm rule concl rule' q' d _ [Ha' Ht'] Hg Hr.
  destruct (applyRule_confidence _ _ _ _ Hr) as [Ec Er].
  pose proof (trusted_get _ _ _ Ht' Hg) as Hn.
  cbn [fst snd]. split.
  - apply accounted_merge; [intros [cs qs]; reflexivity | | exact Ha'].
    rewrite Ec. exact Hn.
  - apply set_Forall; [exact Ht'|]. cbn [snd]. rewrite Er. exact Hn.
Qed.

Lemma best_relevant now q ty m best rest m' :
  Memory.recall now q ty m = (best :: rest, m') ->
  0 <= Memory.relevance best.
Proof.
  intro H. pose proof (recall_relevant now q ty m) as Hr.
  rewrite H in Hr. cbn [fst] in Hr. inversion Hr; subst. lra.
Qed.

Lemma explainConcept_nonneg now a m :
  0 <= c_confidence (fst (explainConcept now a m)).
Proof.
  unfold explainConcept.
  destruct (Memory.recall now (JsStr a) "all" m) as [[|best rest] m'] eqn:E;
    cbn [fst c_confidence]; [discriminate|].
  eapply best_relevant, E.
Qed.

Lemma provideInstructions_nonneg now a m :
  0 <= c_confidence (fst (provideInstructions now a m)).
Proof.
  unfold provideInstructions.
  destruct (Memory.recall now _ "all" m) as [[|best rest] m'] eqn:E;
    cbn [fst c_confidence]; [discriminate|].
  eapply best_relevant, E.
Qed.

Lemma explainReason_nonneg now a m :
  0 <= c_confidence (fst (explainReason now a m)).
Proof.
  unfold explainReason.
  destruct (Memory.recall now _ "all" m) as [[|best rest] m'] eqn:E;
    cbn [fst c_confidence]; [discriminate|].
  eapply best_relevant, E.
Qed.

Lemma provideTimeInfo_nonneg now a m :
  0 <= c_confidence (fst (provideTimeInfo now a m)).
Proof.
  unfold provideTimeInfo.
  destruct (Memory.recall now _ "all" m) as [[|best rest] m'] eqn:E;
    cbn [fst c_confidence]; [discriminate|].
  eapply best_relevant, E.
Qed.

Lemma runPatterns_accounted ps now q chain m :
  Forall (fun p => forall t a m', 0 <= c_confidence (fst (snd p t a m'))) ps ->
  Trace.accounted chain ->
  Trace.accounted (fst (runPatterns ps now q chain m)).
Proof.
  intros Hps Ha. induction Hps as [|[[lit src] handler] ps Hh Hps IH];
    cbn [runPatterns fst]; [exact Ha|].
  destruct (Template.execTail lit q) as [captured|]; [|exact IH].
  specialize (Hh now captured m). cbn [snd] in Hh.
  destruct (handler now captured m) as [result m'].
  cbn [fst] in *.
  apply accounted_merge; [intros [cs qs]; reflexivity | exact Hh | exact Ha].
Qed.

Lemma patternMatching_accounted now q chain m :
  Trace.accounted chain ->
  Trace.accounted (fst (patternMatching now q chain m)).
Proof.
  apply runPatterns_accounted. unfold patterns.
  repeat constructor; cbn [snd]; intros.
  - apply explainConcept_nonneg.
  - apply provideInstructions_nonneg.
  - apply explainReason_nonneg.
  - apply provideTimeInfo_nonneg.
Qed.

Lemma ratio_nonneg (a b : nat) :
  0 <= inject_Z (Z.of_nat a) / inject_Z (Z.of_nat b).
Proof.
  unfold Qdiv. apply Qmult_le_0_compat.
  - change 0 with (inject_Z 0). rewrite <- Zle_Qle. lia.
  - apply Qinv_le_0_compat.
    change 0 with (inject_Z 0). rewrite <- Zle_Qle. lia.
Qed.

Lemma findAnalogy_nonneg q target text conf :
  findAnalogy q target = Ok (Some (text, conf)) -> 0 <= conf.
Proof.
  unfold findAnalogy. destruct target as [| |tgt|]; try discriminate.
  destruct (filter _ _) as [|tok toks]; [discriminate|].
  intro H. injection H as _ <-.
  exact (ratio_nonneg (List.length (tok :: toks)) _).
Qed.

Lemma accounted_analogy_skip c src text conf :
  Trace.accounted c ->
  someIncludes text (conclusions c) = Ok true ->
  Trace.accounted (pushStep (AnalogicalReasoning src text conf) c).
Proof.
  intros [Hc Hq] Hs. unfold Trace.accounted, Trace.contributions in *.
  cbn [steps conclusions chainConfidence pushStep].
  rewrite replay_snoc.
  destruct (Trace.replay (steps c)) as [cs qs]. cbn [fst snd] in *. subst cs.
  cbn [Trace.replayStep]. rewrite Hs. split; [reflexivity | exact Hq].
Qed.

Lemma accounted_analogy_add c src text conf :
  Trace.accounted c ->
  0 <= conf ->
  someIncludes text (conclusions c) = Ok false ->
  Trace.accounted
    (conclude (JsStr ("Based on analogy: " ++ text)%string)
              (Qmax (chainConfidence c) (conf * (7 # 10)))
              (pushStep (AnalogicalReasoning src text conf) c)).
Proof.
  intros [Hc Hq] Hconf Hs. unfold Trace.accounted, Trace.contributions in *.
  cbn [steps conclusions chainConfidence conclude pushStep].
  rewrite replay_snoc.
  destruct (Trace.replay (steps c)) as [cs qs]. cbn [fst snd] in *. subst cs.
  cbn [Trace.replayStep]. rewrite Hs. cbn [fst snd].
  split; [reflexivity|].
  rewrite <- maxConfidence_snoc
    by (apply Qmult_le_0_compat; [exact Hconf | discriminate]).
  apply Q.max_compat; [exact Hq | reflexivity].
Qed.

Lemma analogies_accounted q mems : forall chain chain',
  Trace.accounted chain ->
  analogies q mems chain = Ok chain' ->
  Trace.accounted chain'.
Proof.
  induction mems as [|mem mems IH]; intros chain chain' Ha H;
    cbn [analogies] in H.
  - inversion H; subst. exact Ha.
  - destruct (findAnalogy q (Memory.r_content mem)) as [[[text conf]|]|] eqn:Ef;
      [| eapply IH; eassumption | discriminate].
    pose proof (findAnalogy_nonneg _ _ _ _ Ef) as Hconf.
    cbn [conclusions chainConfidence pushStep] in H.
    destruct (someIncludes text (conclusions chain)) as [[|]|] eqn:Es;
      [| |discriminate]; apply IH in H; try exact H.
    + apply accounted_analogy_skip; assumption.
    + apply accounted_analogy_add; assumption.
Qed.

Lemma reason_accounted now q D e chain :
  Trace.trusted (rules e) ->
  fst (reason now q D e) = Ok chain ->
  Trace.accounted chain.
Proof.
  intros Ht H. unfold reason in H.
  destruct (findRelevantFacts q e) as [directFacts|]; [|discriminate].
  destruct (Memory.recall now (JsStr q) "all" (memory e))
    as [memoryResults m1].
  match type of H with
  | context [applyRules q ?c 0 D (rules e)] =>
      assert (A2 : Trace.accounted c)
        by (destruct directFacts as [|f fs], memoryResults as [|b bs];
            split; reflexivity);
      destruct (applyRules_accounted q c 0 D (rules e) Ht A2) as [A3 _];
      destruct (applyRules q c 0 D (rules e)) as [rs chain3]
  end.
  cbn [snd] in A3.
  pose proof (patternMatching_accounted now q chain3 m1 A3) as A4.
  destruct (patternMatching now q chain3 m1) as [chain4 m2]. cbn [fst] in A4.
  unfold analogicalReasoning in H.
  destruct (Memory.recall now (JsStr q) "episodic" m2) as [found m3].
  destruct (analogies q _ chain4) as [chain5|] eqn:E5;
    cbn [fst] in H; [|discriminate].
  inversion H; subst chain.
  pose proof (analogies_accounted _ _ _ _ A4 E5) as A5.
  exact A5.
Qed.

(** C4, as the code has it. When no rule has a negative confidence, the
    confidence of the trace that [reason] returns is the maximum of the
    confidences brought by the steps that added a conclusion (0 when
    there is none), and those steps rebuild its list of conclusions. *)
Theorem C4_confidence_is_maximum now q D e chain :
  Trace.trusted (rules e) ->
  fst (reason now q D e) = Ok chain ->
  chainConfidence chain == Trace.maxConfidence (Trace.contributions chain)
  /\ fst (Trace.replay (steps chain)) = conclusions chain.
Proof.
  intros Ht H. destruct (reason_accounted now q D e chain Ht H) as [Hc Hq].
  split; assumption.
Qed.

End Accounting.

Section AccountingExamples.
Import ReasoningEngine.

Lemma builtin_trusted : Trace.trusted (rules Scenario.builtin).
Proof. repeat constructor; discriminate. Qed.

Lemma C4_confidence_is_maximum_witness :
  exists chain,
    fst (reason 5 "if rain then wet" 3 Scenario.builtin) = Ok chain
    /\ Trace.contributions chain = [9 # 10; 85 # 100]
    /\ chainConfidence chain == 9 # 10
    /\ ~ chainConfidence chain
         == Trace.sumConfidence (Trace.contributions chain).
Proof.
  assert (E : exists chain,
            fst (reason 5 "if rain then wet" 3 Scenario.builtin) = Ok chain)
    by (vm_compute; eexists; reflexivity).
  destruct E as [chain E]. exists chain.
  destruct (C4_confidence_is_maximum 5 "if rain then wet" 3 Scenario.builtin
              chain builtin_trusted E) as [Hmax _].
  split; [exact E|].
  vm_compute in E. injection E as <-.
  split; [reflexivity|].
  split; [exact Hmax | discriminate].
Defined.

(** C4, counterexample: a rule added with confidence -0.5 is the only one
    to fire; the one conclusion of the trace was brought with -0.5, and
    the confidence of the trace is 0. *)
Lemma C4_negative_rule_confidence :
  ~ (forall now q D e chain,
       fst (reason now q D e) = Ok chain ->
       chainConfidence chain
       == Trace.maxConfidence (Trace.contributions chain)).
Proof.
  intro H.
  assert (E : fst (reason 5 "loop abc" 3 (Scenario.looping (- (1 # 2))))
              = Ok {| query := "loop abc"; startTime := 5;
                      steps := [RuleApplication "loop" "loop a" (-1 # 2) 0;
                                RuleApplication "loop" "loop a" (-1 # 2) 1;
                                RuleApplication "loop" "loop a" (-1 # 2) 2];
                      conclusions := [JsStr "loop a"];
                      chainConfidence := 0;
                      endTime := Some 5%Z |})
    by (vm_compute; reflexivity).
  apply H in E. vm_compute in E. discriminate E.
Qed.

(** A rule that matches its own conclusion fires once per level, at the
    depths 0, 1, 2 and 3 when [maxDepth] is 4, and no deeper. *)
Example looping_rule_stops :
  map Trace.stepDepth
      (steps (snd (applyRules "loop abc" (mkChain "loop abc" 0 [] [] 0 None)
                              0 4 (rules (Scenario.looping (1 # 2))))))
  = [Some 0; Some 1; Some 2; Some 3]%nat.
Proof. vm_compute. reflexivity. Qed.

End AccountingExamples.

(** ** Analogies over episodes *)

Section Analogies.
Import ReasoningEngine.

Lemma searchEpisodic_content q m :
  Forall (fun r => Memory.r_content r = JsUndefined) (Memory.searchEpisodic q m).
Proof.
  apply Forall_forall. intros r Hr.
  apply filter_In in Hr. destruct Hr as [Hr _].
  apply in_map_iff in Hr. destruct Hr as (ep & <- & _). reflexivity.
Qed.

(** A hit of [recall(query, 'episodic')] has no [content]. *)
Lemma episodic_hits_content now q m :
  Forall (fun r => Memory.r_content r = JsUndefined)
         (fst (Memory.recall now q "episodic" m)).
Proof.
  rewrite recall_fst. apply sortBy_Forall.
  change (Memory.collect q "episodic" m) with (Memory.searchEpisodic q m).
  apply searchEpisodic_content.
Qed.

(** So [findAnalogy] throws on the first episode that is similar enough:
    [analogicalReasoning] either finds nothing or does not return. *)
Lemma analogicalReasoning_outcome now q chain m :
  fst (analogicalReasoning now q chain m) = Ok chain
  \/ fst (analogicalReasoning now q chain m)
     = Throw (TypeError "Cannot read properties of undefined").
Proof.
  unfold analogicalReasoning.
  pose proof (episodic_hits_content now (JsStr q) m) as H.
  destruct (Memory.recall now (JsStr q) "episodic" m) as [found m'].
  cbn [fst] in *.
  destruct (filter _ found) as [|mem rest] eqn:E; [left; reflexivity|].
  right. cbn [firstn analogies].
  assert (Hin : In mem (filter (fun mem => Qltb (1 # 2) (Memory.relevance mem))
                               found))
    by (rewrite E; left; reflexivity).
  apply filter_In in Hin. destruct Hin as [Hin _].
  rewrite Forall_forall in H. rewrite (H mem Hin). reflexivity.
Qed.

(** With one episode ["hello world"] stored, [reason("hello world")]
    throws. *)
Example reason_throws_on_similar_episode :
  let m := snd (Memory.addEpisodicMemory 1 "e1" (JsStr "hello world")
                  (Memory.new (Memory.mkConfig None None None))) in
  fst (reason 5 "hello world" 3 (new 0 m))
  = Throw (TypeError "Cannot read properties of undefined").
Proof. vm_compute. reflexivity. Qed.

End Analogies.

(** ** Where the weight index does follow *)

Section WeightIndexInStep.
Import Memory.

Lemma get_deletes {V W} k (rem : list (string * W)) (l : JsMap.t V) :
  JsMap.get k (fold_left (fun l e => JsMap.delete (fst e) l) rem l)
  = if existsb (String.eqb k) (map fst rem) then None else JsMap.get k l.
Proof.
  revert l. induction rem as [|e rem IH]; intro l;
    cbn [fold_left map existsb]; [reflexivity|].
  rewrite IH. destruct (existsb (String.eqb k) (map fst rem)).
  - rewrite orb_true_r. reflexivity.
  - rewrite orb_false_r. destruct (String.eqb k (fst e)) eqn:E.
    + apply String.eqb_eq in E. subst k. apply get_delete_same.
    + apply String.eqb_neq in E. apply get_delete_other. congruence.
Qed.

Lemma forgets_weights (rem : list (string * LongItem)) m :
  memoryWeights (fold_left (fun m e => forget (fst e) m) rem m)
  = fold_left (fun l e => JsMap.delete (fst e) l) rem (memoryWeights m).
Proof.
  revert m. induction rem as [|e rem IH]; intro m; cbn [fold_left];
    [reflexivity|].
  rewrite IH. reflexivity.
Qed.

(** [addToLongTerm] writes the item and the index together, and capacity
    management deletes from both: an entry found under [key] afterwards
    has its importance in the index. *)
Lemma addToLongTerm_in_step now key value imp m item :
  let m' := snd (addToLongTerm now key value imp m) in
  JsMap.get key (longTerm m') = Some item ->
  JsMap.get key (memoryWeights m') = Some (importance item).
Proof.
  cbv zeta. intro H.
  rewrite (addToLongTerm_get _ _ _ _ _ _ H). cbn [importance].
  revert H. unfold addToLongTerm, manageLongTermCapacity. cbn [snd].
  cbn [longTerm longTermCapacity withWeights withLongTerm].
  destruct (JsMap.size _ <=? longTermCapacity m)%nat.
  - intros _. cbn [memoryWeights withWeights]. apply get_set_same.
  - match goal with
    | |- context [fold_left _ ?rem ?m0] =>
        destruct (forgets_frame rem m0) as (_ & _ & _ & L);
        rewrite L, (forgets_weights rem m0)
    end.
    rewrite !get_deletes.
    destruct (existsb _ _); [discriminate|].
    intros _. cbn [memoryWeights withWeights withLongTerm].
    apply get_set_same.
Qed.

End WeightIndexInStep.

(** * Further properties *)

(** ** Importance and relevance *)

Section Scores.
Import Memory.


Lemma startsWith_refl s : Str.startsWith s s = true.
Proof.
  induction s as [|c r IH]; [reflexivity|].
  cbn [Str.startsWith]. rewrite Ascii.eqb_refl, IH. reflexivity.
Qed.

Lemma includes_refl s : Str.includes s s = true.
Proof. destruct s; cbn [Str.includes]; rewrite startsWith_refl; reflexivity. Qed.

Lemma same_text_scores_one q c :
  Str.toLowerCase q = Str.toLowerCase c ->
  calculateRelevance (JsStr q) (JsStr c) == 1.
Proof.
  intro H. unfold calculateRelevance. rewrite <- H.
  set (tokens := Str.split (Str.toLowerCase q)).
  set (f := fun token : string => _).
  assert (Hall : forallb f tokens = true).
  { apply forallb_forall. intros tok Htok. unfold f, some.
    apply existsb_exists. exists tok. split; [exact Htok|].
    rewrite includes_refl. reflexivity. }
  rewrite (filter_all _ _ Hall), includes_refl.
  assert (R : inject_Z (Z.of_nat (List.length tokens))
              / inject_Z (Z.of_nat (List.length tokens)) == 1)
    by (apply ratio_full, length_pos_of_nonempty, split_nonempty).
  rewrite R. reflexivity.
Qed.

(** X2. A text is fully relevant to itself, whatever the case of its
    letters: two strings with the same lowercase form score 1. *)
Theorem X2_same_text_scores_one q c :
  Str.toLowerCase q = Str.toLowerCase c ->
  calculateRelevance (JsStr q) (JsStr c) == 1.
Proof. apply same_text_scores_one. Qed.

Lemma X2_same_text_scores_one_witness :
  calculateRelevance (JsStr "Đông Nam Á") (JsStr "đông nam á") == 1.
Proof.
  apply (X2_same_text_scores_one "Đông Nam Á" "đông nam á").
  vm_compute. reflexivity.
Defined.

(** The case conversion on the program's own text: every cased letter
    is folded, a final sigma gets its own form, and [length] counts code
    units, not bytes. *)
Example toLowerCase_folds_every_letter :
  Str.toLowerCase "QUAN TRỌNG" = "quan trọng"
  /\ Str.toLowerCase "Đông Nam Á" = "đông nam á"
  /\ Str.toLowerCase "ΟΔΟΣ" = "οδος"
  /\ Str.length "tuyệt vời" = 9%nat.
Proof. vm_compute. repeat split. Qed.

Example relevance_of_lowercase_query :
  calculateRelevance
    (JsStr "đông nam á")
    (JsStr "Việt Nam là một đất nước xinh đẹp ở Đông Nam Á.") == 1.
Proof. vm_compute. reflexivity. Qed.

Example importance_of_uppercase_keyword :
  calculateImportance (JsStr "QUAN TRỌNG") == 8 # 10.
Proof. vm_compute. reflexivity. Qed.

End Scores.

(** ** What [recall] returns and what it touches *)

Section RecallFacts.
Import Memory.

Lemma relevant_needs_strings q c :
  1 # 10 < calculateRelevance q c ->
  Obs.isString q = true /\ Obs.isString c = true.
Proof.
  destruct q as [| |s|]; try (cbn; intro H; discriminate H).
  destruct c as [| |t|]; try (cbn; intro H; discriminate H).
  intros _. split; reflexivity.
Qed.

Lemma searchShortTerm_scored q m :
  Forall (fun r => relevance r = calculateRelevance q (Obs.scoredText r))
         (searchShortTerm q m).
Proof.
  apply Forall_forall. intros r Hr.
  apply filter_In in Hr. destruct Hr as [Hr _].
  apply in_map_iff in Hr. destruct Hr as (i & <- & _). reflexivity.
Qed.

Lemma searchEpisodic_scored q m :
  Forall (fun r => relevance r = calculateRelevance q (Obs.scoredText r))
         (searchEpisodic q m).
Proof.
  apply Forall_forall. intros r Hr.
  apply filter_In in Hr. destruct Hr as [Hr _].
  apply in_map_iff in Hr. destruct Hr as (i & <- & _). reflexivity.
Qed.

Lemma searchLongTerm_scored q m :
  Forall (fun r => relevance r = calculateRelevance q (Obs.scoredText r))
         (searchLongTerm q m).
Proof.
  unfold searchLongTerm.
  induction (longTerm m) as [|e l IH]; cbn [flat_map]; [constructor|].
  apply Forall_app. split; [|exact IH].
  destruct (Qltb (1 # 10) (calculateRelevance q (content (snd e))));
    repeat constructor.
Qed.

Lemma collect_scored q ty m :
  Forall (fun r => relevance r = calculateRelevance q (Obs.scoredText r))
         (collect q ty m).
Proof.
  unfold collect.
  destruct (wants ty "shortterm"); destruct (wants ty "longterm");
    destruct (wants ty "episodic");
    repeat (apply Forall_app; split);
    auto using searchShortTerm_scored, searchLongTerm_scored,
               searchEpisodic_scored.
Qed.

Lemma collect_nothing q ty m :
  Obs.isString q = false -> collect q ty m = [].
Proof.
  intro Hq.
  assert (Z0 : forall c, Qltb (1 # 10) (calculateRelevance q c) = false)
    by (intro c; destruct q; try discriminate Hq; reflexivity).
  assert (S : searchShortTerm q m = []).
  { unfold searchShortTerm. induction (shortTerm m) as [|i l IH];
      [reflexivity|]. cbn [map filter]. unfold relevant at 1.
    cbn [relevance]. rewrite Z0. exact IH. }
  assert (L : searchLongTerm q m = []).
  { unfold searchLongTerm. induction (longTerm m) as [|e l IH];
      [reflexivity|]. cbn [flat_map]. rewrite Z0. exact IH. }
  assert (E : searchEpisodic q m = []).
  { unfold searchEpisodic. induction (episodic m) as [|i l IH];
      [reflexivity|]. cbn [map filter]. unfold relevant at 1.
    cbn [relevance]. rewrite Z0. exact IH. }
  unfold collect. rewrite S, L, E.
  destruct (wants ty "shortterm"), (wants ty "longterm"),
    (wants ty "episodic"); reflexivity.
Qed.

(** X3. Every hit of [recall] was scored on a string against a string
    query: a payload that is not a string (as the objects the agent puts
    in short-term memory) is never returned. A query that is not a
    string returns nothing and leaves the memory exactly as it was. *)
Theorem X3_recall_only_strings now q ty m :
  Forall (fun r => Obs.isString q = true
                   /\ Obs.isString (Obs.scoredText r) = true
                   /\ relevance r = calculateRelevance q (Obs.scoredText r))
         (fst (recall now q ty m))
  /\ (Obs.isString q = false -> recall now q ty m = ([], m)).
Proof.
  split.
  - rewrite recall_fst. apply sortBy_Forall.
    pose proof (collect_scored q ty m) as Hs.
    pose proof (collect_relevant q ty m) as Hr.
    rewrite Forall_forall in *. intros r Hin.
    specialize (Hs r Hin). specialize (Hr r Hin). cbv beta in Hr.
    rewrite Hs in Hr. destruct (relevant_needs_strings _ _ Hr) as [A B].
    repeat split; assumption.
  - intro Hq. unfold recall. rewrite (collect_nothing q ty m Hq). reflexivity.
Qed.

Lemma X3_recall_only_strings_witness :
  recall 7 JsNull "all" Scenario.roomy = ([], Scenario.roomy).
Proof.
  apply (X3_recall_only_strings 7 JsNull "all" Scenario.roomy). reflexivity.
Defined.

(** X4. [recall] is read-only on what is remembered: the short-term
    buffer, the long-term store (so the importance of every item), the
    episodic log and the configuration are the same after the call; only
    the access counters, the last-access times and the weight index can
    change. *)
Theorem X4_recall_keeps_tiers now q ty m :
  let m' := snd (recall now q ty m) in
  shortTerm m' = shortTerm m
  /\ longTerm m' = longTerm m
  /\ episodic m' = episodic m
  /\ Wf.sameConfig m m'.
Proof.
  cbv zeta. destruct (recall_frame now q ty m) as (C & S & L & E).
  repeat split; try assumption; apply C.
Qed.

Lemma updateAccess_count now id m k :
  JsMap.get k (accessCounts (updateAccess now id m))
  = if String.eqb id k
    then Some (S (match JsMap.get id (accessCounts m) with
                  | Some c => c | None => 0%nat end))
    else JsMap.get k (accessCounts m).
Proof.
  unfold updateAccess.
  set (count := match JsMap.get id (accessCounts m) with
                | Some c => c | None => 0%nat end).
  assert (H : forall m0, accessCounts
                (if (consolidationThreshold m0 <? count)%nat
                 then withWeights
                        (JsMap.set id
                           (Qmin (weightOrHalf (JsMap.get id (memoryWeights m0))
                                  + (1 # 10)) 1) (memoryWeights m0)) m0
                 else m0) = accessCounts m0)
    by (intro m0; destruct (_ <? _)%nat; reflexivity).
  rewrite H. cbn [accessCounts withAccess].
  destruct (String.eqb id k) eqn:E.
  - apply String.eqb_eq in E. subst k. rewrite get_set_same.
    rewrite Nat.add_1_r. reflexivity.
  - apply String.eqb_neq in E. apply get_set_other, E.
Qed.

Lemma updateAccess_last now id m k :
  JsMap.get k (lastAccesses (updateAccess now id m))
  = if String.eqb id k then Some now else JsMap.get k (lastAccesses m).
Proof.
  unfold updateAccess.
  set (count := match JsMap.get id (accessCounts m) with
                | Some c => c | None => 0%nat end).
  assert (H : forall m0, lastAccesses
                (if (consolidationThreshold m0 <? count)%nat
                 then withWeights
                        (JsMap.set id
                           (Qmin (weightOrHalf (JsMap.get id (memoryWeights m0))
                                  + (1 # 10)) 1) (memoryWeights m0)) m0
                 else m0) = lastAccesses m0)
    by (intro m0; destruct (_ <? _)%nat; reflexivity).
  rewrite H. cbn [lastAccesses withAccess].
  destruct (String.eqb id k) eqn:E.
  - apply String.eqb_eq in E. subst k. apply get_set_same.
  - apply String.eqb_neq in E. apply get_set_other, E.
Qed.

Lemma touches_count now hits : forall m k,
  JsMap.get k (accessCounts
                 (fold_left (fun m r => updateAccess now (r_id r) m) hits m))
  = match Obs.hitsOf k hits with
    | O => JsMap.get k (accessCounts m)
    | S n => Some (Obs.countOr0 (JsMap.get k (accessCounts m)) + S n)%nat
    end.
Proof.
  induction hits as [|r hits IH]; intros m k; cbn [fold_left];
    [reflexivity|].
  rewrite IH, updateAccess_count. unfold Obs.hitsOf. cbn [filter].
  destruct (String.eqb (r_id r) k) eqn:E.
  - apply String.eqb_eq in E. subst k. cbn [List.length Obs.countOr0].
    fold (Obs.countOr0 (JsMap.get (r_id r) (accessCounts m))).
    destruct (List.length _); f_equal; lia.
  - reflexivity.
Qed.

Lemma touches_last now hits : forall m k,
  JsMap.get k (lastAccesses
                 (fold_left (fun m r => updateAccess now (r_id r) m) hits m))
  = match Obs.hitsOf k hits with
    | O => JsMap.get k (lastAccesses m)
    | S _ => Some now
    end.
Proof.
  induction hits as [|r hits IH]; intros m k; cbn [fold_left];
    [reflexivity|].
  rewrite IH, updateAccess_last. unfold Obs.hitsOf. cbn [filter].
  destruct (String.eqb (r_id r) k) eqn:E; cbn [List.length].
  - destruct (List.length _); reflexivity.
  - reflexivity.
Qed.

(** X5. [recall] counts every hit: for each id, the access counter grows
    by the number of returned hits carrying that id (starting from 0 for
    an id never counted), its last-access time becomes the time of the
    call, and the counters and times of ids that were not returned are
    untouched. *)
Theorem X5_recall_counts_hits now q ty m id :
  let hits := fst (recall now q ty m) in
  let m' := snd (recall now q ty m) in
  JsMap.get id (accessCounts m')
  = match Obs.hitsOf id hits with
    | O => JsMap.get id (accessCounts m)
    | S n => Some (Obs.countOr0 (JsMap.get id (accessCounts m)) + S n)%nat
    end
  /\ JsMap.get id (lastAccesses m')
     = match Obs.hitsOf id hits with
       | O => JsMap.get id (lastAccesses m)
       | S _ => Some now
       end.
Proof.
  cbv zeta. unfold recall. cbn [fst snd].
  split; [apply touches_count | apply touches_last].
Qed.

End RecallFacts.

(** ** Storing and evicting long-term entries *)

Section LongTermFacts.
Import Memory.

Lemma addToLongTerm_room now key value imp m :
  (JsMap.size (JsMap.set key (mkLong value imp now 0 now false) (longTerm m))
   <= longTermCapacity m)%nat ->
  longTerm (snd (addToLongTerm now key value imp m))
  = JsMap.set key (mkLong value imp now 0 now false) (longTerm m)
  /\ memoryWeights (snd (addToLongTerm now key value imp m))
     = JsMap.set key imp (memoryWeights m).
Proof.
  intro H. unfold addToLongTerm. cbn [snd].
  rewrite manage_room by exact H. split; reflexivity.
Qed.

(** X6. Insert and look up: when the store has room for the entry (it
    overwrites a key, or the store is below capacity), [addToLongTerm]
    leaves under [key] a fresh item with the given value and importance,
    access count 0 and [consolidated = false] (so overwriting a promoted
    entry drops its flag), records the importance in the weight index,
    and leaves every other key as it was. *)
Theorem X6_addToLongTerm_lookup now key value imp m :
  (JsMap.size (JsMap.set key (mkLong value imp now 0 now false) (longTerm m))
   <= longTermCapacity m)%nat ->
  let m' := snd (addToLongTerm now key value imp m) in
  JsMap.get key (longTerm m') = Some (mkLong value imp now 0 now false)
  /\ JsMap.get key (memoryWeights m') = Some imp
  /\ (forall k, k <> key ->
        JsMap.get k (longTerm m') = JsMap.get k (longTerm m)
        /\ JsMap.get k (memoryWeights m') = JsMap.get k (memoryWeights m)).
Proof.
  intro H. cbv zeta.
  destruct (addToLongTerm_room now key value imp m H) as [L W].
  rewrite L, W. split; [apply get_set_same|]. split; [apply get_set_same|].
  intros k Hk. split; apply get_set_other; congruence.
Qed.

Lemma X6_addToLongTerm_lookup_witness :
  JsMap.get "consolidated_id1"
    (longTerm (snd (addToLongTerm 2000 "consolidated_id1" (JsStr "new") (1 # 5)
                      (snd (addToShortTerm 1020 "id2" (JsStr "b")
                                           Scenario.roomy)))))
  = Some (mkLong (JsStr "new") (1 # 5) 2000 0 2000 false).
Proof.
  apply (X6_addToLongTerm_lookup 2000 "consolidated_id1" (JsStr "new") (1 # 5)
           (snd (addToShortTerm 1020 "id2" (JsStr "b") Scenario.roomy))).
  vm_compute. lia.
Defined.

(** X7. What is stored can be retrieved: after [addToLongTerm] of a
    string into a store with room, [recall] of the same text returns a
    hit under that key with relevance 1. *)
Theorem X7_stored_text_is_recalled now later key text imp m :
  (JsMap.size (JsMap.set key (mkLong (JsStr text) imp now 0 now false)
                         (longTerm m))
   <= longTermCapacity m)%nat ->
  let m' := snd (addToLongTerm now key (JsStr text) imp m) in
  exists hit,
    In hit (fst (recall later (JsStr text) "all" m'))
    /\ r_id hit = key
    /\ r_content hit = JsStr text
    /\ relevance hit == 1.
Proof.
  intro H. cbv zeta.
  destruct (addToLongTerm_room now key (JsStr text) imp m H) as [L _].
  set (m' := snd (addToLongTerm now key (JsStr text) imp m)) in *.
  set (item := mkLong (JsStr text) imp now 0 now false) in *.
  assert (Hin : In (key, item) (longTerm m'))
    by (apply get_In; rewrite L; apply get_set_same).
  assert (R : calculateRelevance (JsStr text) (JsStr text) == 1)
    by (apply same_text_scores_one; reflexivity).
  assert (Rb : Qltb (1 # 10) (calculateRelevance (JsStr text) (JsStr text)) = true)
    by (apply Qltb_lt; rewrite R; reflexivity).
  exists {| source := FromLong key item;
            relevance := calculateRelevance (JsStr text) (JsStr text) |}.
  split; [|split; [reflexivity | split; [reflexivity | exact R]]].
  rewrite recall_fst.
  eapply Permutation_in; [apply Permutation_sym, sortBy_perm|].
  unfold collect. change (wants "all" "shortterm") with true.
  change (wants "all" "longterm") with true.
  apply in_or_app. right. apply in_or_app. left.
  unfold searchLongTerm. apply in_flat_map.
  exists (key, item). split; [exact Hin|].
  cbn [fst snd]. unfold item at 1 2. cbn [content]. rewrite Rb.
  left. reflexivity.
Qed.

Lemma X7_stored_text_is_recalled_witness :
  exists hit,
    In hit (fst (recall 30 (JsStr "green tea") "all"
                   (snd (addToLongTerm 20 "drink" (JsStr "green tea") (1 # 2)
                                       Scenario.roomy))))
    /\ r_id hit = "drink" /\ r_content hit = JsStr "green tea"
    /\ relevance hit == 1.
Proof.
  apply (X7_stored_text_is_recalled 20 30 "drink" "green tea" (1 # 2)
           Scenario.roomy).
  vm_compute. lia.
Defined.

End LongTermFacts.

(** ** Which entries capacity management evicts *)

Section SortAscending.
Context {A : Type} (key : A -> Q) (cmp : A -> A -> Q).
Hypothesis cmp_key : forall a b, cmp a b == key a - key b.

Lemma insertBy_asc x l :
  StronglySorted (fun a b => key a <= key b) l ->
  StronglySorted (fun a b => key a <= key b) (insertBy cmp x l).
Proof.
  induction 1 as [|y r Hr IH Hy]; cbn [insertBy].
  - repeat constructor.
  - destruct (Qltb 0 (cmp x y)) eqn:E.
    + constructor; [exact IH|].
      eapply Permutation_Forall; [apply Permutation_sym, insertBy_perm|].
      constructor; [|exact Hy].
      apply Qltb_lt in E. rewrite cmp_key in E. lra.
    + apply Qltb_ge in E. rewrite cmp_key in E.
      constructor; [constructor; assumption|].
      constructor; [lra|].
      eapply Forall_impl; [|exact Hy].
      intros z Hz. cbv beta in Hz. lra.
Qed.

Lemma sortBy_asc l :
  StronglySorted (fun a b => key a <= key b) (sortBy cmp l).
Proof.
  induction l as [|x r IH]; cbn [sortBy fold_right].
  - constructor.
  - apply insertBy_asc, IH.
Qed.

End SortAscending.

Section Eviction.
Import Memory.

Lemma sorted_split {A} (R : A -> A -> Prop) (a b : list A) :
  StronglySorted R (a ++ b) ->
  forall x y, In x a -> In y b -> R x y.
Proof.
  induction a as [|h a IH]; cbn [app]; intros H x y Hx Hy; [destruct Hx|].
  inversion H as [|? ? Hs Hf]; subst.
  destruct Hx as [<-|Hx].
  - rewrite Forall_forall in Hf. apply Hf. apply in_or_app. right. exact Hy.
  - apply IH; assumption.
Qed.

Lemma compositeCmp_score a b :
  compositeCmp a b == Obs.compositeScore a - Obs.compositeScore b.
Proof. unfold compositeCmp, Obs.compositeScore. ring. Qed.

Lemma same_key_same_entry {V} (l : JsMap.t V) a b :
  NoDup (JsMap.keys l) -> In a l -> In b l -> fst a = fst b -> a = b.
Proof.
  intros Hn Ha Hb Hk. destruct a as [k v], b as [k' v']. cbn [fst] in Hk.
  subst k'. f_equal.
  apply (In_get _ _ _ Hn) in Ha. apply (In_get _ _ _ Hn) in Hb. congruence.
Qed.

Lemma key_in_keys {V} (l : list (string * V)) k :
  existsb (String.eqb k) (map fst l) = true <-> exists e, In e l /\ fst e = k.
Proof.
  rewrite existsb_exists. split.
  - intros (k' & Hin & E). apply String.eqb_eq in E. subst k'.
    apply in_map_iff in Hin. destruct Hin as (e & He & Hin).
    exists e. split; assumption.
  - intros (e & Hin & <-). exists (fst e).
    split; [apply in_map, Hin | apply String.eqb_refl].
Qed.

(** The store after eviction, entry by entry. *)
Lemma manage_over m :
  (longTermCapacity m < JsMap.size (longTerm m))%nat ->
  longTerm (manageLongTermCapacity m)
  = filter (fun x =>
              negb (existsb (String.eqb (fst x))
                      (map fst (firstn (JsMap.size (longTerm m)
                                        - longTermCapacity m)
                                       (sortBy compositeCmp (longTerm m))))))
           (longTerm m).
Proof.
  intro H. unfold manageLongTermCapacity.
  apply Nat.leb_gt in H. rewrite H.
  match goal with
  | |- context [fold_left _ ?rem m] =>
      destruct (forgets_frame rem m) as (_ & _ & _ & L)
  end.
  rewrite L. apply deletes_filter.
Qed.

(** X8. Eviction order: when the long-term store (with its keys
    distinct, as in a [Map]) is over capacity, capacity management
    leaves exactly [longTermCapacity] entries, all taken from the store,
    and every evicted entry has a composite score (importance
    + 0.1 * accessCount + 0.001 * lastAccess) no greater than that of
    every entry kept. *)
Theorem X8_eviction_takes_lowest_scores m :
  NoDup (JsMap.keys (longTerm m)) ->
  (longTermCapacity m < JsMap.size (longTerm m))%nat ->
  let m' := manageLongTermCapacity m in
  JsMap.size (longTerm m') = longTermCapacity m
  /\ (forall kept, In kept (longTerm m') -> In kept (longTerm m))
  /\ (forall kept evicted,
        In kept (longTerm m') ->
        In evicted (longTerm m) -> ~ In evicted (longTerm m') ->
        Obs.compositeScore evicted <= Obs.compositeScore kept).
Proof.
  intros Hn Hover. cbv zeta. rewrite (manage_over m Hover).
  set (l := longTerm m) in *.
  set (n := (JsMap.size l - longTermCapacity m)%nat).
  set (sorted := sortBy compositeCmp l).
  set (rem := firstn n sorted). set (rest := skipn n sorted).
  assert (Hp : Permutation (rem ++ rest) l)
    by (unfold rem, rest; rewrite firstn_skipn; apply sortBy_perm).
  assert (Hs : StronglySorted
                 (fun a b => Obs.compositeScore a <= Obs.compositeScore b)
                 (rem ++ rest)).
  { unfold rem, rest. rewrite firstn_skipn.
    apply (sortBy_asc Obs.compositeScore compositeCmp compositeCmp_score). }
  assert (Hnd : NoDup (rem ++ rest)).
  { eapply Permutation_NoDup; [apply Permutation_sym, Hp|].
    eapply NoDup_map_inv. exact Hn. }
  assert (Hrem : forall e, In e l ->
            existsb (String.eqb (fst e)) (map fst rem) = true -> In e rem).
  { intros e He Hk. apply key_in_keys in Hk. destruct Hk as (e' & He' & Hk).
    assert (He'l : In e' l)
      by (eapply Permutation_in; [exact Hp | apply in_or_app; left; exact He']).
    rewrite (same_key_same_entry l e e' Hn He He'l (eq_sym Hk)). exact He'. }
  assert (Hrest : forall e, In e rest ->
            existsb (String.eqb (fst e)) (map fst rem) = false).
  { intros e He. destruct (existsb _ _) eqn:Hk; [|reflexivity].
    exfalso.
    assert (Hel : In e l)
      by (eapply Permutation_in; [exact Hp | apply in_or_app; right; exact He]).
    pose proof (Hrem e Hel Hk) as Her.
    apply NoDup_app_remove_l in Hnd as Hnr.
    clear - Hnd Her He.
    induction rem as [|h rem IH]; [destruct Her|].
    cbn [app] in Hnd. inversion Hnd as [|? ? Hnot Hnd']; subst.
    destruct Her as [<-|Her].
    - apply Hnot. apply in_or_app. right. exact He.
    - apply IH; assumption. }
  split; [|split].
  - unfold JsMap.size.
    rewrite <- (filter_perm_length _ _ _ Hp), filter_app, length_app.
    assert (F1 : filter (fun x => negb (existsb (String.eqb (fst x))
                                               (map fst rem))) rem = []).
    { assert (H : forall x, In x rem ->
          negb (existsb (String.eqb (fst x)) (map fst rem)) = false).
      { intros x Hx. apply negb_false_iff, key_in_keys.
        exists x. split; [exact Hx | reflexivity]. }
      revert H. generalize (map fst rem) as ks. intros ks H.
      clear - H. induction rem as [|e r IHr]; [reflexivity|].
      cbn [filter]. rewrite (H e) by (left; reflexivity).
      apply IHr. intros x Hx. apply H. right. exact Hx. }
    assert (F2 : filter (fun x => negb (existsb (String.eqb (fst x))
                                               (map fst rem))) rest = rest).
    { apply forallb_filter_id. apply forallb_forall. intros x Hx.
      rewrite (Hrest x Hx). reflexivity. }
    rewrite F1, F2. cbn [List.length]. unfold rest. rewrite length_skipn.
    unfold sorted. rewrite sortBy_length. unfold n, JsMap.size in *. lia.
  - intros kept Hk. apply filter_In in Hk. apply Hk.
  - intros kept evicted Hk He Hne.
    apply filter_In in Hk. destruct Hk as [Hkl Hkk].
    apply negb_true_iff in Hkk.
    assert (Hkr : In kept rest).
    { assert (H : In kept (rem ++ rest))
        by (eapply Permutation_in; [apply Permutation_sym, Hp | exact Hkl]).
      apply in_app_or in H. destruct H as [H|H]; [|exact H].
      exfalso. assert (existsb (String.eqb (fst kept)) (map fst rem) = true)
        by (apply key_in_keys; exists kept; split; [exact H | reflexivity]).
      congruence. }
    assert (Her : In evicted rem).
    { apply Hrem; [exact He|].
      destruct (existsb (String.eqb (fst evicted)) (map fst rem)) eqn:Hke;
        [reflexivity|].
      exfalso. apply Hne. apply filter_In. split; [exact He|].
      rewrite Hke. reflexivity. }
    apply (sorted_split _ rem rest Hs); assumption.
Qed.

(** Capacity 3 holding D (0.9), E (0.1), F (0.5); G (0.8) arrives. *)
Lemma X8_eviction_takes_lowest_scores_witness :
  let full :=
    Session.run (fun _ => 1)
      [Session.AddToLongTerm 0 "D" (JsStr "d") (9 # 10);
       Session.AddToLongTerm 0 "E" (JsStr "e") (1 # 10);
       Session.AddToLongTerm 0 "F" (JsStr "f") (5 # 10)]
      (new (mkConfig None (Some 3%nat) None)) in
  let over :=
    withLongTerm
      (JsMap.set "G" (mkLong (JsStr "g") (8 # 10) 0 0 0 false) (longTerm full))
      full in
  JsMap.size (longTerm (manageLongTermCapacity over)) = 3%nat
  /\ JsMap.keys (longTerm (manageLongTermCapacity over)) = ["D"; "F"; "G"].
Proof.
  cbv zeta. split; [|vm_compute; reflexivity].
  match goal with
  | |- JsMap.size (longTerm (manageLongTermCapacity ?over)) = _ =>
      assert (K : NoDup (JsMap.keys (longTerm over)))
        by (vm_compute; repeat constructor; cbn; intuition discriminate);
      assert (O : (longTermCapacity over < JsMap.size (longTerm over))%nat)
        by (vm_compute; lia);
      exact (proj1 (X8_eviction_takes_lowest_scores over K O))
  end.
Defined.

End Eviction.

(** ** The short-term buffer and the episodic log as sliding windows *)

Section Windows.
Import Memory Session.
Variable exp : Q -> Q.

Lemma sliceLast_all {A} n (l : list A) :
  (List.length l <= n)%nat -> sliceLast n l = l.
Proof.
  intro H. unfold sliceLast.
  replace (List.length l - n)%nat with 0%nat by lia. reflexivity.
Qed.

Lemma sliceLast_length {A} n (l : list A) :
  (List.length (sliceLast n l) <= n)%nat.
Proof. unfold sliceLast. rewrite length_skipn. lia. Qed.

Lemma sliceLast_sliceLast_app {A} n (a b : list A) :
  sliceLast n (sliceLast n a ++ b) = sliceLast n (a ++ b).
Proof.
  unfold sliceLast. rewrite !length_app, length_skipn.
  destruct (Nat.le_gt_cases (List.length a) n) as [Hle|Hgt].
  - replace (List.length a - n)%nat with 0%nat by lia.
    cbn [skipn]. rewrite Nat.sub_0_r. reflexivity.
  - set (k := (List.length a - n)%nat).
    replace (List.length a - k + List.length b - n)%nat
      with (List.length b) by (unfold k; lia).
    replace (List.length a + List.length b - n)%nat
      with (List.length b + k)%nat by (unfold k; lia).
    rewrite <- skipn_skipn, (skipn_app k a b).
    replace (k - List.length a)%nat with 0%nat by (unfold k; lia).
    reflexivity.
Qed.

Lemma sliceLast_map {A B} (f : A -> B) n (l : list A) :
  map f (sliceLast n l) = sliceLast n (map f l).
Proof. unfold sliceLast. rewrite length_map. symmetry. apply skipn_map. Qed.

Lemma sliceLast_snoc_full {A} n (l : list A) x :
  List.length l = n -> sliceLast n (l ++ [x]) = tl (l ++ [x]).
Proof.
  intro H. unfold sliceLast. rewrite length_app. cbn [List.length].
  replace (List.length l + 1 - n)%nat with 1%nat by lia.
  destruct (l ++ [x]); reflexivity.
Qed.

(** One [addToShortTerm] on a buffer within capacity. *)
Lemma addToShortTerm_window now id item m :
  (List.length (shortTerm m) <= shortTermCapacity m)%nat ->
  shortTerm (snd (addToShortTerm now id item m))
  = sliceLast (shortTermCapacity m)
              (shortTerm m ++ [mkShort item now (calculateImportance item) id]).
Proof.
  intro H. unfold addToShortTerm.
  set (pushed := shortTerm m ++ [mkShort item now (calculateImportance item) id]).
  assert (L : List.length pushed = S (List.length (shortTerm m)))
    by (unfold pushed; rewrite length_app; cbn [List.length]; lia).
  destruct (shortTermCapacity m <? List.length pushed)%nat eqn:E.
  - apply Nat.ltb_lt in E.
    assert (Hfull : List.length (shortTerm m) = shortTermCapacity m) by lia.
    assert (Hs : sliceLast (shortTermCapacity m) pushed = tl pushed)
      by (unfold pushed; apply sliceLast_snoc_full, Hfull).
    rewrite Hs. clear Hs.
    destruct pushed as [|removed rest]; [discriminate L|].
    cbn [tl]. destruct (Qltb _ _); cbn [snd]; [|reflexivity].
    destruct (consolidate_frame now removed (withShortTerm rest m))
      as (_ & S & _).
    rewrite S. reflexivity.
  - apply Nat.ltb_ge in E. cbn [snd shortTerm withShortTerm].
    symmetry. apply sliceLast_all. exact E.
Qed.

Lemma addEpisodic_window now id s m :
  (List.length (episodic m) <= episodicCapacity m)%nat ->
  map event (episodic (snd (addEpisodicMemory now id (JsStr s) m)))
  = sliceLast (episodicCapacity m) (map event (episodic m) ++ [JsStr s]).
Proof.
  intro H. unfold addEpisodicMemory. cbn [analyzeEmotionalContext].
  match goal with
  | |- context [episodic m ++ [?e]] => set (ep := e)
  end.
  assert (L : List.length (episodic m ++ [ep]) = S (List.length (episodic m)))
    by (rewrite length_app; cbn [List.length]; lia).
  replace (map event (episodic m) ++ [JsStr s])
    with (map event (episodic m ++ [ep]))
    by (rewrite map_app; reflexivity).
  rewrite <- sliceLast_map. f_equal.
  destruct (episodicCapacity m <? _)%nat eqn:E;
    cbn [snd episodic withEpisodic].
  - apply Nat.ltb_lt in E. symmetry. apply sliceLast_snoc_full. lia.
  - apply Nat.ltb_ge in E. symmetry. apply sliceLast_all. exact E.
Qed.

Lemma addEpisodic_rejected now id ev m :
  Obs.isString ev = false ->
  snd (addEpisodicMemory now id ev m) = m.
Proof. destruct ev; try discriminate; reflexivity. Qed.

Lemma windows_run ops : forall m,
  Wf.bounded m -> NoDup (JsMap.keys (longTerm m)) ->
  map s_content (shortTerm (run exp ops m))
  = sliceLast (shortTermCapacity m)
              (map s_content (shortTerm m) ++ Obs.shortTermInputs ops)
  /\ map event (episodic (run exp ops m))
     = sliceLast (episodicCapacity m)
                 (map event (episodic m) ++ Obs.episodicInputs ops).
Proof.
  induction ops as [|op ops IH]; intros m B K.
  - cbn [run fold_left Obs.shortTermInputs Obs.episodicInputs flat_map].
    rewrite !app_nil_r, !sliceLast_all;
      [split; reflexivity | rewrite length_map; apply B
                          | rewrite length_map; apply B].
  - destruct (step_tidy exp m op B K) as ((C1 & _ & C3 & _) & B' & K').
    destruct (IH _ B' K') as [IHs IHe]. clear IH.
    change (run exp (op :: ops) m) with (run exp ops (step exp m op)).
    rewrite IHs, IHe, C1, C3. clear IHs IHe.
    destruct B as [Bs _ Be].
    destruct op as [t id item|t key value imp|t id ev|t q ty|t];
      cbn [step Obs.shortTermInputs Obs.episodicInputs flat_map app].
    + rewrite addToShortTerm_window by exact Bs.
      destruct (addToShortTerm_frame t id item m) as (_ & E). rewrite E.
      split; [|reflexivity].
      rewrite sliceLast_map, sliceLast_sliceLast_app, map_app, <- app_assoc.
      reflexivity.
    + destruct (addToLongTerm_frame t key value imp m) as (_ & S & E).
      rewrite S, E. split; reflexivity.
    + destruct (addEpisodic_frame t id ev m) as (_ & S & _). rewrite S.
      split; [reflexivity|].
      destruct ev as [| |s|props];
        try (rewrite addEpisodic_rejected by reflexivity; reflexivity).
      rewrite addEpisodic_window by exact Be.
      rewrite sliceLast_sliceLast_app, <- app_assoc. reflexivity.
    + destruct (recall_frame t q ty m) as (_ & S & _ & E).
      rewrite S, E. split; reflexivity.
    + destruct (applyDecay_spec exp t m K) as (_ & _ & S & E).
      rewrite S, E. split; reflexivity.
Qed.

(** X9. The short-term buffer is a sliding window: after any sequence of
    public calls on a new memory it holds, in arrival order, the payloads
    of the most recent [addToShortTerm] calls, as many as the capacity
    allows, whatever was promoted, recalled or decayed in between. *)
Theorem X9_short_term_window (cfg : Config) (ops : list Op) :
  map s_content (shortTerm (run exp ops (new cfg)))
  = sliceLast (orDefault (cfg_shortTermCapacity cfg) 10)
              (Obs.shortTermInputs ops).
Proof.
  destruct (new_tidy cfg) as (B & K).
  apply (windows_run ops (new cfg) B K).
Qed.

(** X10. The episodic log is a sliding window over the string events:
    after any sequence of public calls on a new memory it holds, in
    arrival order, the most recent string events passed to
    [addEpisodicMemory], as many as the capacity allows; an event that
    is not a string leaves no trace. *)
Theorem X10_episodic_window (cfg : Config) (ops : list Op) :
  map event (episodic (run exp ops (new cfg)))
  = sliceLast (orDefault (cfg_episodicCapacity cfg) 500)
              (Obs.episodicInputs ops).
Proof.
  destruct (new_tidy cfg) as (B & K).
  apply (windows_run ops (new cfg) B K).
Qed.

End Windows.

(** ** More on decay *)

Section DecayFacts.
Import Memory Session.
Variable exp : Q -> Q.

Lemma decay_fresh now l : forall m,
  Forall (fun e => stale now (snd e) = false) l ->
  fold_left (decayEntry exp now) l m = m.
Proof.
  induction l as [|[k item] l IH]; intros m H; cbn [fold_left];
    [reflexivity|].
  inversion H as [|? ? Hk Hl]; subst. cbn [snd] in Hk.
  unfold decayEntry at 2. rewrite Hk. apply IH, Hl.
Qed.

(** X11. Within the horizon nothing decays: when no long-term entry was
    created more than 24 hours before [now], [applyDecay] returns the
    memory unchanged. *)
Theorem X11_no_decay_within_horizon now m :
  Forall (fun e => (now - lastAccess (snd e) <= decayThreshold)%Z) (longTerm m) ->
  applyDecay exp now m = m.
Proof.
  intro H. apply decay_fresh.
  eapply Forall_impl; [|exact H].
  intros e He. cbv beta in He. unfold stale. apply Z.ltb_ge. exact He.
Qed.

(** X12. Recalling an entry does not postpone its decay: [recall] records
    the access in the [lastAccess] index, while [applyDecay] reads the
    [lastAccess] field of the item, which is set when the item is stored
    and never afterwards; so in any memory reached from a new one, the
    long-term store after [applyDecay] is the same whether or not a
    [recall] came first. *)
Theorem X12_recall_does_not_postpone_decay (cfg : Config) (ops : list Op)
    t q ty now :
  let m := run exp ops (new cfg) in
  longTerm (applyDecay exp now (snd (recall t q ty m)))
  = longTerm (applyDecay exp now m).
Proof.
  cbv zeta.
  destruct (new_tidy cfg) as (B & K).
  destruct (run_tidy exp ops (new cfg) B K) as (_ & _ & K').
  set (m := run exp ops (new cfg)) in *.
  destruct (recall_frame t q ty m) as ((_ & _ & _ & R & _) & _ & L & _).
  assert (K'' : NoDup (JsMap.keys (longTerm (snd (recall t q ty m)))))
    by (rewrite L; exact K').
  destruct (applyDecay_spec exp now m K') as (L1 & _).
  destruct (applyDecay_spec exp now _ K'') as (L2 & _).
  rewrite L1, L2, L, R. reflexivity.
Qed.

Lemma run_keys (cfg : Config) (ops : list Op) :
  NoDup (JsMap.keys (longTerm (run exp ops (new cfg)))).
Proof.
  destruct (new_tidy cfg) as (B & K).
  apply (run_tidy exp ops (new cfg) B K).
Qed.

(** X13. A consolidated entry is never purged by decay: in any memory
    reached from a new one, an entry flagged [consolidated] is still in
    the store after [applyDecay], still flagged and with the same
    content, however low its importance has become. *)
Theorem X13_consolidated_entries_survive_decay (cfg : Config) (ops : list Op)
    now k item :
  let m := run exp ops (new cfg) in
  JsMap.get k (longTerm m) = Some item ->
  consolidated item = true ->
  exists item',
    JsMap.get k (longTerm (applyDecay exp now m)) = Some item'
    /\ consolidated item' = true
    /\ content item' = content item
    /\ lastAccess item' = lastAccess item.
Proof.
  cbv zeta. intros Hget Hc.
  pose proof (run_keys cfg ops) as K.
  destruct (applyDecay_spec exp now _ K) as (L & _).
  rewrite L, outcome_get, Hget by exact K.
  unfold Wf.decayOutcome. cbn [fst snd].
  destruct (stale now item).
  - unfold expired. cbn [consolidated decayed withImportance].
    rewrite Hc, andb_false_r. cbn [JsMap.get]. rewrite String.eqb_refl.
    eexists. split; [reflexivity|]. repeat split. exact Hc.
  - cbn [JsMap.get]. rewrite String.eqb_refl.
    exists item. repeat split. exact Hc.
Qed.

(** X14. [applyDecay] only ever removes: in any memory reached from a
    new one it adds no key to the long-term store, and it leaves the
    short-term buffer, the episodic log and the configuration as they
    were. *)
Theorem X14_decay_only_removes (cfg : Config) (ops : list Op) now :
  let m := run exp ops (new cfg) in
  let m' := applyDecay exp now m in
  (forall k, In k (JsMap.keys (longTerm m')) -> In k (JsMap.keys (longTerm m)))
  /\ (JsMap.size (longTerm m') <= JsMap.size (longTerm m))%nat
  /\ shortTerm m' = shortTerm m
  /\ episodic m' = episodic m
  /\ Wf.sameConfig m m'.
Proof.
  cbv zeta. pose proof (run_keys cfg ops) as K.
  destruct (applyDecay_spec exp now _ K) as (L & C & S & E).
  split; [|split; [|split; [|split]]]; try assumption.
  - intros k Hk. rewrite L in Hk. eapply outcome_keys_in, Hk.
  - apply applyDecay_size, K.
Qed.

End DecayFacts.


Section DecayFactsWitnesses.
Import Memory Session.

Lemma X11_no_decay_within_horizon_witness :
  applyDecay (fun _ => 0) 86401000 Scenario.roomy = Scenario.roomy.
Proof.
  apply (X11_no_decay_within_horizon (fun _ => 0) 86401000 Scenario.roomy).
  change (longTerm Scenario.roomy)
    with [("x", mkLong (JsStr "v") 1 1000 0 1000 false)].
  constructor; [|constructor]. cbn [snd lastAccess]. unfold decayThreshold. lia.
Defined.

Lemma X13_consolidated_entries_survive_decay_witness :
  exists item',
    JsMap.get "consolidated_id1"
      (longTerm (applyDecay (fun _ => 0) 900000000
                   (run (fun _ => 0)
                      [AddToLongTerm 1000 "x" (JsStr "v") 1;
                       AddToShortTerm 1010 "id1" (JsStr "important note");
                       AddToShortTerm 1020 "id2" (JsStr "b")]
                      (new (mkConfig (Some 1%nat) (Some 2%nat) None)))))
    = Some item'
    /\ consolidated item' = true
    /\ content item' = JsStr "important note"
    /\ lastAccess item' = 1020%Z.
Proof.
  apply (X13_consolidated_entries_survive_decay (fun _ => 0)
           (mkConfig (Some 1%nat) (Some 2%nat) None)
           [AddToLongTerm 1000 "x" (JsStr "v") 1;
            AddToShortTerm 1010 "id1" (JsStr "important note");
            AddToShortTerm 1020 "id2" (JsStr "b")]
           900000000 "consolidated_id1"
           (mkLong (JsStr "important note") (16 # 20) 1020 0 1020 true));
    [vm_compute; reflexivity | reflexivity].
Defined.

End DecayFactsWitnesses.

(** ** Matching rule templates *)

Section TemplateFacts.
Import ReasoningEngine.

(** The value captured by a placeholder that ends the template is one
    character long: the lazy group stops as soon as it can. *)
Lemma capturePrefix_last segs : forall name s groups,
  Template.capturePrefix (segs ++ [Template.Hole name]) s = Some groups ->
  exists before c,
    groups = before ++ [(name, String c EmptyString)].
Proof.
  induction segs as [|[c|n] segs IH]; intros name s groups;
    cbn [app Template.capturePrefix].
  - destruct s as [|d s']; [discriminate|].
    destruct (Template.isDot d); [|discriminate].
    intro H. inversion H; subst. exists [], d. reflexivity.
  - destruct s as [|d s']; [discriminate|].
    destruct (Template.eqCI c d); [|discriminate]. apply IH.
  - match goal with
    | |- ?F EmptyString s = Some groups -> _ =>
        cut (forall taken g, F taken s = Some g ->
               exists before c,
                 g = before ++ [(name, String c EmptyString)]);
          [intro Hc; apply Hc|]
    end.
    clear groups.
    induction s as [|d s' IHs]; intros taken groups; [discriminate|].
    destruct (Template.isDot d); [|discriminate].
    destruct (Template.capturePrefix (segs ++ [Template.Hole name]) s')
      as [inner|] eqn:E.
    + intro H. inversion H; subst.
      destruct (IH _ _ _ E) as (before & c & ->).
      exists ((n, (taken ++ String d EmptyString)%string) :: before), c.
      reflexivity.
    + apply IHs.
Qed.

Lemma exec_last segs name s groups :
  Template.exec (segs ++ [Template.Hole name]) s = Some groups ->
  exists before c,
    groups = before ++ [(name, String c EmptyString)].
Proof.
  induction s as [|d s' IH]; cbn [Template.exec];
    destruct (Template.capturePrefix _ _) as [g|] eqn:E;
    try discriminate; intro H.
  - inversion H; subst. eapply capturePrefix_last, E.
  - inversion H; subst. eapply capturePrefix_last, E.
  - apply IH, H.
Qed.

Lemma extractVariables_exec text p groups :
  extractVariables text p = Ok (Some groups) ->
  Template.exec (Template.parse p) text = Some groups.
Proof.
  unfold extractVariables.
  destruct (negb (forallb _ _)); [discriminate|].
  destruct (negb (Template.nodupb _)); [discriminate|].
  destruct (Template.exec _ text) as [g|]; [|discriminate].
  destruct (Template.holes _); [discriminate|].
  intro H. inversion H; subst. reflexivity.
Qed.

(** X15. A placeholder at the end of a rule pattern captures a single
    character: whenever [extractVariables] succeeds on an ASCII text
    with a plain pattern that ends with [{name}], the value bound to
    [name] (the last one) has length 1, whatever the text. *)
Theorem X15_trailing_placeholder_takes_one_character text p segs name groups :
  Template.plain p = true ->
  Str.isAscii text = true ->
  Template.parse p = segs ++ [Template.Hole name] ->
  extractVariables text p = Ok (Some groups) ->
  exists before c,
    groups = before ++ [(name, String c EmptyString)].
Proof.
  intros _ _ Hp H. apply extractVariables_exec in H. rewrite Hp in H.
  eapply exec_last, H.
Qed.

Lemma X15_trailing_placeholder_takes_one_character_witness :
  exists before c,
    [("A", "smoke"); ("B", "c")] = before ++ [("B", String c EmptyString)].
Proof.
  apply (X15_trailing_placeholder_takes_one_character
           "smoke causes cancer" "{A} causes {B}"
           (Template.Hole "A" :: Template.lits " causes ") "B");
    vm_compute; reflexivity.
Defined.

Lemma capturePrefix_matches segs : forall s groups,
  Template.capturePrefix segs s = Some groups ->
  Template.matchesPrefix segs s = true.
Proof.
  induction segs as [|[c|n] segs IH]; intros s groups;
    cbn [Template.capturePrefix Template.matchesPrefix]; [reflexivity| |].
  - destruct s as [|d s']; [discriminate|].
    destruct (Template.eqCI c d); [|discriminate]. apply IH.
  - match goal with
    | |- ?F EmptyString s = Some groups -> ?G s = true =>
        cut (forall taken g, F taken s = Some g -> G s = true);
          [intro Hc; apply Hc|]
    end.
    clear groups.
    induction s as [|d s' IHs]; intros taken groups; [discriminate|].
    destruct (Template.isDot d); [|discriminate]. cbn [andb].
    destruct (Template.capturePrefix segs s') as [inner|] eqn:E.
    + intros _. rewrite (IH _ _ E). reflexivity.
    + intro H. rewrite (IHs _ _ H). apply orb_true_r.
Qed.

Lemma exec_test segs s groups :
  Template.exec segs s = Some groups -> Template.test segs s = true.
Proof.
  induction s as [|d s' IH]; cbn [Template.exec Template.test];
    destruct (Template.capturePrefix segs _) as [g|] eqn:E;
    try discriminate; intro H;
    try (rewrite (capturePrefix_matches _ _ _ E); reflexivity).
  rewrite (IH H). apply orb_true_r.
Qed.

(** X16. On plain patterns the pre-filter never rejects what
    [applyRule] can handle: whenever [applyRule] derives a conclusion
    from an ASCII text with a rule whose patterns are plain,
    [matchesRule] accepts that text; and the conclusion carries the
    confidence and the name of the rule, whose usage counter alone has
    changed, by one. *)
Theorem X16_applyRule_implies_matchesRule q rule concl rule' :
  forallb Template.plain (pattern rule) = true ->
  Str.isAscii q = true ->
  applyRule q rule = Some (concl, rule') ->
  matchesRule q rule = true
  /\ d_confidence concl = confidence rule
  /\ d_rule concl = name rule
  /\ rule' = bumpUsage rule.
Proof.
  intros _ _. unfold applyRule, matchesRule, some.
  destruct (pattern rule) as [|p0 ps]; [discriminate|].
  destruct (extractVariables q p0) as [[[|[v x] vars]|]|] eqn:E;
    try discriminate.
  intro H. inversion H; subst. cbn [existsb d_confidence d_rule].
  apply extractVariables_exec, exec_test in E. rewrite E.
  repeat split.
Qed.

Lemma X16_applyRule_implies_matchesRule_witness :
  matchesRule "if rain then wet"
    (mkRule ["if {A} then {B}"; "{A}"] "{B}" (9 # 10) "modus_ponens" 0 0)
  = true.
Proof.
  apply (X16_applyRule_implies_matchesRule "if rain then wet"
           (mkRule ["if {A} then {B}"; "{A}"] "{B}" (9 # 10) "modus_ponens" 0 0)
           (mkDerived "w" (9 # 10) "modus_ponens")
           (mkRule ["if {A} then {B}"; "{A}"] "{B}" (9 # 10) "modus_ponens" 0 1));
    vm_compute; reflexivity.
Defined.

End TemplateFacts.

(** ** Rules and facts *)

Section RulesAndFacts.
Import ReasoningEngine.

(** X17. Adding a rule and looking it up: [addRule] leaves under the
    name a rule with the given pattern, conclusion and confidence and a
    usage counter of 0; every other rule, the facts, the memory and the
    history are untouched; a name already in use keeps its place in the
    order in which rules are tried, a new name goes last. *)
Theorem X17_addRule_lookup now nm spec e :
  let e' := addRule now nm spec e in
  JsMap.get nm (rules e')
  = Some (mkRule (rs_pattern spec) (rs_conclusion spec) (rs_confidence spec)
                 nm now 0)
  /\ (forall k, k <> nm -> JsMap.get k (rules e') = JsMap.get k (rules e))
  /\ JsMap.keys (rules e')
     = (if JsMap.has nm (rules e) then JsMap.keys (rules e)
        else JsMap.keys (rules e) ++ [nm])
  /\ facts e' = facts e /\ memory e' = memory e
  /\ reasoningHistory e' = reasoningHistory e.
Proof.
  cbv zeta. unfold addRule. cbn [rules facts memory reasoningHistory withRules].
  split; [apply get_set_same|].
  split; [intros k Hk; apply get_set_other; congruence|].
  split; [|repeat split].
  unfold JsMap.has. destruct (JsMap.get nm (rules e)) eqn:E.
  - apply set_present_keys. congruence.
  - rewrite (set_fresh _ _ _ E). apply keys_app.
Qed.

Lemma valueEqb_refl : forall v, valueEqb v v = true.
Proof.
  fix IH 1. intros [| |s|props]; cbn [valueEqb]; try reflexivity.
  - apply String.eqb_refl.
  - induction props as [|[k v] props IHp]; [reflexivity|].
    rewrite String.eqb_refl, IH, IHp. reflexivity.
Qed.

Lemma jsonEqb_refl v : jsonEqb v v = true.
Proof. apply valueEqb_refl. Qed.

Lemma factEqb_refl f : factEqb f f = true.
Proof.
  unfold factEqb.
  rewrite jsonEqb_refl, Z.eqb_refl, String.eqb_refl, !andb_true_r.
  apply Qeq_bool_iff. reflexivity.
Qed.

Lemma factEqb_timestamp f g :
  factEqb f g = true -> f_timestamp f = f_timestamp g.
Proof.
  unfold factEqb. intro H.
  apply andb_true_iff in H. destruct H as [H _].
  apply andb_true_iff in H. destruct H as [_ H].
  apply Z.eqb_eq, H.
Qed.

(** X18. How [addFact] deduplicates: asserting the same content with the
    same confidence twice at the same clock reading stores it once; at a
    clock reading that no stored fact carries, the fact is always
    appended, also when its content is already there. *)
Theorem X18_addFact_dedup now fact conf e :
  snd (addFact now fact conf (snd (addFact now fact conf e)))
  = snd (addFact now fact conf e)
  /\ (Forall (fun g => f_timestamp g <> now) (facts e) ->
      facts (snd (addFact now fact conf e))
      = facts e ++ [mkFact fact conf now "user_input"]).
Proof.
  split.
  - unfold addFact. cbn [snd].
    set (f := mkFact fact conf now "user_input").
    destruct (existsb (factEqb f) (facts e)) eqn:E.
    + rewrite E. reflexivity.
    + cbn [facts]. rewrite existsb_app. cbn [existsb].
      rewrite factEqb_refl, orb_true_r. reflexivity.
  - intro H. unfold addFact. cbn [snd].
    set (f := mkFact fact conf now "user_input").
    destruct (existsb (factEqb f) (facts e)) eqn:E; [|reflexivity].
    exfalso. apply existsb_exists in E. destruct E as (g & Hin & Hg).
    apply factEqb_timestamp in Hg. rewrite Forall_forall in H.
    apply (H g Hin). symmetry. exact Hg.
Qed.

Lemma X18_addFact_dedup_witness :
  facts (snd (addFact 2 (JsStr "sky is blue") 1
                (snd (addFact 1 (JsStr "sky is blue") 1 Scenario.builtin))))
  = [mkFact (JsStr "sky is blue") 1 1 "user_input";
     mkFact (JsStr "sky is blue") 1 2 "user_input"].
Proof.
  apply (X18_addFact_dedup 2 (JsStr "sky is blue") 1
           (snd (addFact 1 (JsStr "sky is blue") 1 Scenario.builtin))).
  repeat constructor. intro H. discriminate H.
Defined.

Lemma relevantFacts_spec q fs :
  match relevantFacts q fs with
  | Throw _ => Exists (fun f => Obs.isString (f_content f) = false) fs
  | Ok l =>
      Forall (fun f => Obs.isString (f_content f) = true) fs
      /\ l = filter (Obs.factMatches q) fs
  end.
Proof.
  induction fs as [|f fs IH]; cbn [relevantFacts filter].
  - split; [constructor | reflexivity].
  - unfold Obs.factMatches at 1.
    destruct (f_content f) as [| |s|props] eqn:Ef;
      try (apply Exists_cons_hd; rewrite Ef; reflexivity).
    destruct (relevantFacts q fs) as [l|err].
    + destruct IH as [Hall ->]. split.
      * constructor; [rewrite Ef; reflexivity | exact Hall].
      * reflexivity.
    + apply Exists_cons_tl, IH.
Qed.

(** X19. [findRelevantFacts] throws exactly when some stored fact has a
    content that is not a string; otherwise it returns the facts whose
    content contains the query or is contained in it (letter case
    aside), every one of them and no other, ordered by descending
    confidence. *)
Theorem X19_findRelevantFacts_spec q e :
  match findRelevantFacts q e with
  | Throw _ => Exists (fun f => Obs.isString (f_content f) = false) (facts e)
  | Ok l =>
      Forall (fun f => Obs.isString (f_content f) = true) (facts e)
      /\ Permutation l (filter (Obs.factMatches q) (facts e))
      /\ StronglySorted (fun a b => f_confidence b <= f_confidence a) l
  end.
Proof.
  unfold findRelevantFacts.
  pose proof (relevantFacts_spec q (facts e)) as H.
  destruct (relevantFacts q (facts e)) as [l|err]; [|exact H].
  destruct H as [Hall ->]. split; [exact Hall|]. split.
  - apply sortBy_perm.
  - apply (sortBy_desc f_confidence).
Qed.

(** X20. One fact that is not a string disables reasoning: as long as it
    is stored, every call of [reason] throws a TypeError before anything
    else happens, and leaves the engine and its memory untouched. *)
Theorem X20_non_string_fact_blocks_reason now q D e :
  Exists (fun f => Obs.isString (f_content f) = false) (facts e) ->
  reason now q D e
  = (Throw (TypeError "fact.content.toLowerCase is not a function"), e).
Proof.
  intro H. unfold reason, findRelevantFacts.
  assert (T : relevantFacts q (facts e)
              = Throw (TypeError "fact.content.toLowerCase is not a function")).
  { induction H as [f fs Hf|f fs _ IH]; cbn [relevantFacts].
    - destruct (f_content f); try reflexivity. discriminate Hf.
    - destruct (f_content f); try reflexivity. rewrite IH. reflexivity. }
  rewrite T. reflexivity.
Qed.

Lemma X20_non_string_fact_blocks_reason_witness :
  let e := snd (addFact 1 (JsObj [("kind", JsStr "note")]) 1 Scenario.builtin) in
  reason 5 "hello" 3 e
  = (Throw (TypeError "fact.content.toLowerCase is not a function"), e).
Proof.
  cbv zeta.
  apply (X20_non_string_fact_blocks_reason 5 "hello" 3
           (snd (addFact 1 (JsObj [("kind", JsStr "note")]) 1 Scenario.builtin))).
  constructor. reflexivity.
Defined.

End RulesAndFacts.

(** ** What [reason] leaves behind *)

Section ReasonFrame.
Import ReasoningEngine.

Lemma remember_history c e :
  (List.length (reasoningHistory e) <= 100)%nat ->
  (List.length (reasoningHistory (remember c e)) <= 100)%nat
  /\ exists older, reasoningHistory (remember c e) = older ++ [c].
Proof.
  intro H. unfold remember. cbn [reasoningHistory].
  destruct (100 <? List.length (reasoningHistory e ++ [c]))%nat eqn:E.
  - apply Nat.ltb_lt in E. rewrite length_app in E. cbn [List.length] in E.
    destruct (reasoningHistory e) as [|h hs] eqn:Eh;
      [cbn [List.length] in E; lia|].
    cbn [app tl]. split.
    + rewrite length_app. cbn [List.length] in *. lia.
    + exists hs. reflexivity.
  - apply Nat.ltb_ge in E. split; [exact E|].
    exists (reasoningHistory e). reflexivity.
Qed.

(** X21. The history of traces stays bounded: if it holds at most 100
    traces before [reason], it holds at most 100 after; a trace that is
    returned is its last entry, and a call that throws adds nothing. *)
Theorem X21_history_bounded now q D e :
  (List.length (reasoningHistory e) <= 100)%nat ->
  let r := fst (reason now q D e) in
  let e' := snd (reason now q D e) in
  (List.length (reasoningHistory e') <= 100)%nat
  /\ (forall chain, r = Ok chain ->
        exists older, reasoningHistory e' = older ++ [chain])
  /\ (isThrow r = true -> reasoningHistory e' = reasoningHistory e).
Proof.
  intro H. cbv zeta. unfold reason.
  destruct (findRelevantFacts q e) as [directFacts|];
    [|cbn [fst snd]; split; [exact H | split; [discriminate | reflexivity]]].
  destruct (Memory.recall now (JsStr q) "all" (memory e)) as [memoryResults m1].
  destruct (applyRules q _ 0 D (rules e)) as [rs chain3].
  destruct (patternMatching now q chain3 m1) as [chain4 m2].
  destruct (analogicalReasoning now q chain4 m2) as [[chain5|err] m3];
    cbn [fst snd].
  - destruct (remember_history (finish now chain5)
                (withRules rs (withMemory m3 e)) H) as [Hl Hlast].
    split; [exact Hl|]. split; [|discriminate].
    intros chain Hc. inversion Hc; subst. exact Hlast.
  - split; [exact H|]. split; [discriminate | reflexivity].
Qed.

Lemma X21_history_bounded_witness :
  exists older chain,
    fst (reason 5 "what is love" 3 Scenario.builtin) = Ok chain
    /\ reasoningHistory (snd (reason 5 "what is love" 3 Scenario.builtin))
       = older ++ [chain].
Proof.
  assert (E : exists chain,
            fst (reason 5 "what is love" 3 Scenario.builtin) = Ok chain)
    by (vm_compute; eexists; reflexivity).
  destruct E as [chain E].
  destruct (X21_history_bounded 5 "what is love" 3 Scenario.builtin)
    as (_ & Hlast & _); [cbn; lia|].
  destruct (Hlast chain E) as [older Ho].
  exists older, chain. split; assumption.
Defined.

Lemma applyRule_bumps q rule concl rule' :
  applyRule q rule = Some (concl, rule') -> rule' = bumpUsage rule.
Proof.
  unfold applyRule. destruct (pattern rule) as [|p0 ps]; [discriminate|].
  destruct (extractVariables q p0) as [[[|[v x] vars]|]|]; try discriminate.
  intro H. inversion H; subst. reflexivity.
Qed.

(** What forward chaining does to the rules: the names and their order
    stay, and each rule differs from what it was at most by a larger
    usage counter. *)
Lemma applyRules_rules q chain depth D rs :
  let rs' := fst (applyRules q chain depth D rs) in
  JsMap.keys rs' = JsMap.keys rs
  /\ (forall nm r0, JsMap.get nm rs = Some r0 ->
        exists r, JsMap.get nm rs' = Some r /\ Obs.sameRuleUsedMore r0 r).
Proof.
  cbv zeta. unfold applyRules, applyRulesWith.
  apply (applyRulesGap_preserves matchesRule applyRule
           (fun st =>
              JsMap.keys (fst st) = JsMap.keys rs
              /\ (forall nm r0, JsMap.get nm rs = Some r0 ->
                    exists r, JsMap.get nm (fst st) = Some r
                              /\ Obs.sameRuleUsedMore r0 r))
           depth (depth + (D - depth))%nat); try lia.
  - intros st nm rule concl rule' q' d _ [Hk Hr] Hg Ha. cbn [fst].
    pose proof (applyRule_bumps q' rule concl rule' Ha) as Hb. subst rule'.
    split.
    + rewrite set_present_keys by congruence. exact Hk.
    + intros nm0 r0 H0. destruct (Hr nm0 r0 H0) as (r & Hget & Hs).
      destruct (String.eqb nm nm0) eqn:E.
      * apply String.eqb_eq in E. subst nm0. rewrite get_set_same.
        exists (bumpUsage rule). split; [reflexivity|].
        assert (r = rule) by congruence. subst r.
        destruct Hs as (A & B & C & N & T & U).
        repeat split; cbn [pattern conclusion confidence name createdAt
                           usageCount bumpUsage]; try assumption. lia.
      * apply String.eqb_neq in E. rewrite get_set_other by exact E.
        exists r. split; assumption.
  - cbn [fst]. split; [reflexivity|].
    intros nm r0 H0. exists r0. split; [exact H0|].
    repeat split. lia.
Qed.

Lemma sameTiers_refl m : Obs.sameTiers m m.
Proof. repeat split. Qed.

Lemma sameTiers_trans m1 m2 m3 :
  Obs.sameTiers m1 m2 -> Obs.sameTiers m2 m3 -> Obs.sameTiers m1 m3.
Proof.
  intros (S1 & L1 & E1 & C1) (S2 & L2 & E2 & C2).
  split; [congruence|]. split; [congruence|]. split; [congruence|].
  eapply sameConfig_trans; eassumption.
Qed.

Lemma recall_tiers now q ty m :
  Obs.sameTiers m (snd (Memory.recall now q ty m)).
Proof.
  destruct (recall_frame now q ty m) as (C & S & L & E).
  repeat split; try assumption; apply C.
Qed.

Lemma explainConcept_tiers now a m :
  Obs.sameTiers m (snd (explainConcept now a m)).
Proof.
  unfold explainConcept.
  pose proof (recall_tiers now (JsStr a) "all" m) as H.
  destruct (Memory.recall now (JsStr a) "all" m) as [[|b bs] m']; exact H.
Qed.

Lemma provideInstructions_tiers now a m :
  Obs.sameTiers m (snd (provideInstructions now a m)).
Proof.
  unfold provideInstructions.
  pose proof (recall_tiers now (JsStr ("how to " ++ a)%string) "all" m) as H.
  destruct (Memory.recall now _ "all" m) as [[|b bs] m']; exact H.
Qed.

Lemma explainReason_tiers now a m :
  Obs.sameTiers m (snd (explainReason now a m)).
Proof.
  unfold explainReason.
  pose proof (recall_tiers now (JsStr ("because " ++ a)%string) "all" m) as H.
  destruct (Memory.recall now _ "all" m) as [[|b bs] m']; exact H.
Qed.

Lemma provideTimeInfo_tiers now a m :
  Obs.sameTiers m (snd (provideTimeInfo now a m)).
Proof.
  unfold provideTimeInfo.
  pose proof (recall_tiers now (JsStr ("when " ++ a)%string) "all" m) as H.
  destruct (Memory.recall now _ "all" m) as [[|b bs] m']; exact H.
Qed.

Lemma runPatterns_tiers ps now q chain m :
  Forall (fun p => forall t a m', Obs.sameTiers m' (snd (snd p t a m'))) ps ->
  Obs.sameTiers m (snd (runPatterns ps now q chain m)).
Proof.
  intro Hps. induction Hps as [|[[lit src] handler] ps Hh Hps IH];
    cbn [runPatterns snd]; [apply sameTiers_refl|].
  destruct (Template.execTail lit q) as [captured|]; [|exact IH].
  specialize (Hh now captured m). cbn [snd] in Hh.
  destruct (handler now captured m) as [result m']. exact Hh.
Qed.

Lemma patternMatching_tiers now q chain m :
  Obs.sameTiers m (snd (patternMatching now q chain m)).
Proof.
  apply runPatterns_tiers. unfold patterns.
  constructor; [intros; apply explainConcept_tiers|].
  constructor; [intros; apply provideInstructions_tiers|].
  constructor; [intros; apply explainReason_tiers|].
  constructor; [intros; apply provideTimeInfo_tiers|].
  constructor.
Qed.

Lemma analogicalReasoning_tiers now q chain m :
  Obs.sameTiers m (snd (analogicalReasoning now q chain m)).
Proof.
  unfold analogicalReasoning.
  pose proof (recall_tiers now (JsStr q) "episodic" m) as H.
  destruct (Memory.recall now (JsStr q) "episodic" m) as [found m'].
  exact H.
Qed.

(** X22. [reason] consults, it does not rewrite: whether it returns or
    throws, the facts are the same afterwards, the memory remembers the
    same things under the same configuration (only access bookkeeping
    can differ), and the rules keep their names, their order, their
    patterns, conclusions and confidences; a usage counter can only have
    grown. *)
Theorem X22_reason_frame now q D e :
  let e' := snd (reason now q D e) in
  facts e' = facts e
  /\ Obs.sameTiers (memory e) (memory e')
  /\ JsMap.keys (rules e') = JsMap.keys (rules e)
  /\ (forall nm r0, JsMap.get nm (rules e) = Some r0 ->
        exists r, JsMap.get nm (rules e') = Some r
                  /\ Obs.sameRuleUsedMore r0 r).
Proof.
  cbv zeta. unfold reason.
  assert (Same : forall nm r0, JsMap.get nm (rules e) = Some r0 ->
            exists r, JsMap.get nm (rules e) = Some r
                      /\ Obs.sameRuleUsedMore r0 r).
  { intros nm r0 H0. exists r0. split; [exact H0|]. repeat split. lia. }
  destruct (findRelevantFacts q e) as [directFacts|];
    [|cbn [snd]; split; [reflexivity|];
      split; [apply sameTiers_refl|]; split; [reflexivity | exact Same]].
  pose proof (recall_tiers now (JsStr q) "all" (memory e)) as T1.
  destruct (Memory.recall now (JsStr q) "all" (memory e)) as [memoryResults m1].
  cbn [snd] in T1.
  match goal with
  | |- context [applyRules q ?c 0 D (rules e)] =>
      destruct (applyRules_rules q c 0 D (rules e)) as [Hk Hr];
      destruct (applyRules q c 0 D (rules e)) as [rs chain3]
  end.
  cbn [fst] in Hk, Hr.
  pose proof (patternMatching_tiers now q chain3 m1) as T2.
  destruct (patternMatching now q chain3 m1) as [chain4 m2]. cbn [snd] in T2.
  pose proof (analogicalReasoning_tiers now q chain4 m2) as T3.
  destruct (analogicalReasoning now q chain4 m2) as [[chain5|err] m3];
    cbn [snd] in T3 |- *;
    (split; [reflexivity|]; split;
     [eapply sameTiers_trans; [exact T1|];
      eapply sameTiers_trans; [exact T2 | exact T3]
     | split; [exact Hk | exact Hr]]).
Qed.

End ReasonFrame.

(** ** Saving and loading *)

Section Snapshots.
Import Memory Persistence.

Lemma mapOf_from {V} (l : list (string * V)) : forall acc,
  NoDup (JsMap.keys (acc ++ l)) ->
  fold_left (fun m e => JsMap.set (fst e) (snd e) m) l acc = acc ++ l.
Proof.
  induction l as [|[k v] l IH]; intros acc H; cbn [fold_left fst snd].
  - rewrite app_nil_r. reflexivity.
  - assert (Hk : JsMap.get k acc = None).
    { apply get_none_keys. rewrite keys_app in H.
      cbn [JsMap.keys map fst] in H. apply NoDup_remove_2 in H.
      intro Hin. apply H. apply in_or_app. left. exact Hin. }
    rewrite (set_fresh _ _ _ Hk), IH; rewrite <- app_assoc; [reflexivity|].
    exact H.
Qed.

Lemma mapOf_id {V} (l : list (string * V)) :
  NoDup (JsMap.keys l) -> mapOf l = l.
Proof. intro H. apply (mapOf_from l []). exact H. Qed.

(** X23. Saving and loading a memory is a round trip: for a memory whose
    maps have distinct keys, [load(save())] restores every tier, every
    index and the configuration exactly, whatever the loading memory
    held before; and a snapshot that lacks the tiers empties them (it
    does not keep what was there), while a snapshot without [config]
    keeps the configuration. *)
Theorem X23_save_load_round_trip now m before :
  NoDup (JsMap.keys (longTerm m)) ->
  NoDup (JsMap.keys (memoryWeights m)) ->
  NoDup (JsMap.keys (accessCounts m)) ->
  NoDup (JsMap.keys (lastAccesses m)) ->
  load (save now m) before = m
  /\ (let cleared :=
        load (mkSnapshot None None None None None None None now) m in
      shortTerm cleared = [] /\ longTerm cleared = [] /\ episodic cleared = []
      /\ memoryWeights cleared = [] /\ accessCounts cleared = []
      /\ lastAccesses cleared = [] /\ Wf.sameConfig m cleared).
Proof.
  intros H1 H2 H3 H4. split.
  - unfold load, save.
    cbn [d_shortTerm d_longTerm d_episodic d_memoryWeights d_accessCount
         d_lastAccess d_config orEmpty orKeep p_shortTermCapacity
         p_longTermCapacity p_episodicCapacity p_decayRate
         p_consolidationThreshold].
    rewrite !mapOf_id by assumption. destruct m; reflexivity.
  - cbv zeta. repeat split.
Qed.

Lemma X23_save_load_round_trip_witness :
  load (save 99 Scenario.roomy) Scenario.crowded = Scenario.roomy.
Proof.
  apply (X23_save_load_round_trip 99 Scenario.roomy Scenario.crowded);
    vm_compute; repeat constructor; intros [].
Defined.

Lemma sliceLast_suffix {A} n (l : list A) :
  exists dropped, l = dropped ++ sliceLast n l.
Proof.
  exists (firstn (List.length l - n) l). unfold sliceLast.
  symmetry. apply firstn_skipn.
Qed.

(** X24. Saving an engine keeps the 50 most recent traces only: after
    [load(save())] the rules (with distinct names, as in a [Map]) are
    restored in their order, the history is the last part of the old
    one and holds at most 50 traces, and the memory of the loading
    engine is left alone. *)
Theorem X24_engine_save_load now e before :
  NoDup (JsMap.keys (ReasoningEngine.rules e)) ->
  let e' := loadEngine (saveEngine now e) before in
  ReasoningEngine.rules e' = ReasoningEngine.rules e
  /\ (List.length (ReasoningEngine.reasoningHistory e') <= 50)%nat
  /\ (exists dropped,
        ReasoningEngine.reasoningHistory e
        = dropped ++ ReasoningEngine.reasoningHistory e')
  /\ ((List.length (ReasoningEngine.reasoningHistory e) <= 50)%nat ->
      ReasoningEngine.reasoningHistory e' = ReasoningEngine.reasoningHistory e)
  /\ ReasoningEngine.memory e' = ReasoningEngine.memory before.
Proof.
  intro H. cbv zeta. unfold loadEngine, saveEngine.
  cbn [ReasoningEngine.rules ReasoningEngine.reasoningHistory
       ReasoningEngine.memory d_rules d_reasoningHistory orEmpty].
  split; [apply mapOf_id, H|].
  split; [apply sliceLast_length|].
  split; [apply sliceLast_suffix|].
  split; [apply sliceLast_all | reflexivity].
Qed.

Lemma X24_engine_save_load_witness :
  ReasoningEngine.rules
    (loadEngine (saveEngine 9 Scenario.builtin) (Scenario.looping 1))
  = ReasoningEngine.rules Scenario.builtin.
Proof.
  apply (X24_engine_save_load 9 Scenario.builtin (Scenario.looping 1)).
  vm_compute. repeat constructor; cbn; intuition discriminate.
Defined.

End Snapshots.

(** ** Statistics and analogies *)

Section StatsFacts.
Import Memory Stats.

Lemma sorted_firstn {A} (R : A -> A -> Prop) n (l : list A) :
  StronglySorted R l -> StronglySorted R (firstn n l).
Proof.
  intro H. revert n. induction H as [|x l Hl IH Hx]; intro n.
  - rewrite firstn_nil. constructor.
  - destruct n as [|n]; cbn [firstn]; constructor; [apply IH|].
    rewrite Forall_forall in *. intros y Hy. apply Hx.
    rewrite <- (firstn_skipn n l). apply in_or_app. left. exact Hy.
Qed.

Lemma sorted_map {A B} (f : A -> B) (R : A -> A -> Prop) (S : B -> B -> Prop)
    (l : list A) :
  (forall a b, R a b -> S (f a) (f b)) ->
  StronglySorted R l -> StronglySorted S (map f l).
Proof.
  intros HRS H. induction H as [|x l Hl IH Hx]; cbn [map]; constructor;
    [exact IH|].
  rewrite Forall_forall in *. intros y Hy.
  apply in_map_iff in Hy. destruct Hy as (a & <- & Ha). apply HRS, Hx, Ha.
Qed.

(** X25. [getMostAccessedMemories(limit)] returns at most [limit]
    entries, each an id with the access count recorded for it, in
    descending order of access count, and no entry left out has a higher
    count than one returned; an id that is not a key of the long-term
    store (a short-term or episodic id that was recalled) is listed with
    the content ['N/A']. *)
Theorem X25_most_accessed limit m :
  let top := getMostAccessedMemories limit m in
  (List.length top <= limit)%nat
  /\ StronglySorted (fun a b => (a_accessCount b <= a_accessCount a)%nat) top
  /\ Forall (fun a =>
               In (a_id a, a_accessCount a) (accessCounts m)
               /\ (JsMap.get (a_id a) (longTerm m) = None ->
                   a_content a = JsStr "N/A")) top
  /\ (forall e a,
        In e (accessCounts m) -> In a top ->
        ~ In (fst e) (map a_id top) ->
        (snd e <= a_accessCount a)%nat).
Proof.
  cbv zeta. unfold getMostAccessedMemories.
  set (cmp := fun a b : string * nat =>
                inject_Z (Z.of_nat (snd b)) - inject_Z (Z.of_nat (snd a))).
  set (sorted := sortBy cmp (accessCounts m)).
  set (view := fun e : string * nat =>
                 {| a_id := fst e; a_accessCount := snd e;
                    a_lastAccess := JsMap.get (fst e) (lastAccesses m);
                    a_content := contentOrNA (fst e) m |}).
  assert (Hs : StronglySorted (fun a b : string * nat => (snd b <= snd a)%nat)
                              sorted).
  { pose proof (sortBy_desc (fun e : string * nat => inject_Z (Z.of_nat (snd e)))
                            (accessCounts m)) as H.
    eapply StronglySorted_ind with (P := fun l => StronglySorted _ l);
      [constructor | | exact H].
    intros a l _ IH Ha. constructor; [exact IH|].
    eapply Forall_impl; [|exact Ha].
    intros b Hb. cbv beta in Hb. rewrite <- Zle_Qle in Hb. lia. }
  assert (Hp : Permutation sorted (accessCounts m)) by apply sortBy_perm.
  split; [|split; [|split]].
  - rewrite length_map, length_firstn. lia.
  - apply (sorted_map view (fun a b : string * nat => (snd b <= snd a)%nat));
      [auto|]. apply sorted_firstn, Hs.
  - apply Forall_forall. intros a Ha.
    apply in_map_iff in Ha. destruct Ha as (e & <- & He).
    cbn [a_id a_accessCount a_content view]. split.
    + eapply Permutation_in; [exact Hp|].
      rewrite <- (firstn_skipn limit sorted). apply in_or_app. left.
      destruct e. exact He.
    + intro Hn. unfold contentOrNA. rewrite Hn. reflexivity.
  - intros e a He Ha Hout.
    apply in_map_iff in Ha. destruct Ha as (e' & <- & He').
    cbn [a_accessCount view].
    assert (Hin : In e (firstn limit sorted ++ skipn limit sorted)).
    { rewrite firstn_skipn. eapply Permutation_in;
        [apply Permutation_sym, Hp | exact He]. }
    apply in_app_or in Hin. destruct Hin as [Hin|Hin].
    + exfalso. apply Hout. rewrite map_map. cbn [a_id view].
      apply in_map. exact Hin.
    + rewrite <- (firstn_skipn limit sorted) in Hs.
      apply (sorted_split _ _ _ Hs e' e He' Hin).
Qed.

End StatsFacts.

Section AnalogyFacts.
Import ReasoningEngine.

(** X26. [findAnalogy] on a string target either finds no shared token
    longer than three characters and returns nothing, or returns the
    text ["Similar to: " + target] with a confidence above 0 and at most
    1; on a target that is not a string it throws. *)
Theorem X26_findAnalogy_range src target :
  match findAnalogy src target with
  | Ok (Some (text, conf)) =>
      exists tgt, target = JsStr tgt
                  /\ text = ("Similar to: " ++ tgt)%string
                  /\ 0 < conf <= 1
  | Ok None => Obs.isString target = true
  | Throw _ => Obs.isString target = false
  end.
Proof.
  unfold findAnalogy. destruct target as [| |tgt|props]; try reflexivity.
  set (sourceTokens := Str.split (Str.toLowerCase src)).
  set (targetTokens := Str.split (Str.toLowerCase tgt)).
  set (f := fun token : string => _).
  pose proof (filter_length_le f sourceTokens) as Hle.
  destruct (filter f sourceTokens) as [|tok toks] eqn:E; [reflexivity|].
  exists tgt. split; [reflexivity|]. split; [reflexivity|].
  set (n := List.length (tok :: toks)) in *.
  set (d := Nat.max (List.length sourceTokens) (List.length targetTokens)).
  assert (Hn : (0 < n)%nat) by (unfold n; cbn [List.length]; lia).
  assert (Hd : (n <= d)%nat) by (unfold d; lia).
  assert (Hd' : 0 < inject_Z (Z.of_nat d))
    by (change 0 with (inject_Z 0); rewrite <- Zlt_Qlt; lia).
  split.
  - apply Qlt_shift_div_l; [exact Hd'|]. rewrite Qmult_0_l.
    change 0 with (inject_Z 0). rewrite <- Zlt_Qlt. lia.
  - apply (ratio_bounds n d); lia.
Qed.

End AnalogyFacts.

(** ** Conclusions are not repeated *)

Section DistinctConclusions.
Import ReasoningEngine.

Lemma distinct_snoc l x :
  Obs.distinctValues l ->
  Forall (fun a => sameValue x a = false) l ->
  Obs.distinctValues (l ++ [x]).
Proof.
  unfold Obs.distinctValues. intros H Hx.
  induction H as [|a l Ha Hl IH]; cbn [app].
  - repeat constructor.
  - inversion Hx as [|? ? Hxa Hxl]; subst.
    constructor; [|apply IH, Hxl].
    apply Forall_app. split; [exact Ha|]. repeat constructor. exact Hxa.
Qed.

Lemma distinct_merge v conf c :
  Obs.distinctValues (conclusions c) ->
  Obs.distinctValues (conclusions (merge v conf c)).
Proof.
  intro H. unfold merge.
  destruct (existsb (sameValue v) (conclusions c)) eqn:E; [exact H|].
  cbn [conclusions conclude]. apply distinct_snoc; [exact H|].
  apply Forall_forall. intros a Ha.
  destruct (sameValue v a) eqn:Es; [|reflexivity].
  assert (existsb (sameValue v) (conclusions c) = true)
    by (apply existsb_exists; exists a; split; assumption).
  congruence.
Qed.

Lemma applyRules_distinct q chain depth D rs :
  Obs.distinctValues (conclusions chain) ->
  Obs.distinctValues (conclusions (snd (applyRules q chain depth D rs))).
Proof.
  intro H. unfold applyRules, applyRulesWith.
  apply (applyRulesGap_preserves matchesRule applyRule
           (fun st => Obs.distinctValues (conclusions (snd st)))
           depth (depth + (D - depth))%nat); try lia; [|exact H].
  intros st nm rule concl rule' q' d _ Hd _ _. cbn [snd].
  apply distinct_merge. exact Hd.
Qed.

Lemma runPatterns_distinct ps now q chain m :
  Obs.distinctValues (conclusions chain) ->
  Obs.distinctValues (conclusions (fst (runPatterns ps now q chain m))).
Proof.
  intro H. induction ps as [|[[lit src] handler] ps IH];
    cbn [runPatterns fst]; [exact H|].
  destruct (Template.execTail lit q) as [captured|]; [|exact IH].
  destruct (handler now captured m) as [result m']. cbn [fst].
  apply distinct_merge. exact H.
Qed.

Lemma includes_app_r a b : Str.includes (a ++ b)%string b = true.
Proof.
  induction a as [|c a IH]; cbn [String.append].
  - apply includes_refl.
  - cbn [Str.includes]. rewrite IH. apply orb_true_r.
Qed.

Lemma someIncludes_none text cs :
  someIncludes text cs = Ok false ->
  Forall (fun c => exists s, c = JsStr s /\ Str.includes s text = false) cs.
Proof.
  induction cs as [|c cs IH]; cbn [someIncludes]; [constructor|].
  destruct c as [| |s|props]; try discriminate.
  destruct (Str.includes s text) eqn:E; [discriminate|].
  intro H. constructor; [exists s; split; [reflexivity | exact E] | apply IH, H].
Qed.

Lemma analogies_distinct q mems : forall chain chain',
  Obs.distinctValues (conclusions chain) ->
  analogies q mems chain = Ok chain' ->
  Obs.distinctValues (conclusions chain').
Proof.
  induction mems as [|mem mems IH]; intros chain chain' Hd H;
    cbn [analogies] in H.
  - inversion H; subst. exact Hd.
  - destruct (findAnalogy q (Memory.r_content mem)) as [[[text conf]|]|];
      [| eapply IH; eassumption | discriminate].
    cbn [conclusions chainConfidence pushStep] in H.
    destruct (someIncludes text (conclusions chain)) as [[|]|] eqn:Es;
      [| |discriminate]; apply IH in H; try exact H; [exact Hd|].
    cbn [conclusions conclude pushStep]. apply distinct_snoc; [exact Hd|].
    eapply Forall_impl; [|apply someIncludes_none, Es].
    intros c (s & -> & Hs). cbn [sameValue].
    destruct (String.eqb _ s) eqn:E; [|reflexivity].
    apply String.eqb_eq in E. subst s.
    rewrite includes_app_r in Hs. discriminate Hs.
Qed.

(** X27. The conclusions of a returned trace are pairwise distinct:
    [reason] never lists the same conclusion twice, however many rules
    derive it. *)
Theorem X27_conclusions_distinct now q D e chain :
  fst (reason now q D e) = Ok chain ->
  Obs.distinctValues (conclusions chain).
Proof.
  intro H. unfold reason in H.
  destruct (findRelevantFacts q e) as [directFacts|]; [|discriminate].
  destruct (Memory.recall now (JsStr q) "all" (memory e))
    as [memoryResults m1].
  match type of H with
  | context [applyRules q ?c 0 D (rules e)] =>
      assert (A2 : Obs.distinctValues (conclusions c))
        by (destruct directFacts as [|f fs], memoryResults as [|b bs];
            cbn; repeat constructor);
      pose proof (applyRules_distinct q c 0 D (rules e) A2) as A3;
      destruct (applyRules q c 0 D (rules e)) as [rs chain3]
  end.
  cbn [snd] in A3.
  pose proof (runPatterns_distinct patterns now q chain3 m1 A3) as A4.
  fold (patternMatching now q chain3 m1) in A4.
  destruct (patternMatching now q chain3 m1) as [chain4 m2]. cbn [fst] in A4.
  unfold analogicalReasoning in H.
  destruct (Memory.recall now (JsStr q) "episodic" m2) as [found m3].
  destruct (analogies q _ chain4) as [chain5|] eqn:E5;
    cbn [fst] in H; [|discriminate].
  inversion H; subst chain.
  exact (analogies_distinct _ _ _ _ A4 E5).
Qed.

Lemma X27_conclusions_distinct_witness :
  Obs.distinctValues [JsStr "w"; JsStr "not rain"].
Proof.
  apply (X27_conclusions_distinct 5 "if rain then wet" 3 Scenario.builtin
           (mkChain "if rain then wet" 5
              [RuleApplication "modus_ponens" "w" (9 # 10) 0;
               RuleApplication "modus_tollens" "not rain" (85 # 100) 0]
              [JsStr "w"; JsStr "not rain"] (9 # 10) (Some 5%Z))).
  vm_compute. reflexivity.
Defined.

End DistinctConclusions.
